(** * A shallow embedding of the blog server [server.js]

    The server is an Express application: a JSON post store kept in one
    file, a JWT login for the single administrator, and a file upload.
    This development embeds the request handlers of [server.js] as Rocq
    functions over an explicit [World] (the files the server owns, the
    clock and the random source) and proves the properties of the
    specification about them, and then further properties of the
    handlers: what a request finds after another, what no request does,
    which order the collection keeps, and how the texts the server writes
    are read back.

    Conventions.
    - A JavaScript string is a [string] of bytes (UTF-8).
    - A JavaScript number that the server handles is an integer (a
      millisecond timestamp, a second count); it is a [Z].  Fractional
      numbers of request bodies are outside the model.
    - [undefined] is [None] of an [option]. *)

From Stdlib Require Import ZArith NArith String Ascii List Bool Lia.
From Stdlib Require Import DecimalString DecimalN Sorted.
From stdpp Require Import base option list strings gmap.

Set Warnings "-register-all".

Local Open Scope string_scope.
Local Open Scope list_scope.
Local Open Scope Z_scope.

(** ** JSON values *)

Inductive json : Type :=
| JNull
| JBool (b : bool)
| JNum (n : Z)
| JStr (s : string)
| JArr (xs : list json)
| JObj (fields : list (string * json)).

(** A JavaScript value read out of a JSON document: a JSON value or
    [undefined]. *)
Abbreviation jsval := (option json).

(** [ToBoolean]: the values that make [!v] true are [undefined], [null],
    [false], [0] and the empty string. *)
Definition truthy (v : jsval) : bool :=
  match v with
  | None => false
  | Some JNull => false
  | Some (JBool b) => b
  | Some (JNum n) => negb (n =? 0)
  | Some (JStr s) => negb (String.eqb s EmptyString)
  | Some (JArr _) => true
  | Some (JObj _) => true
  end.

(** Property read [o.k] on a parsed document.  [JSON.parse] keeps the last
    of several members with one key; a value that is not an object has no
    such property. *)
Fixpoint assoc_last (k : string) (fs : list (string * json)) : jsval :=
  match fs with
  | [] => None
  | (k', v) :: rest =>
      match assoc_last k rest with
      | Some w => Some w
      | None => if String.eqb k k' then Some v else None
      end
  end.

Definition get_prop (o : json) (k : string) : jsval :=
  match o with
  | JObj fs => assoc_last k fs
  | _ => None
  end.

(** [a === b] between a value and a string constant. *)
Definition strict_eq_string (v : jsval) (s : string) : bool :=
  match v with
  | Some (JStr t) => String.eqb t s
  | _ => false
  end.

(** ** Characters and decimal numerals *)

Module Chars.

Definition code (c : ascii) : Z := Z.of_N (N_of_ascii c).
Definition of_code (n : Z) : ascii := ascii_of_N (Z.to_N n).

Definition is_digit (c : ascii) : bool := (48 <=? code c) && (code c <=? 57).
Definition digit_val (c : ascii) : Z := code c - 48.

Definition is_upper (c : ascii) : bool := (65 <=? code c) && (code c <=? 90).
Definition is_lower (c : ascii) : bool := (97 <=? code c) && (code c <=? 122).

(** Value of a hexadecimal digit, if it is one. *)
Definition hex_val (c : ascii) : option Z :=
  let n := code c in
  if is_digit c then Some (n - 48)
  else if (97 <=? n) && (n <=? 102) then Some (n - 87)
  else if (65 <=? n) && (n <=? 70) then Some (n - 55)
  else None.

(** Lower-case hexadecimal digit of a value below 16. *)
Definition hex_digit (d : Z) : ascii :=
  if d <? 10 then of_code (48 + d) else of_code (87 + d).

Definition to_lower (c : ascii) : ascii :=
  if is_upper c then of_code (code c + 32) else c.

Definition chars (s : string) : list ascii := list_ascii_of_string s.
Definition text (l : list ascii) : string := string_of_list_ascii l.

(** Longest prefix of characters satisfying [p], and the rest. *)
Fixpoint span (p : ascii -> bool) (l : list ascii) : list ascii * list ascii :=
  match l with
  | [] => ([], [])
  | c :: r => if p c then let '(a, b) := span p r in (c :: a, b) else ([], l)
  end.

(** Value of a numeral in base [b], most significant digit first. *)
Definition numeral (b : Z) (val : ascii -> Z) (ds : list ascii) : Z :=
  fold_left (fun acc c => acc * b + val c) ds 0.

End Chars.

(** [Number::toString] in radix 10 of an integer (plain decimal digits, the
    form JavaScript uses below 10^21). *)
Definition Number_toString (n : Z) : string :=
  NilZero.string_of_int (Z.to_int n).

(** ** Numbers out of strings, and [==] between a number and a string

    [p.id == req.params.id] compares a number with a string: the string is
    converted with [StringToNumber] and the two numbers are compared.  The
    conversion trims white space, reads a decimal literal (sign, digits,
    fraction, exponent), [Infinity], or an unsigned binary, octal or
    hexadecimal literal, and rounds the value to the nearest binary64
    number, ties to even. *)

Module JsNumber.
Import Chars.

(** The value a numeric string denotes, before rounding:
    [SFinite neg m e] is [(-1)^neg * m * 10^e] with [0 <= m]. *)
Inductive strnum : Type :=
| SNaN
| SInfinity (neg : bool)
| SFinite (neg : bool) (mant : Z) (exp10 : Z).

(** [StrWhiteSpaceChar], as UTF-8 byte sequences: TAB, LF, VT, FF, CR,
    SP, U+00A0, U+1680, U+2000..U+200A, U+2028, U+2029, U+202F, U+205F,
    U+3000, U+FEFF. *)
Definition white_space : list (list ascii) :=
  map (map of_code)
    ([[9]; [10]; [11]; [12]; [13]; [32]; [194; 160]; [225; 154; 128]]
     ++ map (fun k => [226; 128; 128 + k]) [0; 1; 2; 3; 4; 5; 6; 7; 8; 9; 10]
     ++ [[226; 128; 168]; [226; 128; 169]; [226; 128; 175];
         [226; 129; 159]; [227; 128; 128]; [239; 187; 191]]).

Fixpoint strip_prefix (p l : list ascii) : option (list ascii) :=
  match p, l with
  | [], _ => Some l
  | _ :: _, [] => None
  | a :: p', b :: l' => if Ascii.eqb a b then strip_prefix p' l' else None
  end.

Fixpoint strip_any (ps : list (list ascii)) (l : list ascii) : option (list ascii) :=
  match ps with
  | [] => None
  | p :: ps' =>
      match strip_prefix p l with
      | Some r => Some r
      | None => strip_any ps' l
      end
  end.

Fixpoint trim_start (ps : list (list ascii)) (fuel : nat) (l : list ascii) : list ascii :=
  match fuel with
  | O => l
  | S f => match strip_any ps l with
           | Some r => trim_start ps f r
           | None => l
           end
  end.

Definition trim (l : list ascii) : list ascii :=
  let l1 := trim_start white_space (length l) l in
  rev (trim_start (map (@rev ascii) white_space) (length l1) (rev l1)).

Definition list_ascii_eqb (a b : list ascii) : bool :=
  String.eqb (text a) (text b).

(** [ExponentPart] after its [e]: an optional sign and at least one digit,
    up to the end of the string. *)
Definition exponent (l : list ascii) : option Z :=
  let '(neg, ds) :=
    match l with
    | "+"%char :: r => (false, r)
    | "-"%char :: r => (true, r)
    | _ => (false, l)
    end in
  match ds with
  | [] => None
  | _ => if forallb is_digit ds
         then Some (if neg then - numeral 10 digit_val ds else numeral 10 digit_val ds)
         else None
  end.

(** [StrUnsignedDecimalLiteral] other than [Infinity]: mantissa and
    decimal exponent. *)
Definition unsigned_decimal (l : list ascii) : option (Z * Z) :=
  let '(ip, r1) := span is_digit l in
  let '(fp, r2) :=
    match r1 with
    | "."%char :: r => span is_digit r
    | _ => ([], r1)
    end in
  match ip ++ fp with
  | [] => None
  | ds =>
      let m := numeral 10 digit_val ds in
      let scale := - Z.of_nat (length fp) in
      match r2 with
      | [] => Some (m, scale)
      | c :: r3 =>
          if Ascii.eqb c "e" || Ascii.eqb c "E"
          then match exponent r3 with
               | Some e => Some (m, e + scale)
               | None => None
               end
          else None
      end
  end.

Definition radix_digits (b : Z) (ds : list ascii) : option Z :=
  match ds with
  | [] => None
  | _ =>
      if forallb (fun c => match hex_val c with
                           | Some v => v <? b
                           | None => false
                           end) ds
      then Some (numeral b (fun c => default 0 (hex_val c)) ds)
      else None
  end.

(** [NonDecimalIntegerLiteral]: [0b], [0o], [0x] and their digits. *)
Definition non_decimal (l : list ascii) : option Z :=
  match l with
  | "0"%char :: x :: ds =>
      if Ascii.eqb x "x" || Ascii.eqb x "X" then radix_digits 16 ds
      else if Ascii.eqb x "o" || Ascii.eqb x "O" then radix_digits 8 ds
      else if Ascii.eqb x "b" || Ascii.eqb x "B" then radix_digits 2 ds
      else None
  | _ => None
  end.

Definition StringToNumber (s : string) : strnum :=
  let l := trim (chars s) in
  match l with
  | [] => SFinite false 0 0
  | _ =>
      match non_decimal l with
      | Some n => SFinite false n 0
      | None =>
          let '(neg, u) :=
            match l with
            | "+"%char :: r => (false, r)
            | "-"%char :: r => (true, r)
            | _ => (false, l)
            end in
          if list_ascii_eqb u (chars "Infinity") then SInfinity neg
          else match unsigned_decimal u with
               | Some (m, e) => SFinite neg m e
               | None => SNaN
               end
      end
  end.

(** Nearest integer to [a / b] for [0 < b], ties to even. *)
Definition round_half_even (a b : Z) : Z :=
  let q := a / b in
  let r := a mod b in
  if 2 * r <? b then q
  else if b <? 2 * r then q + 1
  else if Z.even q then q else q + 1.

(** The binary64 number nearest to [a / b] ([0 <= a], [0 < b]), as a pair
    [(m, p)] that stands for [m * 2^p]; [None] when the value rounds to
    infinity.  The precision is 53 bits and the least exponent -1074. *)
Definition to_binary64 (a b : Z) : option (Z * Z) :=
  if a =? 0 then Some (0, 0)
  else
    let e0 := Z.log2 a - Z.log2 b in
    let at_least := if 0 <=? e0 then b * 2 ^ e0 <=? a else b <=? a * 2 ^ (- e0) in
    let e := if at_least then e0 else e0 - 1 in
    let p := Z.max (e - 52) (-1074) in
    let m := if 0 <=? p then round_half_even a (b * 2 ^ p)
             else round_half_even (a * 2 ^ (- p)) b in
    if (0 <=? p) && (2 ^ 1024 <=? m * 2 ^ p) then None else Some (m, p).

Definition binary64_is_int (mp : Z * Z) (n : Z) : bool :=
  let '(m, p) := mp in
  if 0 <=? p then n =? m * 2 ^ p else n * 2 ^ (- p) =? m.

(** [n == s] for a number [n] with an integer value and a string [s]. *)
Definition loose_eq (n : Z) (s : string) : bool :=
  match StringToNumber s with
  | SFinite neg m e =>
      let '(a, b) := if 0 <=? e then (m * 10 ^ e, 1) else (m, 10 ^ (- e)) in
      match to_binary64 a b with
      | Some mp => binary64_is_int mp (if neg then - n else n)
      | None => false
      end
  | _ => false
  end.

End JsNumber.

(** ** Dates

    [new Date().toISOString()] prints a time value, the milliseconds since
    the epoch, as [YYYY-MM-DDTHH:mm:ss.sssZ] in UTC; a year outside
    0..9999 is printed with a sign and six digits. *)

Module JsDate.

(** Decimal digits of [n], padded with zeros to [width] digits. *)
Fixpoint pad_digits (width : nat) (n : Z) : list ascii :=
  match width with
  | O => []
  | S w => pad_digits w (n / 10) ++ [Chars.of_code (48 + n mod 10)]
  end.

Definition pad (width : nat) (n : Z) : string := Chars.text (pad_digits width n).

(** Year, month and day of a day number counted from 1970-01-01, in the
    proleptic Gregorian calendar. *)
Definition civil_from_days (days : Z) : Z * Z * Z :=
  let z := days + 719468 in
  let era := z / 146097 in
  let doe := z - era * 146097 in
  let yoe := (doe - doe / 1460 + doe / 36524 - doe / 146096) / 365 in
  let doy := doe - (365 * yoe + yoe / 4 - yoe / 100) in
  let mp := (5 * doy + 2) / 153 in
  let d := doy - (153 * mp + 2) / 5 + 1 in
  let m := if mp <? 10 then mp + 3 else mp - 9 in
  let y := yoe + era * 400 + (if m <=? 2 then 1 else 0) in
  (y, m, d).

Definition year_text (y : Z) : string :=
  if (0 <=? y) && (y <=? 9999) then pad 4 y
  else (if y <? 0 then "-" else "+") +:+ pad 6 (Z.abs y).

Definition toISOString (t : Z) : string :=
  let '(y, m, d) := civil_from_days (t / 86400000) in
  let ms := t mod 86400000 in
  year_text y +:+ "-" +:+ pad 2 m +:+ "-" +:+ pad 2 d +:+ "T"
    +:+ pad 2 (ms / 3600000) +:+ ":" +:+ pad 2 (ms / 60000 mod 60) +:+ ":"
    +:+ pad 2 (ms / 1000 mod 60) +:+ "." +:+ pad 3 (ms mod 1000) +:+ "Z".

End JsDate.

(** ** Base64url

    The unpadded URL-safe Base64 of RFC 4648, which the JWT compact form
    uses for its three segments. *)

Module Base64url.
Import Chars.

(** The character of a six-bit value. *)
Definition enc_char (i : Z) : ascii :=
  if i <? 26 then of_code (65 + i)
  else if i <? 52 then of_code (97 + (i - 26))
  else if i <? 62 then of_code (48 + (i - 52))
  else if i =? 62 then "-"%char
  else "_"%char.

(** The six-bit value of a character of the alphabet. *)
Definition dec_char (c : ascii) : option Z :=
  let n := code c in
  if is_upper c then Some (n - 65)
  else if is_lower c then Some (n - 97 + 26)
  else if is_digit c then Some (n - 48 + 52)
  else if n =? 45 then Some 62
  else if n =? 95 then Some 63
  else None.

Definition in_alphabet (c : ascii) : bool :=
  match dec_char c with Some _ => true | None => false end.

Fixpoint encode_bytes (l : list Z) : list Z :=
  match l with
  | [] => []
  | [a] => [a / 4; a mod 4 * 16]
  | [a; b] => [a / 4; a mod 4 * 16 + b / 16; b mod 16 * 4]
  | a :: b :: c :: r =>
      a / 4 :: a mod 4 * 16 + b / 16 :: b mod 16 * 4 + c / 64 :: c mod 64
        :: encode_bytes r
  end.

(** Bytes of a sequence of six-bit values; a lone trailing value carries
    no byte, and the unused low bits of the last value are dropped. *)
Fixpoint decode_sextets (l : list Z) : list Z :=
  match l with
  | [] => []
  | [_] => []
  | [w; x] => [w * 4 + x / 16]
  | [w; x; y] => [w * 4 + x / 16; x mod 16 * 16 + y / 4]
  | w :: x :: y :: z :: r =>
      w * 4 + x / 16 :: x mod 16 * 16 + y / 4 :: y mod 4 * 64 + z
        :: decode_sextets r
  end.

Definition encode (s : string) : string :=
  text (map enc_char (encode_bytes (map code (chars s)))).

(** Decoding of a string over the alphabet; [None] if a character is not
    of the alphabet. *)
Definition decode (s : string) : option string :=
  sextets ← mapM dec_char (chars s);
  Some (text (map of_code (decode_sextets sextets))).

End Base64url.

(** ** SHA-2 and HMAC

    The hash functions of FIPS 180-4 on 32-bit words (SHA-256) and on
    64-bit words (SHA-384, SHA-512), and the HMAC of RFC 2104 over them:
    the signature algorithms HS256, HS384 and HS512 of the token library.
    A word is a [Z] in [0, 2^w); additions wrap modulo [2^w]. *)

Module Sha2.

Record params : Type := {
  wbits : Z;                     (* word size *)
  nrounds : nat;
  K : list Z;                    (* round constants *)
  H0 : list Z;                   (* initial hash value *)
  big0 : Z * Z * Z;              (* rotations of Sigma0 *)
  big1 : Z * Z * Z;              (* rotations of Sigma1 *)
  small0 : Z * Z * Z;            (* rotations and shift of sigma0 *)
  small1 : Z * Z * Z;            (* rotations and shift of sigma1 *)
  digest_len : nat               (* bytes of the digest *)
}.

Definition K256 : list Z :=
  [1116352408; 1899447441; 3049323471; 3921009573; 961987163; 1508970993;
   2453635748; 2870763221; 3624381080; 310598401; 607225278; 1426881987;
   1925078388; 2162078206; 2614888103; 3248222580; 3835390401; 4022224774;
   264347078; 604807628; 770255983; 1249150122; 1555081692; 1996064986;
   2554220882; 2821834349; 2952996808; 3210313671; 3336571891; 3584528711;
   113926993; 338241895; 666307205; 773529912; 1294757372; 1396182291;
   1695183700; 1986661051; 2177026350; 2456956037; 2730485921; 2820302411;
   3259730800; 3345764771; 3516065817; 3600352804; 4094571909; 275423344;
   430227734; 506948616; 659060556; 883997877; 958139571; 1322822218;
   1537002063; 1747873779; 1955562222; 2024104815; 2227730452; 2361852424;
   2428436474; 2756734187; 3204031479; 3329325298].

Definition H256 : list Z :=
  [1779033703; 3144134277; 1013904242; 2773480762;
   1359893119; 2600822924; 528734635; 1541459225].

Definition K512 : list Z :=
  [4794697086780616226; 8158064640168781261; 13096744586834688815;
   16840607885511220156; 4131703408338449720; 6480981068601479193;
   10538285296894168987; 12329834152419229976; 15566598209576043074;
   1334009975649890238; 2608012711638119052; 6128411473006802146;
   8268148722764581231; 9286055187155687089; 11230858885718282805;
   13951009754708518548; 16472876342353939154; 17275323862435702243;
   1135362057144423861; 2597628984639134821; 3308224258029322869;
   5365058923640841347; 6679025012923562964; 8573033837759648693;
   10970295158949994411; 12119686244451234320; 12683024718118986047;
   13788192230050041572; 14330467153632333762; 15395433587784984357;
   489312712824947311; 1452737877330783856; 2861767655752347644;
   3322285676063803686; 5560940570517711597; 5996557281743188959;
   7280758554555802590; 8532644243296465576; 9350256976987008742;
   10552545826968843579; 11727347734174303076; 12113106623233404929;
   14000437183269869457; 14369950271660146224; 15101387698204529176;
   15463397548674623760; 17586052441742319658; 1182934255886127544;
   1847814050463011016; 2177327727835720531; 2830643537854262169;
   3796741975233480872; 4115178125766777443; 5681478168544905931;
   6601373596472566643; 7507060721942968483; 8399075790359081724;
   8693463985226723168; 9568029438360202098; 10144078919501101548;
   10430055236837252648; 11840083180663258601; 13761210420658862357;
   14299343276471374635; 14566680578165727644; 15097957966210449927;
   16922976911328602910; 17689382322260857208; 500013540394364858;
   748580250866718886; 1242879168328830382; 1977374033974150939;
   2944078676154940804; 3659926193048069267; 4368137639120453308;
   4836135668995329356; 5532061633213252278; 6448918945643986474;
   6902733635092675308; 7801388544844847127].

Definition H512 : list Z :=
  [7640891576956012808; 13503953896175478587;
   4354685564936845355; 11912009170470909681;
   5840696475078001361; 11170449401992604703;
   2270897969802886507; 6620516959819538809].

Definition H384 : list Z :=
  [14680500436340154072; 7105036623409894663;
   10473403895298186519; 1526699215303891257;
   7436329637833083697; 10282925794625328401;
   15784041429090275239; 5167115440072839076].

Definition sha256 : params :=
  {| wbits := 32; nrounds := 64; K := K256; H0 := H256;
     big0 := (2, 13, 22); big1 := (6, 11, 25);
     small0 := (7, 18, 3); small1 := (17, 19, 10); digest_len := 32 |}.

Definition sha512 : params :=
  {| wbits := 64; nrounds := 80; K := K512; H0 := H512;
     big0 := (28, 34, 39); big1 := (14, 18, 41);
     small0 := (1, 8, 7); small1 := (19, 61, 6); digest_len := 64 |}.

Definition sha384 : params :=
  {| wbits := 64; nrounds := 80; K := K512; H0 := H384;
     big0 := (28, 34, 39); big1 := (14, 18, 41);
     small0 := (1, 8, 7); small1 := (19, 61, 6); digest_len := 48 |}.

Section Hash.
Variable P : params.

Let w := wbits P.
Definition wrap (x : Z) : Z := x mod 2 ^ w.
Definition add (x y : Z) : Z := wrap (x + y).

Definition rotr (n x : Z) : Z :=
  Z.lor (Z.shiftr x n) (wrap (Z.shiftl x (w - n))).

Definition Ch (x y z : Z) : Z :=
  Z.lxor (Z.land x y) (Z.land (wrap (Z.lnot x)) z).
Definition Maj (x y z : Z) : Z :=
  Z.lxor (Z.lxor (Z.land x y) (Z.land x z)) (Z.land y z).

Definition Sigma (r : Z * Z * Z) (x : Z) : Z :=
  let '(a, b, c) := r in Z.lxor (Z.lxor (rotr a x) (rotr b x)) (rotr c x).
Definition sigma (r : Z * Z * Z) (x : Z) : Z :=
  let '(a, b, c) := r in Z.lxor (Z.lxor (rotr a x) (rotr b x)) (Z.shiftr x c).

Definition word_bytes : nat := Z.to_nat (w / 8).
Definition block_bytes : nat := (16 * word_bytes)%nat.

(** Big-endian bytes of [x] on [n] bytes. *)
Fixpoint be_bytes (n : nat) (x : Z) : list Z :=
  match n with
  | O => []
  | S m => be_bytes m (x / 256) ++ [x mod 256]
  end.

Definition be_value (bs : list Z) : Z :=
  fold_left (fun acc b => acc * 256 + b) bs 0.

(** The message followed by the bit 1, zero bits, and the length of
    the message in bits on two words. *)
Definition pad (msg : list Z) : list Z :=
  let len := length msg in
  let used := (len + 1 + 2 * word_bytes)%nat in
  let zeros := ((block_bytes - used mod block_bytes) mod block_bytes)%nat in
  msg ++ [128] ++ repeat 0 zeros
      ++ be_bytes (2 * word_bytes) (8 * Z.of_nat len).

Fixpoint chunks (fuel n : nat) (l : list Z) : list (list Z) :=
  match fuel with
  | O => []
  | S f => match l with
           | [] => []
           | _ => firstn n l :: chunks f n (skipn n l)
           end
  end.

Definition words_of (block : list Z) : list Z :=
  map be_value (chunks (length block) word_bytes block).

(** The message schedule: the sixteen words of the block, extended to
    one word for each round. *)
Fixpoint extend (n : nat) (ws : list Z) : list Z :=
  match n with
  | O => ws
  | S m =>
      let t := length ws in
      let at_ k := nth (t - k) ws 0 in
      extend m (ws ++ [add (add (sigma (small1 P) (at_ 2%nat)) (at_ 7%nat))
                           (add (sigma (small0 P) (at_ 15%nat)) (at_ 16%nat))])
  end.

Definition schedule (block : list Z) : list Z :=
  extend (nrounds P - 16) (words_of block).

Definition round (st : list Z) (kw : Z * Z) : list Z :=
  match st with
  | [a; b; c; d; e; f; g; h] =>
      let t1 := add (add (add h (Sigma (big1 P) e)) (Ch e f g))
                    (add (fst kw) (snd kw)) in
      let t2 := add (Sigma (big0 P) a) (Maj a b c) in
      [add t1 t2; a; b; c; add d t1; e; f; g]
  | _ => st
  end.

Definition compress (h : list Z) (block : list Z) : list Z :=
  let st := fold_left round (combine (K P) (schedule block)) h in
  map (fun xy => add (fst xy) (snd xy)) (combine h st).

Definition hash (msg : list Z) : list Z :=
  let padded := pad msg in
  let blocks := chunks (length padded) block_bytes padded in
  firstn (digest_len P)
    (concat (map (be_bytes word_bytes) (fold_left compress blocks (H0 P)))).

(** HMAC: [H ((K xor opad) ++ H ((K xor ipad) ++ msg))]; a key longer
    than a block is hashed first. *)
Definition hmac (key msg : list Z) : list Z :=
  let k0 := if (block_bytes <? length key)%nat then hash key else key in
  let k := k0 ++ repeat 0 (block_bytes - length k0) in
  hash (map (Z.lxor 92) k ++ hash (map (Z.lxor 54) k ++ msg)).

End Hash.

End Sha2.

(** ** JSON text

    [JSON.stringify] without indentation and [JSON.parse], for the header
    and the payload of a token.  Numbers are integers: the parser refuses a
    number with a fraction or an exponent.  A [\u] escape is decoded to
    UTF-8 for a code point of the basic plane that is not a surrogate.
    Within these bounds the parser is the one of the language: where
    [JSON_parse] gives a value, [JSON.parse] returns that value; where it
    gives none, [JSON.parse] throws or the text holds such a number or a
    surrogate escape. *)

Module JsonText.
Import Chars.

Definition dquote : ascii := of_code 34.
Definition backslash : ascii := of_code 92.

(** [QuoteJSONString], character by character. *)
Definition escape_char (c : ascii) : list ascii :=
  let n := code c in
  if n =? 34 then [backslash; dquote]
  else if n =? 92 then [backslash; backslash]
  else if n =? 8 then [backslash; "b"%char]
  else if n =? 12 then [backslash; "f"%char]
  else if n =? 10 then [backslash; "n"%char]
  else if n =? 13 then [backslash; "r"%char]
  else if n =? 9 then [backslash; "t"%char]
  else if n <? 32
       then [backslash; "u"%char; "0"%char; "0"%char;
             hex_digit (n / 16); hex_digit (n mod 16)]
  else [c].

Definition quote (s : string) : list ascii :=
  dquote :: concat (map escape_char (chars s)) ++ [dquote].

Fixpoint stringify_chars (v : json) : list ascii :=
  match v with
  | JNull => chars "null"
  | JBool true => chars "true"
  | JBool false => chars "false"
  | JNum n => chars (Number_toString n)
  | JStr s => quote s
  | JArr xs =>
      "["%char ::
        (fix elems (l : list json) : list ascii :=
           match l with
           | [] => []
           | [x] => stringify_chars x
           | x :: r => stringify_chars x ++ ","%char :: elems r
           end) xs ++ ["]"%char]
  | JObj fs =>
      "{"%char ::
        (fix members (l : list (string * json)) : list ascii :=
           match l with
           | [] => []
           | [(k, x)] => quote k ++ ":"%char :: stringify_chars x
           | (k, x) :: r => quote k ++ ":"%char :: stringify_chars x
                              ++ ","%char :: members r
           end) fs ++ ["}"%char]
  end.

Definition JSON_stringify (v : json) : string := text (stringify_chars v).

Definition is_ws (c : ascii) : bool :=
  let n := code c in (n =? 32) || (n =? 9) || (n =? 10) || (n =? 13).

Fixpoint skip_ws (l : list ascii) : list ascii :=
  match l with
  | c :: r => if is_ws c then skip_ws r else l
  | [] => []
  end.

Definition unescape (k : Z) : option ascii :=
  if (k =? 34) || (k =? 92) || (k =? 47) then Some (of_code k)
  else if k =? 98 then Some (of_code 8)
  else if k =? 102 then Some (of_code 12)
  else if k =? 110 then Some (of_code 10)
  else if k =? 114 then Some (of_code 13)
  else if k =? 116 then Some (of_code 9)
  else None.

Definition hex4 (a b c d : ascii) : option Z :=
  x ← hex_val a; y ← hex_val b; z ← hex_val c; t ← hex_val d;
  Some (((x * 16 + y) * 16 + z) * 16 + t).

Definition utf8 (cp : Z) : option (list ascii) :=
  if cp <? 128 then Some [of_code cp]
  else if cp <? 2048 then Some [of_code (192 + cp / 64); of_code (128 + cp mod 64)]
  else if (55296 <=? cp) && (cp <=? 57343) then None
  else Some [of_code (224 + cp / 4096); of_code (128 + cp / 64 mod 64);
             of_code (128 + cp mod 64)].

Definition prepend (cs : list ascii) (r : option (list ascii * list ascii))
  : option (list ascii * list ascii) :=
  '(body, rest) ← r; Some (cs ++ body, rest).

(** The characters of a string literal after its opening quote, and what
    follows the closing quote. *)
Fixpoint string_body (l : list ascii) : option (list ascii * list ascii) :=
  match l with
  | [] => None
  | c :: r =>
      let n := code c in
      if n =? 34 then Some ([], r)
      else if n =? 92 then
        match r with
        | [] => None
        | e :: r1 =>
            if code e =? 117 then
              match r1 with
              | h1 :: h2 :: h3 :: h4 :: r2 =>
                  cp ← hex4 h1 h2 h3 h4;
                  bytes ← utf8 cp;
                  prepend bytes (string_body r2)
              | _ => None
              end
            else
              ch ← unescape (code e);
              prepend [ch] (string_body r1)
        end
      else if n <? 32 then None
      else prepend [c] (string_body r)
  end.

(** The digits of an integer literal, without a leading zero.  A fraction
    or an exponent after them is refused. *)
Definition digits_part (l : list ascii) : option (Z * list ascii) :=
  let '(ds, rest) := span is_digit l in
  match ds with
  | [] => None
  | d :: more =>
      let leading_zero := (code d =? 48) && negb (Nat.eqb (length more) 0) in
      let continued :=
        match rest with
        | c :: _ => (code c =? 46) || (code c =? 101) || (code c =? 69)
        | [] => false
        end in
      if leading_zero || continued then None
      else Some (numeral 10 digit_val ds, rest)
  end.

(** An integer literal: an optional minus sign and the digits. *)
Definition number (l : list ascii) : option (Z * list ascii) :=
  match l with
  | [] => None
  | c :: r =>
      if code c =? 45 then '(v, rest) ← digits_part r; Some (- v, rest)
      else digits_part l
  end.

Definition literal (word : string) (v : json) (l : list ascii)
  : option (json * list ascii) :=
  r ← JsNumber.strip_prefix (chars word) l; Some (v, r).

Fixpoint value (fuel : nat) (l : list ascii) : option (json * list ascii) :=
  match fuel with
  | O => None
  | S f =>
      match skip_ws l with
      | [] => None
      | c :: r =>
          let n := code c in
          if n =? 34 then
            '(s, r1) ← string_body r; Some (JStr (text s), r1)
          else if n =? 91 then
            match skip_ws r with
            | c1 :: r1 => if code c1 =? 93 then Some (JArr [], r1)
                          else '(xs, r2) ← elements f r; Some (JArr xs, r2)
            | [] => None
            end
          else if n =? 123 then
            match skip_ws r with
            | c1 :: r1 => if code c1 =? 125 then Some (JObj [], r1)
                          else '(fs, r2) ← members f r; Some (JObj fs, r2)
            | [] => None
            end
          else if n =? 110 then literal "null" JNull (c :: r)
          else if n =? 116 then literal "true" (JBool true) (c :: r)
          else if n =? 102 then literal "false" (JBool false) (c :: r)
          else '(k, r1) ← number (c :: r); Some (JNum k, r1)
      end
  end
with elements (fuel : nat) (l : list ascii) : option (list json * list ascii) :=
  match fuel with
  | O => None
  | S f =>
      '(x, r) ← value f l;
      match skip_ws r with
      | c :: r1 =>
          if code c =? 44 then '(xs, r2) ← elements f r1; Some (x :: xs, r2)
          else if code c =? 93 then Some ([x], r1)
          else None
      | [] => None
      end
  end
with members (fuel : nat) (l : list ascii)
  : option (list (string * json) * list ascii) :=
  match fuel with
  | O => None
  | S f =>
      match skip_ws l with
      | q :: r0 =>
          if code q =? 34 then
            '(k, r1) ← string_body r0;
            match skip_ws r1 with
            | colon :: r2 =>
                if code colon =? 58 then
                  '(x, r3) ← value f r2;
                  match skip_ws r3 with
                  | c :: r4 =>
                      if code c =? 44
                      then '(fs, r5) ← members f r4; Some ((text k, x) :: fs, r5)
                      else if code c =? 125 then Some ([(text k, x)], r4)
                      else None
                  | [] => None
                  end
                else None
            | [] => None
            end
          else None
      | [] => None
      end
  end.

Definition JSON_parse (s : string) : option json :=
  '(v, r) ← value (2 * String.length s + 2) (chars s);
  match skip_ws r with
  | [] => Some v
  | _ => None
  end.

End JsonText.

(** ** [JSON.stringify] with indentation

    [JSON.stringify (v, null, n)] of the language: the serialization of
    [v] where each member of an object and each element of an array
    stands on a line of its own, indented by [gap], which is [n] spaces
    (ten at most), once per level, and where a space follows the colon of
    a member.  With an empty [gap] there is no line break and no space. *)

Definition newline : ascii := Chars.of_code 10.

Section Serialize.
Variable gap : list ascii.

Definition line_break (indent : list ascii) : list ascii :=
  match gap with
  | [] => []
  | _ => newline :: indent
  end.

Definition colon : list ascii :=
  match gap with
  | [] => [":"%char]
  | _ => [":"%char; " "%char]
  end.

(** The texts of the elements of [l], with [sep] between them. *)
Definition joined {A} (ser : A -> list ascii) (sep : list ascii)
  : list A -> list ascii :=
  fix go l :=
    match l with
    | [] => []
    | [x] => ser x
    | x :: r => ser x ++ sep ++ go r
    end.

Fixpoint serialize (indent : list ascii) (v : json) : list ascii :=
  match v with
  | JNull => Chars.chars "null"
  | JBool true => Chars.chars "true"
  | JBool false => Chars.chars "false"
  | JNum n => Chars.chars (Number_toString n)
  | JStr s => JsonText.quote s
  | JArr [] => Chars.chars "[]"
  | JArr xs =>
      "["%char :: line_break (indent ++ gap)
        ++ joined (serialize (indent ++ gap)) (","%char :: line_break (indent ++ gap)) xs
        ++ line_break indent ++ ["]"%char]
  | JObj [] => Chars.chars "{}"
  | JObj fs =>
      "{"%char :: line_break (indent ++ gap)
        ++ joined (fun '(k, x) => JsonText.quote k ++ colon ++ serialize (indent ++ gap) x)
             (","%char :: line_break (indent ++ gap)) fs
        ++ line_break indent ++ ["}"%char]
  end.

End Serialize.

Definition JSON_stringify_spaces (v : json) (n : nat) : string :=
  Chars.text (serialize (repeat " "%char (Nat.min n 10)) [] v).

(** ** JSON Web Tokens

    The two functions of the token library that the server calls:
    [jwt.sign (payload, secret, {expiresIn})] and [jwt.verify (token,
    secret)], with their default options.  A token is the compact form
    [header.payload.signature] of three Base64url segments; the signature
    is the HMAC of [header.payload] under the secret.  The time of the
    call, in milliseconds, is an argument. *)

Module Jwt.
Import Chars.

Inductive alg : Type := HS256 | HS384 | HS512.

Definition alg_params (a : alg) : Sha2.params :=
  match a with
  | HS256 => Sha2.sha256
  | HS384 => Sha2.sha384
  | HS512 => Sha2.sha512
  end.

(** The algorithms [verify] accepts for a secret key. *)
Definition alg_of_name (v : jsval) : option alg :=
  match v with
  | Some (JStr n) =>
      if String.eqb n "HS256" then Some HS256
      else if String.eqb n "HS384" then Some HS384
      else if String.eqb n "HS512" then Some HS512
      else None
  | _ => None
  end.

Definition mac (a : alg) (key msg : string) : string :=
  text (map of_code
          (Sha2.hmac (alg_params a) (map code (chars key)) (map code (chars msg)))).

Definition signature (a : alg) (key input : string) : string :=
  Base64url.encode (mac a key input).

(** The compact serialization of a header and a payload, signed with
    HS256. *)
Definition compact (header payload : json) (key : string) : string :=
  let input := Base64url.encode (JsonText.JSON_stringify header) +:+ "."
                 +:+ Base64url.encode (JsonText.JSON_stringify payload) in
  input +:+ "." +:+ signature HS256 key input.

Definition header_HS256 : json :=
  JObj [("alg", JStr "HS256"); ("typ", JStr "JWT")].

(** [jwt.sign] of an object payload that has no [iat] and no [exp] of its
    own: the issue time in seconds and the expiry are added to it. *)
Definition sign (now : Z) (payload : list (string * json)) (key : string)
    (expiresIn : Z) : string :=
  let iat := now / 1000 in
  compact header_HS256
    (JObj (payload ++ [("iat", JNum iat); ("exp", JNum (iat + expiresIn))]))
    key.

(** [s.split (".")] *)
Fixpoint split_dots (l : list ascii) : list (list ascii) :=
  match l with
  | [] => [[]]
  | c :: r =>
      if Ascii.eqb c "."%char then [] :: split_dots r
      else match split_dots r with
           | p :: ps => (c :: p) :: ps
           | [] => [[c]]
           end
  end.

Definition segment (l : list ascii) : bool := forallb Base64url.in_alphabet l.

(** The payload the checks of [verify] look at.  A payload is parsed when
    the header says [typ: "JWT"]; a payload that is still a string is
    parsed once more and replaced if that gives an object or an array. *)
Inductive payload_value : Type :=
| PJson (v : json)
| PText (s : string).

Definition reparse (s : string) : payload_value :=
  match JsonText.JSON_parse s with
  | Some (JObj fs) => PJson (JObj fs)
  | Some (JArr xs) => PJson (JArr xs)
  | _ => PText s
  end.

Definition decode_payload (header : json) (text : string) : option payload_value :=
  if strict_eq_string (get_prop header "typ") "JWT" then
    match JsonText.JSON_parse text with
    | None => None
    | Some (JStr s) => Some (reparse s)
    | Some v => Some (PJson v)
    end
  else Some (reparse text).

(** The time checks: [nbf] and [exp], when present, must be numbers, with
    [nbf <= now] and [now < exp], in seconds.  Reading a claim of [null]
    throws. *)
Definition claims_ok (clock : Z) (p : payload_value) : bool :=
  match p with
  | PText _ => true
  | PJson JNull => false
  | PJson v =>
      (match get_prop v "nbf" with
       | None => true
       | Some (JNum nbf) => nbf <=? clock
       | Some _ => false
       end)
      && (match get_prop v "exp" with
          | None => true
          | Some (JNum exp) => clock <? exp
          | Some _ => false
          end)
  end.

Definition nonempty (l : list ascii) : bool :=
  match l with [] => false | _ => true end.

(** [jwt.verify (token, key)] at time [now]: [true] when it returns,
    [false] when it throws.  A token whose header or payload is outside
    the bounds of [JsonText] is [false] here too, though the library may
    return for it: [true] says that the library returns. *)
Definition verify (now : Z) (token key : string) : bool :=
  let clock := now / 1000 in
  match split_dots (chars token) with
  | [h; p; sg] =>
      if nonempty h && segment h && nonempty p && segment p && segment sg
      then
        match Base64url.decode (text h), Base64url.decode (text p) with
        | Some htext, Some ptext =>
            match JsonText.JSON_parse htext with
            | Some header =>
                if truthy (Some header) then
                  match decode_payload header ptext with
                  | Some payload =>
                      if nonempty sg then
                        match alg_of_name (get_prop header "alg") with
                        | Some a =>
                            String.eqb (text sg)
                              (signature a key (text h +:+ "." +:+ text p))
                            && claims_ok clock payload
                        | None => false
                        end
                      else false
                  | None => false
                  end
                else false
            | None => false
            end
        | _, _ => false
        end
      else false
  | _ => false
  end.

End Jwt.

(** ** Paths

    [path.extname] of POSIX paths: the text from the last dot of the last
    component of the path, or nothing when that component has no dot or
    only a leading one.  The function scans the path from its end; the
    record below is the state of that scan. *)

Module Path.
Import Chars.

Record scan : Type := {
  startDot : Z;
  startPart : Z;
  end_ : Z;
  matchedSlash : bool;
  preDotState : Z;
  stopped : bool
}.

Definition scan_step (st : scan) (ic : Z * ascii) : scan :=
  let '(i, c) := ic in
  if stopped st then st
  else if code c =? 47 then
    if negb (matchedSlash st)
    then {| startDot := startDot st; startPart := i + 1; end_ := end_ st;
            matchedSlash := matchedSlash st; preDotState := preDotState st;
            stopped := true |}
    else st
  else
    let '(ms, e) := if end_ st =? -1 then (false, i + 1)
                    else (matchedSlash st, end_ st) in
    if code c =? 46 then
      if startDot st =? -1
      then {| startDot := i; startPart := startPart st; end_ := e;
              matchedSlash := ms; preDotState := preDotState st;
              stopped := false |}
      else {| startDot := startDot st; startPart := startPart st; end_ := e;
              matchedSlash := ms;
              preDotState := if preDotState st =? 1 then preDotState st else 1;
              stopped := false |}
    else
      {| startDot := startDot st; startPart := startPart st; end_ := e;
         matchedSlash := ms;
         preDotState := if startDot st =? -1 then preDotState st else -1;
         stopped := false |}.

Definition indexed (l : list ascii) : list (Z * ascii) :=
  combine (map Z.of_nat (seq 0 (length l))) l.

Definition slice (a b : Z) (l : list ascii) : list ascii :=
  firstn (Z.to_nat (b - a)) (skipn (Z.to_nat a) l).

Definition extname (p : string) : string :=
  let l := chars p in
  let st := fold_left scan_step (rev (indexed l))
              {| startDot := -1; startPart := 0; end_ := -1;
                 matchedSlash := true; preDotState := 0; stopped := false |} in
  if (startDot st =? -1) || (end_ st =? -1) || (preDotState st =? 0)
     || ((preDotState st =? 1) && (startDot st =? end_ st - 1)
         && (startDot st =? startPart st + 1))
  then EmptyString
  else text (slice (startDot st) (end_ st) l).

End Path.

(** ** The state of the server and its environment *)

(** A post of [data/posts.json].  The file is an array that only the
    server writes, with [savePosts]: its elements are the objects that
    create makes and update changes.  A member whose value is [undefined]
    is not written by [JSON.stringify]: an absent member and an
    [undefined] one are both [None]. *)
Record Post : Type := {
  id : Z;
  title : jsval;
  content : jsval;
  createdAt : string;
  updatedAt : option string
}.

(** The post as [res.json] sends it. *)
Definition json_of_post (p : Post) : json :=
  JObj ([("id", JNum (id p))]
        ++ match title p with Some v => [("title", v)] | None => [] end
        ++ match content p with Some v => [("content", v)] | None => [] end
        ++ [("createdAt", JStr (createdAt p))]
        ++ match updatedAt p with Some u => [("updatedAt", JStr u)] | None => [] end).

(** What the server does to its files, latest first. *)
Inductive fs_event : Type :=
| ReadPosts
| WritePosts (data : list Post)
| WriteUpload (name : string)
| RemoveUpload (name : string).

(** The files of the server, and the two sources it reads: the clock
    ([Date.now ()], in milliseconds) and [Math.random ()].  The [n]-th read
    of the clock returns [clock n]; the [n]-th random number is
    [random n / 2^53]. *)
Record World : Type := {
  posts_file : list Post;             (* data/posts.json *)
  uploads_dir : gmap string string;   (* uploads/: name to bytes *)
  public_dir : gmap string string;    (* public/: path to bytes *)
  clock : nat -> Z;
  ticks : nat;
  random : nat -> Z;
  draws : nat;
  fs_log : list fs_event
}.

(** A computation of the server: it reads and changes the world. *)
Definition M (A : Type) : Type := World -> A * World.

#[global] Instance M_ret : MRet M := fun A (x : A) w => (x, w).
#[global] Instance M_bind : MBind M :=
  fun A B (f : A -> M B) (m : M A) w => let '(x, w1) := m w in f x w1.

Definition Date_now : M Z := fun w =>
  (clock w (ticks w),
   {| posts_file := posts_file w; uploads_dir := uploads_dir w;
      public_dir := public_dir w; clock := clock w; ticks := S (ticks w);
      random := random w; draws := draws w; fs_log := fs_log w |}).

Definition Math_random : M Z := fun w =>
  (random w (draws w) mod 2 ^ 53,
   {| posts_file := posts_file w; uploads_dir := uploads_dir w;
      public_dir := public_dir w; clock := clock w; ticks := ticks w;
      random := random w; draws := S (draws w); fs_log := fs_log w |}).

Definition get_world : M World := fun w => (w, w).

(** ** Responses and requests *)

Inductive Body : Type :=
| Empty                      (* [res.end ()] *)
| Json (v : json)            (* [res.json (v)] *)
| Raw (bytes : string)       (* a file served as it is *)
| ErrorPage.                 (* the page of the default error handler *)

Record Response : Type := { status : Z; sent : Body }.

Definition res_json (code : Z) (v : json) : Response :=
  {| status := code; sent := Json v |}.
Definition res_end (code : Z) : Response :=
  {| status := code; sent := Empty |}.
Definition msg (text : string) : json := JObj [("msg", JStr text)].

Inductive Method : Type := GET | POST | PUT | DELETE.

(** A file of a multipart body. *)
Record FilePart : Type := {
  fieldname : string;
  originalname : string;
  bytes : string
}.

(** [req.body] as the body parsers leave it: an object or an array, and
    the object without members when the request has no body of a kind they
    read. *)
Inductive ParsedBody : Type :=
| BodyObject (members : list (string * json))
| BodyArray (items : list json).

(** [req.body.k], and the [k] of [const { k } = req.body]. *)
Definition body_prop (b : ParsedBody) (k : string) : jsval :=
  match b with
  | BodyObject fs => assoc_last k fs
  | BodyArray _ => None
  end.

(** A request after the framework has read it: the method, the segments of
    the path (decoded, none empty), the [Authorization] header, the parsed
    body and the file of a multipart body, if any. *)
Record Request : Type := {
  method : Method;
  path : list string;
  authorization : option string;
  body : ParsedBody;
  file_part : option FilePart
}.

(** ** Strings of the language *)

(** [s] without the prefix [p], if it starts with it. *)
Fixpoint string_strip_prefix (p s : string) : option string :=
  match p, s with
  | EmptyString, _ => Some s
  | String _ _, EmptyString => None
  | String a p', String b s' =>
      if Ascii.eqb a b then string_strip_prefix p' s' else None
  end.

(** [s.replace (pat, rep)] for a string pattern and a replacement without
    [$]: the first occurrence of [pat] in [s], if any, becomes [rep]. *)
Fixpoint replace (pat rep s : string) : string :=
  match string_strip_prefix pat s with
  | Some rest => rep +:+ rest
  | None =>
      match s with
      | EmptyString => EmptyString
      | String c r => String c (replace pat rep r)
      end
  end.

(** [s.slice (n)] for [0 <= n]. *)
Fixpoint slice_from (n : nat) (s : string) : string :=
  match n, s with
  | O, _ => s
  | S _, EmptyString => EmptyString
  | S m, String _ r => slice_from m r
  end.

(** [x.toString (16)] of the number [k / 2^53] of the unit interval: [0],
    or [0.] and the hexadecimal digits of the fraction, which end after at
    most fourteen digits. *)
Fixpoint fraction_digits (fuel : nat) (num : Z) : list ascii :=
  match fuel with
  | O => []
  | S f =>
      if num =? 0 then []
      else Chars.hex_digit (16 * num / 2 ^ 53)
             :: fraction_digits f (16 * num mod 2 ^ 53)
  end.

Definition unit_toString16 (k : Z) : string :=
  if k =? 0 then "0" else "0." +:+ Chars.text (fraction_digits 14 k).

(** ASCII case-insensitive equality, as the router compares the fixed
    segments of a path. *)
Definition eqb_nocase (a b : string) : bool :=
  String.eqb (Chars.text (map Chars.to_lower (Chars.chars a)))
             (Chars.text (map Chars.to_lower (Chars.chars b))).

(** ** [server.js] *)

(** *** Configuration *)

Definition PORT : Z := 3000.
Definition ADMIN_PASSWORD : string := "666".
Definition JWT_SECRET : string := "blog-secret-key".

(** *** Tools *)

Definition log_event (e : fs_event) (w : World) : World :=
  {| posts_file := posts_file w; uploads_dir := uploads_dir w;
     public_dir := public_dir w; clock := clock w; ticks := ticks w;
     random := random w; draws := draws w; fs_log := e :: fs_log w |}.

Definition readPosts : M (list Post) := fun w =>
  (posts_file w, log_event ReadPosts w).

Definition savePosts (data : list Post) : M unit := fun w =>
  (tt,
   log_event (WritePosts data)
     {| posts_file := data; uploads_dir := uploads_dir w;
        public_dir := public_dir w; clock := clock w; ticks := ticks w;
        random := random w; draws := draws w; fs_log := fs_log w |}).

(** The text that [savePosts] writes to [data/posts.json],
    [JSON.stringify (data, null, 2)], and what [readPosts] makes of the
    text of the file, [JSON.parse].  The collection of the [World] is the
    value between the two. *)
Definition posts_text (data : list Post) : string :=
  JSON_stringify_spaces (JArr (map json_of_post data)) 2.

Definition parse_posts (text : string) : option json := JsonText.JSON_parse text.

(** The two calls into the token library; each reads the clock once. *)
Definition jwt_sign (payload : list (string * json)) (key : string)
    (expiresIn : Z) : M string :=
  now ← Date_now; mret (Jwt.sign now payload key expiresIn).

Definition jwt_verify (token key : string) : M bool :=
  now ← Date_now; mret (Jwt.verify now token key).

Definition string_truthy (s : option string) : bool :=
  match s with
  | Some (String _ _) => true
  | _ => false
  end.

(** The gate of the protected routes. *)
Definition authMiddleware (req : Request) (next : M Response) : M Response :=
  let token := replace "Bearer " EmptyString <$> authorization req in
  if negb (string_truthy token) then mret (res_json 401 (msg "未登录"))
  else
    ok ← jwt_verify (default EmptyString token) JWT_SECRET;
    match ok with
    | true => next
    | false => mret (res_json 401 (msg "登录失效"))
    end.

(** *** Login *)

(** [POST /api/login] *)
Definition post_login (req : Request) : M Response :=
  let password := body_prop (body req) "password" in
  if negb (strict_eq_string password ADMIN_PASSWORD)
  then mret (res_json 401 (msg "密码错误"))
  else
    token ← jwt_sign [("role", JStr "admin")] JWT_SECRET 86400;
    mret (res_json 200 (JObj [("token", JStr token)])).

(** *** Posts *)

(** [l.sort (cmp)]: the stable sort of the engine, for a comparator that
    orders the elements. *)
Fixpoint sort_insert {A} (cmp : A -> A -> Z) (x : A) (l : list A) : list A :=
  match l with
  | [] => [x]
  | y :: r => if cmp x y <=? 0 then x :: l else y :: sort_insert cmp x r
  end.

Definition sort {A} (cmp : A -> A -> Z) (l : list A) : list A :=
  foldr (sort_insert cmp) [] l.

(** [p.id == req.params.id] *)
Definition id_matches (rid : string) (p : Post) : bool :=
  JsNumber.loose_eq (id p) rid.

(** The comparator of the list: [(a, b) => b.id - a.id]. *)
Definition newest_first (a b : Post) : Z := id b - id a.

(** [GET /api/posts]: the list. *)
Definition get_posts (req : Request) : M Response :=
  all ← readPosts;
  let posts := sort newest_first all in
  mret (res_json 200 (JArr (map json_of_post posts))).

(** [GET /api/posts/:id] *)
Definition get_post (rid : string) (req : Request) : M Response :=
  all ← readPosts;
  match find (id_matches rid) all with
  | None => mret (res_end 404)
  | Some post => mret (res_json 200 (json_of_post post))
  end.

(** [POST /api/posts]: create. *)
Definition post_posts (req : Request) : M Response :=
  let title := body_prop (body req) "title" in
  let content := body_prop (body req) "content" in
  if negb (truthy title) then mret (res_json 400 (msg "缺少标题"))
  else
    posts ← readPosts;
    now ← Date_now;
    created ← Date_now;
    let post := {| id := now; title := title; content := content;
                   createdAt := JsDate.toISOString created;
                   updatedAt := None |} in
    let posts := post :: posts in
    savePosts posts;;
    mret (res_json 200 (json_of_post post)).

(** [l.findIndex (f)], [None] for -1. *)
Fixpoint findIndex {A} (f : A -> bool) (l : list A) : option nat :=
  match l with
  | [] => None
  | x :: r => if f x then Some O else S <$> findIndex f r
  end.

(** The three assignments to [posts[index]]. *)
Definition set_fields (t c : jsval) (u : string) (p : Post) : Post :=
  {| id := id p; title := t; content := c; createdAt := createdAt p;
     updatedAt := Some u |}.

(** [PUT /api/posts/:id]: update. *)
Definition put_post (rid : string) (req : Request) : M Response :=
  posts ← readPosts;
  match findIndex (id_matches rid) posts with
  | None => mret (res_end 404)
  | Some index =>
      updated ← Date_now;
      let posts :=
        alter (set_fields (body_prop (body req) "title")
                          (body_prop (body req) "content")
                          (JsDate.toISOString updated)) index posts in
      savePosts posts;;
      mret match posts !! index with
           | Some post => res_json 200 (json_of_post post)
           | None => res_end 200
           end
  end.

(** [DELETE /api/posts/:id] *)
Definition delete_post (rid : string) (req : Request) : M Response :=
  all ← readPosts;
  let posts := List.filter (fun p => negb (id_matches rid p)) all in
  savePosts posts;;
  mret (res_json 200 (JObj [("ok", JBool true)])).

(** *** Uploads *)

(** The [fileSize] limit. *)
Definition UPLOAD_LIMIT : Z := 10 * 1024 * 1024.

(** The [filename] function of the disk storage. *)
Definition storage_filename (file : FilePart) : M string :=
  let ext := Path.extname (originalname file) in
  now ← Date_now;
  r ← Math_random;
  mret (Number_toString now +:+ "-" +:+ slice_from 2 (unit_toString16 r) +:+ ext).

(** [req.file] *)
Record StoredFile : Type := {
  stored_originalname : string;
  filename : string
}.

Inductive upload_result : Type :=
| NoFile
| Stored (f : StoredFile)
| UploadError (code : string).

Definition write_upload (name data : string) : M unit := fun w =>
  (tt,
   log_event (WriteUpload name)
     {| posts_file := posts_file w; uploads_dir := <[name := data]> (uploads_dir w);
        public_dir := public_dir w; clock := clock w; ticks := ticks w;
        random := random w; draws := draws w; fs_log := fs_log w |}).

Definition remove_upload (name : string) : M unit := fun w =>
  (tt,
   log_event (RemoveUpload name)
     {| posts_file := posts_file w; uploads_dir := delete name (uploads_dir w);
        public_dir := public_dir w; clock := clock w; ticks := ticks w;
        random := random w; draws := draws w; fs_log := fs_log w |}).

(** [upload.single (field)] for a request with at most one file: a part
    without a file name is skipped, a file of another field is an error,
    and a file over the limit is an error after which what was written of
    it is removed.  (Whether a file of exactly the limit is over it depends
    on the version of the multipart parser; it is not here.) *)
Definition upload_single (field : string) (req : Request) : M upload_result :=
  match file_part req with
  | None => mret NoFile
  | Some part =>
      if String.eqb (originalname part) EmptyString then mret NoFile
      else if negb (String.eqb (fieldname part) field)
      then mret (UploadError "LIMIT_UNEXPECTED_FILE")
      else
        name ← storage_filename part;
        if UPLOAD_LIMIT <? Z.of_nat (String.length (bytes part)) then
          write_upload name (bytes part);;
          remove_upload name;;
          mret (UploadError "LIMIT_FILE_SIZE")
        else
          write_upload name (bytes part);;
          mret (Stored {| stored_originalname := originalname part;
                          filename := name |})
  end.

(** [POST /api/upload].  An error of the upload goes to the default error
    handler of the framework, which answers 500. *)
Definition post_upload (req : Request) : M Response :=
  file ← upload_single "file" req;
  match file with
  | UploadError _ => mret {| status := 500; sent := ErrorPage |}
  | NoFile => mret (res_end 400)
  | Stored f =>
      mret (res_json 200 (JObj [("url", JStr ("/uploads/" +:+ filename f));
                                ("filename", JStr (stored_originalname f))]))
  end.

(** *** The application *)

(** The last middleware: no route matched. *)
Definition not_found : M Response :=
  mret (res_json 404 (msg "API Not Found")).

Definition join_path (segs : list string) : string :=
  match segs with
  | [] => "index.html"
  | s :: r => fold_left (fun acc x => acc +:+ "/" +:+ x) r s
  end.

(** The two static middlewares, reduced to the files they find: a [GET]
    of a path of [public/], or of [/uploads/] and a name of [uploads/], is
    answered with the bytes of the file; any other request goes on. *)
Definition serve_static (req : Request) : M (option Response) :=
  w ← get_world;
  match method req with
  | GET =>
      match public_dir w !! join_path (path req) with
      | Some data => mret (Some {| status := 200; sent := Raw data |})
      | None =>
          match path req with
          | mount :: name :: rest =>
              if String.eqb mount "uploads" then
                match uploads_dir w !! join_path (name :: rest) with
                | Some data => mret (Some {| status := 200; sent := Raw data |})
                | None => mret None
                end
              else mret None
          | _ => mret None
          end
      end
  | _ => mret None
  end.

(** The path of a request against the paths of the routes; the fixed
    segments are compared without case, as the router does. *)
Inductive Route : Type :=
| RLogin
| RPosts
| RPost (rid : string)
| RUpload
| ROther.

Definition route_of (segs : list string) : Route :=
  match segs with
  | [a; b] =>
      if eqb_nocase a "api" then
        if eqb_nocase b "login" then RLogin
        else if eqb_nocase b "posts" then RPosts
        else if eqb_nocase b "upload" then RUpload
        else ROther
      else ROther
  | [a; b; rid] =>
      if eqb_nocase a "api" && eqb_nocase b "posts" then RPost rid else ROther
  | _ => ROther
  end.

(** The application: the static middlewares, then the routes in the order
    of the file, then the last middleware. *)
Definition app (req : Request) : M Response :=
  served ← serve_static req;
  match served with
  | Some r => mret r
  | None =>
      match method req, route_of (path req) with
      | POST, RLogin => post_login req
      | GET, RPosts => get_posts req
      | GET, RPost rid => get_post rid req
      | POST, RPosts => authMiddleware req (post_posts req)
      | PUT, RPost rid => authMiddleware req (put_post rid req)
      | DELETE, RPost rid => authMiddleware req (delete_post rid req)
      | POST, RUpload => authMiddleware req (post_upload req)
      | _, _ => not_found
      end
  end.

(** *** Requests the framework refuses

    The body parsers run before every route, and the router decodes the
    [:id] of [/api/posts/:id] before the handlers of the route.  A body
    that is not the JSON or the form it announces, a body over the limit of
    its parser, a body in a charset or an encoding the parser does not
    know, and an [:id] that is no percent-encoding are errors of the
    framework: no handler of the file runs, and as the file has no error
    middleware the default error handler answers with the status of the
    error and its HTML page. *)
Inductive Refusal : Type :=
| BodySyntax
| BodyTooLarge
| BodyEncoding
| BadParameter.

Definition refusal_status (r : Refusal) : Z :=
  match r with
  | BodySyntax => 400
  | BodyTooLarge => 413
  | BodyEncoding => 415
  | BadParameter => 400
  end.

(** A request as it comes in: one the framework reads, or one it refuses. *)
Inductive Incoming : Type :=
| Readable (req : Request)
| Unreadable (r : Refusal).

(** The server: the application behind the body parsers and the router. *)
Definition server (inc : Incoming) : M Response :=
  match inc with
  | Readable req => app req
  | Unreadable r => mret {| status := refusal_status r; sent := ErrorPage |}
  end.

(** ** Notions of the specification *)

(** The world after one read of the clock. *)
Definition tick (w : World) : World := snd (Date_now w).

(** The token [authMiddleware] extracts from a request. *)
Definition bearer_token (req : Request) : option string :=
  replace "Bearer " EmptyString <$> authorization req.

(** The request carries a token that is not empty and that verifies at the
    next read of the clock. *)
Definition auth_passes (req : Request) (w : World) : bool :=
  match bearer_token req with
  | Some (String c r) => Jwt.verify (clock w (ticks w)) (String c r) JWT_SECRET
  | _ => false
  end.


(** The routes behind the gate, and the routes of the file. *)
Definition protected_route (m : Method) (r : Route) : bool :=
  match m, r with
  | POST, RPosts | PUT, RPost _ | DELETE, RPost _ | POST, RUpload => true
  | _, _ => false
  end.



(** A token of three segments whose third is the HMAC of the first two
    under the secret of the server, with one of the three hash functions. *)
Definition signed (token : string) : Prop :=
  exists h p a,
    token = (h +:+ "." +:+ p) +:+ "." +:+ Jwt.signature a JWT_SECRET (h +:+ "." +:+ p).

(** The request was read and the token the gate extracts from it is
    signed. *)
Definition carries_signed_token (inc : Incoming) : Prop :=
  exists req token, inc = Readable req /\ bearer_token req = Some token /\ signed token.

(** A post that the id of a request matches loosely. *)
Definition matches (rid : string) (p : Post) : Prop := id_matches rid p = true.


(** ** A concrete world

    The server right after its first start, with a clock that advances by
    one second at each read, and the token a login at the first instant of
    that clock gives. *)

Definition clock0 (n : nat) : Z := 1700000000000 + 1000 * Z.of_nat n.

Definition world0 : World :=
  {| posts_file := []; uploads_dir := ∅; public_dir := ∅;
     clock := clock0; ticks := 0; random := fun _ => 2 ^ 52; draws := 0;
     fs_log := [] |}.

Definition admin_token : string :=
  Jwt.sign (clock0 0) [("role", JStr "admin")] JWT_SECRET 86400.

Definition authorized (m : Method) (p : list string) (b : ParsedBody)
    (f : option FilePart) : Request :=
  {| method := m; path := p; authorization := Some ("Bearer " +:+ admin_token);
     body := b; file_part := f |}.

Definition post1 : Post :=
  {| id := 1699999990000; title := Some (JStr "First"); content := Some (JStr "text");
     createdAt := "2023-11-14T22:13:10.000Z"; updatedAt := None |}.

Definition post2 : Post :=
  {| id := 1699999980000; title := Some (JStr "Second"); content := None;
     createdAt := "2023-11-14T22:13:00.000Z"; updatedAt := None |}.

Definition login_request : Request :=
  {| method := POST; path := ["api"; "login"]; authorization := None;
     body := BodyObject [("password", JStr "666")]; file_part := None |}.

Definition get_unknown : Request :=
  {| method := GET; path := ["api"; "posts"; "1"]; authorization := None;
     body := BodyObject []; file_part := None |}.

Definition photo : FilePart :=
  {| fieldname := "file"; originalname := "photo.png"; bytes := "PNG bytes" |}.

Definition world2 : World :=
  {| posts_file := [post1; post2]; uploads_dir := ∅; public_dir := ∅;
     clock := clock0; ticks := 0; random := fun _ => 2 ^ 52; draws := 0;
     fs_log := [] |}.

Definition upload_photo : Request :=
  authorized POST ["api"; "upload"] (BodyObject []) (Some photo).

(** ** The model on known values *)

Definition hex_text (bytes : list Z) : string :=
  Chars.text (concat (map (fun b => [Chars.hex_digit (b / 16);
                                     Chars.hex_digit (b mod 16)]) bytes)).

Definition ascii_bytes (s : string) : list Z := map Chars.code (Chars.chars s).

(** ** Notions of the proofs *)

(** Bytes and six-bit values. *)
Definition is_byte (b : Z) : Prop := 0 <= b < 256.
Definition is_sextet (b : Z) : Prop := 0 <= b < 64.

(** The characters of a decimal numeral. *)
Definition uint_chars (d : Decimal.uint) : list ascii :=
  Chars.chars (NilEmpty.string_of_uint d).

(** What may follow an integer literal: nothing, or a character that is not
    a digit, a dot or an exponent mark. *)
Definition ends_number (rest : list ascii) : Prop :=
  match rest with
  | [] => True
  | c :: _ => Chars.is_digit c = false
              /\ Chars.code c <> 46 /\ Chars.code c <> 101 /\ Chars.code c <> 69
  end.

(** The text of the claims of an administrator token: the fixed parts
    around the two numbers. *)
Definition num_chars (n : Z) : list ascii := Chars.chars (Number_toString n).

Definition payload_open : list ascii :=
  Eval vm_compute in
    "{"%char :: JsonText.quote "role" ++ ":"%char :: JsonText.quote "admin"
      ++ ","%char :: JsonText.quote "iat" ++ [":"%char].

Definition payload_mid : list ascii :=
  Eval vm_compute in ","%char :: JsonText.quote "exp" ++ [":"%char].

Definition payload_chars (a b : Z) (rest : list ascii) : list ascii :=
  payload_open ++ num_chars a ++ payload_mid ++ num_chars b ++ "}"%char :: rest.

Definition admin_payload (a b : Z) : json :=
  JObj [("role", JStr "admin"); ("iat", JNum a); ("exp", JNum b)].

Definition no_dot (l : list ascii) : Prop := Forall (fun c => c <> "."%char) l.



(** A lower-case hexadecimal digit. *)
Definition is_hex_digit (c : ascii) : Prop :=
  exists d, 0 <= d < 16 /\ c = Chars.hex_digit d.

(** No pattern of [ps] starts with the character [c]. *)
Definition heads_differ (c : ascii) (ps : list (list ascii)) : bool :=
  forallb (fun p => match p with
                    | [] => false
                    | a :: _ => negb (Ascii.eqb a c)
                    end) ps.

(** ** Notions of the further properties *)

(** What a request leaves of the environment: the clock and the random
    source are the ones before, read further; [public/] is the same. *)
Definition keeps_environment (w w' : World) : Prop :=
  clock w' = clock w /\ random w' = random w /\ public_dir w' = public_dir w
  /\ (ticks w <= ticks w')%nat.

(** What a request may do to the collection: nothing, put a post whose id
    is a reading of the clock in front, change a post and keep its id, or
    drop posts. *)
Definition store_change (w w' : World) : Prop :=
  posts_file w' = posts_file w
  \/ (exists post n, posts_file w' = post :: posts_file w /\ id post = clock w n
                     /\ (ticks w <= n < ticks w')%nat)
  \/ (exists f i, posts_file w' = alter f i (posts_file w) /\ forall p, id (f p) = id p)
  \/ (exists g, posts_file w' = List.filter g (posts_file w)).

Definition request_effect (w w' : World) : Prop :=
  keeps_environment w w' /\ store_change w w'.

(** A clock that advances between any two reads. *)
Definition increasing (clock : nat -> Z) : Prop :=
  forall i j, (i < j)%nat -> clock i < clock j.

(** The ids of the collection decrease strictly from the front, and each
    is below every reading of the clock still to come. *)
Definition newest_first_strictly (l : list Post) : Prop :=
  StronglySorted (fun a b => id b < id a) l.

Definition ids_are_past (w : World) : Prop :=
  Forall (fun p => forall n, (ticks w <= n)%nat -> id p < clock w n) (posts_file w).

(** The world after a series of requests. *)
Definition serve (reqs : list Request) (w : World) : World :=
  fold_left (fun w req => (app req w).2) reqs w.

(** The state of the scan of [path.extname] before any character. *)
Definition scan_start : Path.scan :=
  {| Path.startDot := -1; Path.startPart := 0; Path.end_ := -1;
     Path.matchedSlash := true; Path.preDotState := 0; Path.stopped := false |}.

(** The state after the scan of the characters [l], the first of which
    has the index [k]. *)
Definition scan_of (k : nat) (l : list ascii) : Path.scan :=
  fold_left Path.scan_step (rev (combine (map Z.of_nat (seq k (length l))) l)) scan_start.

(** What the scan knows after the characters [l] from index [k] on: they
    are slashes only, or they end with a part [body] without a slash and
    the slashes after it; the dot the scan holds is the last dot of that
    part, and [preDotState] tells what stands before that dot. *)
Definition scanned (k : nat) (l : list ascii) (st : Path.scan) : Prop :=
  (Forall (eq "/"%char) l /\ st = scan_start)
  \/ exists pre body slashes,
       l = pre ++ body ++ slashes /\ body <> [] /\ ~ In "/"%char body
       /\ Forall (eq "/"%char) slashes
       /\ Path.end_ st = Z.of_nat (k + length pre + length body)
       /\ (Path.stopped st = false ->
           pre = [] /\ Path.matchedSlash st = false /\ Path.startPart st = 0)
       /\ (Path.stopped st = true ->
           In "/"%char pre /\ Path.startPart st = Z.of_nat (k + length pre))
       /\ ((Path.startDot st = -1 /\ ~ In "."%char body /\ Path.preDotState st = 0)
           \/ exists b1 b2,
                body = b1 ++ "."%char :: b2 /\ ~ In "."%char b2
                /\ Path.startDot st = Z.of_nat (k + length pre + length b1)
                /\ Path.preDotState st
                   = match b1 with
                     | [] => 0
                     | c :: _ => if Ascii.eqb c "." then 1 else -1
                     end).

(** A file over the limit of the upload. *)
Definition big_file : FilePart :=
  {| fieldname := "file"; originalname := "big.bin";
     bytes := Chars.text (repeat "x"%char (Z.to_nat (UPLOAD_LIMIT + 1))) |}.

(** The fuel the parser needs for a value. *)
Definition list_cost {A} (cost : A -> nat) : list A -> nat :=
  fix go l :=
    match l with
    | [] => O
    | x :: r => S (cost x + go r)
    end.

Fixpoint cost (v : json) : nat :=
  match v with
  | JArr xs => S (list_cost cost xs)
  | JObj fs => S (list_cost (fun '(_, x) => cost x) fs)
  | _ => 1%nat
  end.

Definition blank (l : list ascii) : Prop := Forall (fun c => JsonText.is_ws c = true) l.

(** A text that starts a value: its first character is no white space and
    closes no array and no object. *)
Definition opens (l : list ascii) : Prop :=
  exists c r, l = c :: r /\ JsonText.is_ws c = false
              /\ Chars.code c <> 93 /\ Chars.code c <> 125.

(** The parser reads the serialization of [v] back, whatever the
    indentation and whatever follows. *)
Definition reads_back (gap : list ascii) (v : json) : Prop :=
  forall indent fuel rest,
    blank indent -> (cost v <= fuel)%nat -> ends_number rest ->
    JsonText.value fuel (serialize gap indent v ++ rest) = Some (v, rest).

(** The segments of a token, joined with dots. *)
Fixpoint dotted (ps : list (list ascii)) : list ascii :=
  match ps with
  | [] => []
  | [p] => p
  | p :: r => p ++ "."%char :: dotted r
  end.

(** A text written with apostrophes in the place of its double quotes. *)
Definition double_quoted (s : string) : string :=
  Chars.text (map (fun c => if Ascii.eqb c "'" then JsonText.dquote else c)
                (Chars.chars s)).

(** * Properties *)


(** ** The model on known values *)

Example sha256_abc :
  hex_text (Sha2.hash Sha2.sha256 (ascii_bytes "abc"))
  = "ba7816bf8f01cfea414140de5dae2223b00361a396177a9cb410ff61f20015ad".
Proof. vm_compute. reflexivity. Qed.

Example sha512_abc :
  hex_text (Sha2.hash Sha2.sha512 (ascii_bytes "abc"))
  = "ddaf35a193617abacc417349ae20413112e6fa4e89a97ea20a9eeee64b55d39a"
    +:+ "2192992a274fc1a836ba3c23a3feebbd454d4423643ce80e2a9ac94fa54ca49f".
Proof. vm_compute. reflexivity. Qed.

Example hmac_sha256_hello :
  hex_text (Sha2.hmac Sha2.sha256 (ascii_bytes JWT_SECRET) (ascii_bytes "hello"))
  = "3b653af97b7892a004422275549aa002b5b7a74f6fe92e041144118459c34d26".
Proof. vm_compute. reflexivity. Qed.

(** The token of a login at 2023-11-14T22:13:20Z. *)
Example admin_token_text :
  admin_token
  = "eyJhbGciOiJIUzI1NiIsInR5cCI6IkpXVCJ9"
    +:+ ".eyJyb2xlIjoiYWRtaW4iLCJpYXQiOjE3MDAwMDAwMDAsImV4cCI6MTcwMDA4NjQwMH0"
    +:+ ".Sg1ZjLuzuRTNcGPMHwGf7itrR2Rhmgom2p6pncljX08".
Proof. vm_compute. reflexivity. Qed.

Example admin_token_verifies :
  Jwt.verify (clock0 1) admin_token JWT_SECRET = true
  /\ Jwt.verify (clock0 0 + 86400000) admin_token JWT_SECRET = false
  /\ Jwt.verify (clock0 1) admin_token "another-secret" = false.
Proof. vm_compute. by repeat split. Qed.

Example toISOString_values :
  map JsDate.toISOString [0; 1700000000000; 1709210096789; -1]
  = ["1970-01-01T00:00:00.000Z"; "2023-11-14T22:13:20.000Z";
     "2024-02-29T12:34:56.789Z"; "1969-12-31T23:59:59.999Z"].
Proof. vm_compute. reflexivity. Qed.

(** [1700000000000 == s] for some strings [s]: white space, exponents and
    hexadecimal literals are numbers, and a fraction below half a unit in
    the last place of the number is rounded away. *)
Example loose_eq_values :
  map (JsNumber.loose_eq 1700000000000)
    ["1700000000000"; " 1700000000000 "; "1.7e12"; "0x18BCFE56800";
     "1700000000000.0001"; "1700000000000.5"; "1700000000001"; "17abc"]
  = [true; true; true; true; true; false; false; false].
Proof. vm_compute. reflexivity. Qed.

Example loose_eq_zero :
  map (JsNumber.loose_eq 0) [EmptyString; " "; "-0"; "0x0"; "."; "Infinity"]
  = [true; true; true; true; false; false].
Proof. vm_compute. reflexivity. Qed.

Example extname_values :
  map Path.extname ["photo.png"; "a.tar.gz"; ".bashrc"; "README"; "a."; ".."; "dir.d/file"]
  = [".png"; ".gz"; EmptyString; EmptyString; "."; EmptyString; EmptyString].
Proof. vm_compute. reflexivity. Qed.

Example unit_toString16_values :
  map unit_toString16 [0; 2 ^ 52; 2 ^ 49; 1; 2 ^ 53 - 1]
  = ["0"; "0.8"; "0.1"; "0.00000000000008"; "0.fffffffffffff8"].
Proof. vm_compute. reflexivity. Qed.

Example json_text_round_trip :
  let v := JObj [("a", JArr [JNum 1; JNum (-20); JNull; JBool true]);
                 ("b c", JStr "x/y"); ("d", JObj [])] in
  JsonText.JSON_stringify v = "{" +:+ Chars.text [JsonText.dquote] +:+ "a"
    +:+ Chars.text [JsonText.dquote] +:+ ":[1,-20,null,true],"
    +:+ Chars.text [JsonText.dquote] +:+ "b c" +:+ Chars.text [JsonText.dquote]
    +:+ ":" +:+ Chars.text [JsonText.dquote] +:+ "x/y" +:+ Chars.text [JsonText.dquote]
    +:+ "," +:+ Chars.text [JsonText.dquote] +:+ "d" +:+ Chars.text [JsonText.dquote]
    +:+ ":{}}"
  /\ JsonText.JSON_parse (JsonText.JSON_stringify v) = Some v.
Proof. vm_compute. by split. Qed.

(** The scenario of the specification: a login, a create with the token of
    the login, and a list. *)
Example login_create_list :
  let '(r1, w1) := app login_request world0 in
  let create := authorized POST ["api"; "posts"] (BodyObject [("title", JStr "Hello")]) None in
  let '(r2, w2) := app create w1 in
  let list := {| method := GET; path := ["api"; "posts"]; authorization := None;
                 body := BodyObject []; file_part := None |} in
  let '(r3, w3) := app list w2 in
  r1 = res_json 200 (JObj [("token", JStr admin_token)])
  /\ r2 = res_json 200 (JObj [("id", JNum 1700000002000); ("title", JStr "Hello");
                              ("createdAt", JStr "2023-11-14T22:13:23.000Z")])
  /\ r3 = res_json 200 (JArr [JObj [("id", JNum 1700000002000); ("title", JStr "Hello");
                                    ("createdAt", JStr "2023-11-14T22:13:23.000Z")]]).
Proof. vm_compute. by repeat split. Qed.

(** ** Characters and strings *)

Lemma code_range c : 0 <= Chars.code c < 256.
Proof.
  unfold Chars.code. pose proof (N_ascii_bounded c). lia.
Qed.

Lemma of_code_code c : Chars.of_code (Chars.code c) = c.
Proof.
  unfold Chars.of_code, Chars.code. rewrite N2Z.id. apply ascii_N_embedding.
Qed.

Lemma code_of_code n : 0 <= n < 256 -> Chars.code (Chars.of_code n) = n.
Proof.
  intros Hn. unfold Chars.of_code, Chars.code.
  rewrite N_ascii_embedding by lia. lia.
Qed.

Lemma chars_text l : Chars.chars (Chars.text l) = l.
Proof. apply list_ascii_of_string_of_list_ascii. Qed.

Lemma text_chars s : Chars.text (Chars.chars s) = s.
Proof. apply string_of_list_ascii_of_string. Qed.

Lemma chars_app a b : Chars.chars (a +:+ b) = Chars.chars a ++ Chars.chars b.
Proof.
  unfold Chars.chars. induction a as [|c a IH]; [done|].
  change (list_ascii_of_string (String c a +:+ b))
    with (c :: list_ascii_of_string (a +:+ b)).
  by rewrite IH.
Qed.

Lemma chars_inj a b : Chars.chars a = Chars.chars b -> a = b.
Proof. intros H. by rewrite <- (text_chars a), <- (text_chars b), H. Qed.

Lemma length_chars s : length (Chars.chars s) = String.length s.
Proof.
  unfold Chars.chars. induction s as [|c s IH]; [done|].
  cbn [list_ascii_of_string length String.length]. by rewrite IH.
Qed.

(** ** Base64url: decoding inverts encoding *)

Lemma base64_alphabet_table :
  forallb (fun i => match Base64url.dec_char (Base64url.enc_char i) with
                    | Some j => i =? j
                    | None => false
                    end) (map Z.of_nat (seq 0 64)) = true.
Proof. vm_compute. reflexivity. Qed.

Lemma dec_enc_char i :
  0 <= i < 64 -> Base64url.dec_char (Base64url.enc_char i) = Some i.
Proof.
  intros Hi. pose proof base64_alphabet_table as T.
  rewrite forallb_forall in T. specialize (T i).
  destruct (Base64url.dec_char (Base64url.enc_char i)) as [j|].
  - assert ((i =? j) = true) as E; [|by apply Z.eqb_eq in E; subst].
    apply T. apply in_map_iff. exists (Z.to_nat i). split; [lia|].
    apply in_seq. lia.
  - assert (false = true); [|done].
    apply T. apply in_map_iff. exists (Z.to_nat i). split; [lia|].
    apply in_seq. lia.
Qed.

(** Induction on a list of bytes three at a time. *)
Lemma list_ind3 {A} (P : list A -> Prop) :
  P [] -> (forall a, P [a]) -> (forall a b, P [a; b]) ->
  (forall a b c r, P r -> P (a :: b :: c :: r)) ->
  forall l, P l.
Proof.
  intros H0 H1 H2 H3.
  assert (forall l, P l /\ (forall a, P (a :: l)) /\ (forall a b, P (a :: b :: l)))
    as H; [|intros l; apply H].
  induction l as [|x l (IH0 & IH1 & IH2)]; [by repeat split|].
  repeat split; [apply IH1 | intros; apply IH2 | intros; by apply H3].
Qed.

Lemma encode_bytes_sextets l :
  Forall is_byte l -> Forall is_sextet (Base64url.encode_bytes l).
Proof.
  unfold is_byte, is_sextet.
  induction l using list_ind3; intros HF; cbn [Base64url.encode_bytes];
    repeat match goal with
           | H : Forall _ (_ :: _) |- _ => inversion H; clear H; subst
           end;
    repeat (apply Forall_cons; split); auto;
    try apply Forall_nil; try (Z.div_mod_to_equations; lia).
Qed.

Lemma decode_encode_bytes l :
  Forall is_byte l -> Base64url.decode_sextets (Base64url.encode_bytes l) = l.
Proof.
  unfold is_byte.
  induction l using list_ind3; intros HF;
    cbn [Base64url.encode_bytes Base64url.decode_sextets];
    repeat match goal with
           | H : Forall _ (_ :: _) |- _ => inversion H; clear H; subst
           end;
    [done | | | rewrite IHl by done];
    repeat f_equal; Z.div_mod_to_equations; lia.
Qed.

Lemma encode_bytes_nonempty l : l <> [] -> Base64url.encode_bytes l <> [].
Proof. by destruct l as [|a [|b [|c r]]]. Qed.

Lemma mapM_dec_enc ss :
  Forall is_sextet ss ->
  mapM Base64url.dec_char (map Base64url.enc_char ss) = Some ss.
Proof.
  induction 1 as [|i ss Hi _ IH]; cbn; [done|].
  rewrite dec_enc_char by exact Hi. cbn. by rewrite IH.
Qed.

Lemma bytes_of_chars l : Forall is_byte (map Chars.code l).
Proof. apply Forall_forall. intros b [c [-> _]]%list_elem_of_fmap. apply code_range. Qed.

Theorem base64url_decode_encode s :
  Base64url.decode (Base64url.encode s) = Some s.
Proof.
  unfold Base64url.decode, Base64url.encode. rewrite chars_text.
  rewrite mapM_dec_enc by apply encode_bytes_sextets, bytes_of_chars. cbn.
  rewrite decode_encode_bytes by apply bytes_of_chars.
  rewrite map_map. erewrite map_ext; [|intros c; apply of_code_code].
  by rewrite map_id, text_chars.
Qed.

Lemma base64url_encode_alphabet s :
  forallb Base64url.in_alphabet (Chars.chars (Base64url.encode s)) = true.
Proof.
  unfold Base64url.encode. rewrite chars_text. apply forallb_forall.
  intros c [i [<- Hi]]%in_map_iff. unfold Base64url.in_alphabet.
  rewrite dec_enc_char; [done|].
  pose proof (encode_bytes_sextets _ (bytes_of_chars (Chars.chars s))) as HF.
  rewrite Forall_forall in HF. by apply HF, list_elem_of_In.
Qed.

Lemma base64url_encode_nonempty s :
  s <> EmptyString -> Chars.chars (Base64url.encode s) <> [].
Proof.
  intros Hs. unfold Base64url.encode. rewrite chars_text.
  destruct s as [|c s]; [done|]. cbn [Chars.chars list_ascii_of_string map].
  intros E. apply map_eq_nil in E. revert E. by apply encode_bytes_nonempty.
Qed.


(** ** An id is equal, loosely, to its own decimal text *)

Lemma digit_cases c :
  Chars.is_digit c = true ->
  heads_differ c JsNumber.white_space = true
  /\ heads_differ c (map (@rev ascii) JsNumber.white_space) = true
  /\ Ascii.eqb c "+" = false /\ Ascii.eqb c "-" = false
  /\ Ascii.eqb c "I" = false
  /\ Ascii.eqb c "x" = false /\ Ascii.eqb c "X" = false
  /\ Ascii.eqb c "o" = false /\ Ascii.eqb c "O" = false
  /\ Ascii.eqb c "b" = false /\ Ascii.eqb c "B" = false
  /\ Ascii.eqb c "." = false.
Proof.
  destruct c as [[] [] [] [] [] [] [] []]; vm_compute; intros H;
    first [discriminate H | by repeat split].
Qed.

Lemma strip_any_head ps c r :
  heads_differ c ps = true -> JsNumber.strip_any ps (c :: r) = None.
Proof.
  induction ps as [|p ps IH]; cbn; [done|].
  intros [Hp Hps]%andb_prop. destruct p as [|a p]; [done|]. cbn.
  apply negb_true_iff in Hp. rewrite Hp. by apply IH.
Qed.

Lemma trim_start_digit ps fuel c r :
  heads_differ c ps = true -> JsNumber.trim_start ps fuel (c :: r) = c :: r.
Proof.
  intros Hc. destruct fuel; cbn; [done|]. by rewrite strip_any_head.
Qed.

(** A numeral has no white space to trim. *)
Lemma trim_digits l :
  l <> [] -> forallb Chars.is_digit l = true -> JsNumber.trim l = l.
Proof.
  intros Hne Hd. unfold JsNumber.trim.
  destruct l as [|c r]; [done|].
  pose proof Hd as Hd'. cbn in Hd'. apply andb_prop in Hd' as [Hc _].
  rewrite trim_start_digit by (by apply digit_cases).
  assert (forallb Chars.is_digit (rev (c :: r)) = true) as Hrev.
  { rewrite forallb_forall in *. intros x Hx. apply Hd. by apply in_rev. }
  destruct (rev (c :: r)) as [|c' r'] eqn:E.
  - apply (f_equal (@length ascii)) in E. rewrite length_rev in E. done.
  - cbn in Hrev. apply andb_prop in Hrev as [Hc' _].
    rewrite trim_start_digit by (by apply digit_cases).
    by rewrite <- E, rev_involutive.
Qed.

Lemma span_all_digits l :
  forallb Chars.is_digit l = true -> Chars.span Chars.is_digit l = (l, []).
Proof.
  induction l as [|c l IH]; cbn; [done|].
  intros [Hc Hl]%andb_prop. by rewrite Hc, IH.
Qed.

Lemma StringToNumber_digits l :
  l <> [] -> forallb Chars.is_digit l = true ->
  JsNumber.StringToNumber (Chars.text l)
  = JsNumber.SFinite false (Chars.numeral 10 Chars.digit_val l) 0.
Proof.
  intros Hne Hd. unfold JsNumber.StringToNumber. rewrite chars_text, trim_digits by done.
  destruct l as [|c r]; [done|].
  pose proof Hd as Hd'. cbn in Hd'. apply andb_prop in Hd' as [Hc Hr].
  destruct (digit_cases c Hc) as (_ & _ & Hplus & Hminus & HI & _ & _ & _ & _ & _ & _ & _).
  assert (JsNumber.non_decimal (c :: r) = None) as ->.
  { unfold JsNumber.non_decimal. destruct r as [|x ds].
    - by destruct c as [[] [] [] [] [] [] [] []].
    - cbn in Hr. apply andb_prop in Hr as [Hx _].
      destruct (digit_cases x Hx) as (_ & _ & _ & _ & _ & -> & -> & -> & -> & -> & -> & _).
      by destruct c as [[] [] [] [] [] [] [] []]. }
  assert (match c :: r with
          | "+"%char :: r0 => (false, r0)
          | "-"%char :: r0 => (true, r0)
          | _ => (false, c :: r)
          end = (false, c :: r)) as ->.
  { clear -Hc. destruct c as [[] [] [] [] [] [] [] []]; first [reflexivity | by vm_compute in Hc]. }
  assert (JsNumber.list_ascii_eqb (c :: r) (Chars.chars "Infinity") = false) as ->.
  { unfold JsNumber.list_ascii_eqb. cbn. by rewrite (Ascii.eqb_sym c), Ascii.eqb_sym, HI. }
  unfold JsNumber.unsigned_decimal. rewrite span_all_digits by done.
  rewrite app_nil_r. reflexivity.
Qed.

Lemma to_binary64_exact n :
  0 <= n < 2 ^ 53 ->
  exists mp, JsNumber.to_binary64 n 1 = Some mp
             /\ JsNumber.binary64_is_int mp n = true.
Proof.
  intros Hn. unfold JsNumber.to_binary64.
  destruct (Z.eqb_spec n 0) as [->|Hnz]; [by eexists|].
  assert (0 < n) as Hpos by lia.
  pose proof (Z.log2_spec n Hpos) as [Hlo Hhi].
  pose proof (Z.log2_nonneg n) as Hlog.
  assert (Z.log2 n < 53) as Hlt by (apply Z.log2_lt_pow2; lia).
  change (Z.log2 1) with 0. rewrite Z.sub_0_r.
  destruct (Z.leb_spec 0 (Z.log2 n)); [|lia].
  rewrite Z.mul_1_l. destruct (Z.leb_spec (2 ^ Z.log2 n) n); [|lia].
  rewrite Z.max_l by lia.
  assert (2 ^ 53 < 2 ^ 1024) as Hbig by (apply Z.pow_lt_mono_r; lia).
  destruct (Z.leb_spec 0 (Z.log2 n - 52)) as [Hp|Hp].
  - assert (Z.log2 n - 52 = 0) as -> by lia.
    assert (JsNumber.round_half_even n (1 * 2 ^ 0) = n) as ->.
    { unfold JsNumber.round_half_even. change (1 * 2 ^ 0) with 1.
      rewrite Z.div_1_r, Z.mod_1_r. reflexivity. }
    change (2 ^ 0) with 1. rewrite Z.mul_1_r.
    destruct (Z.leb_spec (2 ^ 1024) n); [lia|].
    eexists. split; [reflexivity|]. cbn. rewrite Z.mul_1_r. apply Z.eqb_refl.
  - assert (JsNumber.round_half_even (n * 2 ^ (- (Z.log2 n - 52))) 1
            = n * 2 ^ (- (Z.log2 n - 52))) as ->.
    { unfold JsNumber.round_half_even. rewrite Z.div_1_r, Z.mod_1_r. reflexivity. }
    cbn [andb]. eexists. split; [reflexivity|].
    unfold JsNumber.binary64_is_int.
    destruct (Z.leb_spec 0 (Z.log2 n - 52)); [lia|]. apply Z.eqb_refl.
Qed.

Lemma loose_eq_digits l :
  l <> [] -> forallb Chars.is_digit l = true ->
  0 <= Chars.numeral 10 Chars.digit_val l < 2 ^ 53 ->
  JsNumber.loose_eq (Chars.numeral 10 Chars.digit_val l) (Chars.text l) = true.
Proof.
  intros Hne Hd Hn. unfold JsNumber.loose_eq.
  rewrite StringToNumber_digits by done.
  change (0 <=? 0) with true. cbv iota. change (10 ^ 0) with 1. rewrite Z.mul_1_r.
  by destruct (to_binary64_exact _ Hn) as (mp & -> & ->).
Qed.

(** The numbers that are equal, loosely, to a numeral below 2^53: its
    value alone. *)
Lemma loose_eq_digits_iff l m :
  l <> [] -> forallb Chars.is_digit l = true ->
  0 <= Chars.numeral 10 Chars.digit_val l < 2 ^ 53 ->
  JsNumber.loose_eq m (Chars.text l) = true <-> m = Chars.numeral 10 Chars.digit_val l.
Proof.
  intros Hne Hd Hn. unfold JsNumber.loose_eq.
  rewrite StringToNumber_digits by done.
  change (0 <=? 0) with true. cbv iota. change (10 ^ 0) with 1. rewrite Z.mul_1_r.
  destruct (to_binary64_exact _ Hn) as ([mant p] & -> & Hint).
  revert Hint. generalize (Chars.numeral 10 Chars.digit_val l). intros n.
  unfold JsNumber.binary64_is_int. destruct (Z.leb_spec 0 p) as [Hp|Hp].
  - intros ->%Z.eqb_eq. apply Z.eqb_eq.
  - intros <-%Z.eqb_eq. rewrite Z.eqb_eq.
    assert (0 < 2 ^ (- p)) as Hpow by (apply Z.pow_pos_nonneg; lia).
    split; [|by intros ->]. intros H. apply Z.mul_cancel_r in H; [done | lia].
Qed.

(** ** The text of a time *)

Lemma civil_from_days_range days :
  0 <= days < 2932897 ->
  let '(y, m, d) := JsDate.civil_from_days days in
  1970 <= y <= 9999 /\ 1 <= m <= 12 /\ 1 <= d <= 31.
Proof.
  intros Hd. unfold JsDate.civil_from_days. cbv zeta.
  set (z := days + 719468).
  set (era := z / 146097).
  set (doe := z - era * 146097).
  set (yoe := (doe - doe / 1460 + doe / 36524 - doe / 146096) / 365).
  set (doy := doe - (365 * yoe + yoe / 4 - yoe / 100)).
  set (mp := (5 * doy + 2) / 153).
  assert (0 <= doe < 146097) as Hdoe by (subst doe era; Z.div_mod_to_equations; lia).
  assert (0 <= yoe <= 399) as Hyoe by (subst yoe; Z.div_mod_to_equations; lia).
  assert (0 <= doy <= 365) as Hdoy by (subst doy yoe; Z.div_mod_to_equations; lia).
  assert (0 <= mp <= 11) as Hmp by (subst mp; Z.div_mod_to_equations; lia).
  assert (1 <= doy - (153 * mp + 2) / 5 + 1 <= 31) as Hday
    by (subst mp; Z.div_mod_to_equations; lia).
  assert (4 <= era <= 24) as Hera by (subst era z; Z.div_mod_to_equations; lia).
  split; [|split; [destruct (mp <? 10) eqn:E; [apply Z.ltb_lt in E | apply Z.ltb_ge in E]; lia | done]].
  destruct (Z.ltb_spec mp 10) as [Hlt|Hge].
  - assert ((mp + 3 <=? 2) = false) as -> by (apply Z.leb_gt; lia).
    split; [|lia].
    subst mp doy yoe doe era z. Z.div_mod_to_equations. lia.
  - assert ((mp - 9 <=? 2) = true) as -> by (apply Z.leb_le; lia).
    split.
    + subst mp doy yoe doe era z. Z.div_mod_to_equations. lia.
    + subst mp doy yoe doe era z. Z.div_mod_to_equations. lia.
Qed.

Lemma length_pad width n : String.length (JsDate.pad width n) = width.
Proof.
  unfold JsDate.pad. rewrite <- length_chars, chars_text. revert n.
  induction width as [|w IH]; intros n; [done|].
  cbn [JsDate.pad_digits]. rewrite length_app, IH. cbn. lia.
Qed.

Lemma length_append a b : String.length (a +:+ b) = (String.length a + String.length b)%nat.
Proof. by rewrite <- !length_chars, chars_app, length_app. Qed.

(** X17.  The text of a time of the years 1970 to 9999 has 24 characters: the
    four digits of the year, two of the month, 01 to 12, two of the day,
    01 to 31, the hour, the minute, the second and three digits of
    milliseconds, which together give the time within the day. *)
Theorem toISOString_fields t :
  0 <= t < 253402300800000 ->
  exists y mo d H M S ms,
    JsDate.toISOString t
    = JsDate.pad 4 y +:+ "-" +:+ JsDate.pad 2 mo +:+ "-" +:+ JsDate.pad 2 d +:+ "T"
        +:+ JsDate.pad 2 H +:+ ":" +:+ JsDate.pad 2 M +:+ ":" +:+ JsDate.pad 2 S
        +:+ "." +:+ JsDate.pad 3 ms +:+ "Z"
    /\ 1970 <= y <= 9999 /\ 1 <= mo <= 12 /\ 1 <= d <= 31
    /\ 0 <= H <= 23 /\ 0 <= M <= 59 /\ 0 <= S <= 59 /\ 0 <= ms <= 999
    /\ t mod 86400000 = ((H * 60 + M) * 60 + S) * 1000 + ms
    /\ String.length (JsDate.toISOString t) = 24%nat.
Proof.
  intros Ht. unfold JsDate.toISOString.
  assert (0 <= t / 86400000 < 2932897) as Hdays by (Z.div_mod_to_equations; lia).
  pose proof (civil_from_days_range _ Hdays) as Hr.
  destruct (JsDate.civil_from_days (t / 86400000)) as [[y mo] d].
  destruct Hr as (Hy & Hmo & Hd). cbv zeta.
  assert (JsDate.year_text y = JsDate.pad 4 y) as ->.
  { unfold JsDate.year_text.
    destruct (Z.leb_spec 0 y); [|lia]. by destruct (Z.leb_spec y 9999); [|lia]. }
  set (ms := t mod 86400000).
  exists y, mo, d, (ms / 3600000), (ms / 60000 mod 60), (ms / 1000 mod 60), (ms mod 1000).
  assert (0 <= ms < 86400000) as Hms by (subst ms; Z.div_mod_to_equations; lia).
  split; [reflexivity|].
  split_and!; try lia; try (Z.div_mod_to_equations; lia).
  by rewrite !length_append, !length_pad.
Qed.

Lemma toISOString_fields_witness :
  0 <= 1709210096789 < 253402300800000
  /\ exists y mo d H M S ms,
       JsDate.toISOString 1709210096789
       = JsDate.pad 4 y +:+ "-" +:+ JsDate.pad 2 mo +:+ "-" +:+ JsDate.pad 2 d +:+ "T"
           +:+ JsDate.pad 2 H +:+ ":" +:+ JsDate.pad 2 M +:+ ":" +:+ JsDate.pad 2 S
           +:+ "." +:+ JsDate.pad 3 ms +:+ "Z"
       /\ 1970 <= y <= 9999 /\ 1 <= mo <= 12 /\ 1 <= d <= 31
       /\ 0 <= H <= 23 /\ 0 <= M <= 59 /\ 0 <= S <= 59 /\ 0 <= ms <= 999
       /\ 1709210096789 mod 86400000 = ((H * 60 + M) * 60 + S) * 1000 + ms
       /\ String.length (JsDate.toISOString 1709210096789) = 24%nat.
Proof.
  assert (0 <= 1709210096789 < 253402300800000) as H1 by lia.
  exact (conj H1 (toISOString_fields 1709210096789 H1)).
Defined.

#[local] Opaque JsDate.toISOString JsNumber.loose_eq.
(** ** Decimal numerals: reading inverts printing *)

Lemma uint_chars_span d rest :
  ends_number rest ->
  Chars.span Chars.is_digit (uint_chars d ++ rest) = (uint_chars d, rest).
Proof.
  intros Hr. unfold uint_chars.
  induction d; cbn -[Chars.is_digit];
    try (change (Chars.is_digit _) with true; cbv iota;
         unfold Chars.chars in IHd; by rewrite IHd).
  destruct rest as [|c r]; [done|]. cbn -[Chars.is_digit].
  destruct Hr as [-> _]. done.
Qed.

Lemma uint_chars_acc d acc :
  fold_left (fun a c => a * 10 + Chars.digit_val c) (uint_chars d) (Z.pos acc)
  = Z.pos (Pos.of_uint_acc d acc).
Proof.
  unfold uint_chars. revert acc.
  induction d; intros acc; cbn -[Z.mul Z.add Pos.mul Pos.add];
    [done | unfold Chars.chars in IHd; rewrite <- IHd; f_equal;
            vm_compute Chars.digit_val; lia ..].
Qed.

Lemma uint_chars_value d :
  Chars.numeral 10 Chars.digit_val (uint_chars d) = Z.of_N (Pos.of_uint d).
Proof.
  unfold Chars.numeral.
  induction d; cbn -[Z.mul Z.add uint_chars];
    [done | exact IHd
    | change (uint_chars (?D d)) with (Chars.chars (NilEmpty.string_of_uint (D d)));
      cbn -[Z.mul Z.add]; change (list_ascii_of_string (NilEmpty.string_of_uint d))
        with (uint_chars d); rewrite <- uint_chars_acc; f_equal ..].
Qed.

(** A numeral that is not empty and has no leading zero starts with one of
    1..9. *)
Lemma uint_chars_head d :
  d <> Decimal.Nil -> (forall d', d <> Decimal.D0 d') ->
  exists c r, uint_chars d = c :: r
              /\ Chars.is_digit c = true /\ Chars.code c <> 48.
Proof.
  intros Hn H0. unfold uint_chars.
  destruct d; [done | by destruct (H0 d) | ..];
    eexists _, _; (split; [reflexivity|]); by vm_compute.
Qed.

Lemma pos_to_uint_head p :
  Pos.to_uint p <> Decimal.Nil /\ forall d', Pos.to_uint p <> Decimal.D0 d'.
Proof.
  split; [apply DecimalPos.Unsigned.to_uint_nonnil|]. intros d' E.
  pose proof (DecimalPos.Unsigned.to_of (Pos.to_uint p)) as T.
  rewrite DecimalPos.Unsigned.of_to in T. cbn [N.to_uint] in T.
  pose proof (DecimalPos.Unsigned.to_uint_nonzero p) as NZ.
  rewrite E in T, NZ. unfold Decimal.unorm in T.
  destruct (Decimal.nzhead (Decimal.D0 d')) eqn:Hz;
    [by rewrite T in NZ | symmetry in T; rewrite T in Hz;
                          by apply DecimalFacts.nzhead_nonzero in Hz ..].
Qed.

Lemma ends_number_not_continued rest :
  ends_number rest ->
  match rest with
  | c :: _ => (Chars.code c =? 46) || (Chars.code c =? 101) || (Chars.code c =? 69)
  | [] => false
  end = false.
Proof.
  destruct rest as [|x rest]; [done|]. intros (_ & H1 & H2 & H3).
  by rewrite (proj2 (Z.eqb_neq _ _) H1), (proj2 (Z.eqb_neq _ _) H2),
    (proj2 (Z.eqb_neq _ _) H3).
Qed.

Lemma digits_part_unsigned d rest :
  d <> Decimal.Nil -> (forall d', d <> Decimal.D0 d') -> ends_number rest ->
  JsonText.digits_part (uint_chars d ++ rest) = Some (Z.of_N (Pos.of_uint d), rest).
Proof.
  intros Hn H0 Hr. destruct (uint_chars_head d Hn H0) as (c & r & E & Hc & H48).
  unfold JsonText.digits_part. rewrite uint_chars_span by done.
  rewrite <- uint_chars_value. rewrite E.
  rewrite (proj2 (Z.eqb_neq _ _) H48). cbn [andb orb].
  by rewrite ends_number_not_continued.
Qed.

Lemma digits_part_zero rest :
  ends_number rest -> JsonText.digits_part ("0"%char :: rest) = Some (0, rest).
Proof.
  intros Hr. unfold JsonText.digits_part.
  change ("0"%char :: rest) with (uint_chars (Decimal.D0 Decimal.Nil) ++ rest).
  rewrite uint_chars_span by done. cbn.
  by rewrite ends_number_not_continued.
Qed.

Lemma string_of_some_uint d :
  d <> Decimal.Nil -> NilZero.string_of_uint d = NilEmpty.string_of_uint d.
Proof. by destruct d. Qed.

(** The integer literal that [Number_toString] prints is read back. *)
Lemma number_toString n rest :
  ends_number rest ->
  JsonText.number (Chars.chars (Number_toString n) ++ rest) = Some (n, rest).
Proof.
  intros Hr. unfold Number_toString. destruct n as [|p|p]; cbn [Z.to_int].
  - change (JsonText.digits_part ("0"%char :: rest) = Some (0, rest)).
    by apply digits_part_zero.
  - destruct (pos_to_uint_head p) as [Hn H0].
    destruct (uint_chars_head _ Hn H0) as (c & r & E & Hc & H48).
    cbn [NilZero.string_of_int]. rewrite string_of_some_uint by done.
    change (Chars.chars (NilEmpty.string_of_uint ?d)) with (uint_chars d).
    pose proof (digits_part_unsigned _ rest Hn H0 Hr) as U.
    rewrite DecimalPos.Unsigned.of_to in U.
    rewrite E in *. cbn [List.app] in *. unfold JsonText.number.
    assert ((Chars.code c =? 45) = false) as ->; [|exact U].
    unfold Chars.is_digit in Hc. apply Z.eqb_neq. lia.
  - destruct (pos_to_uint_head p) as [Hn H0].
    cbn [NilZero.string_of_int]. rewrite string_of_some_uint by done.
    change (Chars.chars (String "-" ?s) ++ rest) with ("-"%char :: (Chars.chars s ++ rest)).
    change (Chars.chars (NilEmpty.string_of_uint ?d)) with (uint_chars d).
    unfold JsonText.number. change (Chars.code "-" =? 45) with true. cbv iota.
    rewrite digits_part_unsigned by done.
    by rewrite DecimalPos.Unsigned.of_to.
Qed.

Lemma number_toString_digits n :
  0 <= n ->
  exists l, Number_toString n = Chars.text l /\ l <> []
            /\ forallb Chars.is_digit l = true
            /\ Chars.numeral 10 Chars.digit_val l = n.
Proof.
  intros Hn. unfold Number_toString. destruct n as [|p|p]; [| |lia].
  - exists ["0"%char]. by repeat split.
  - cbn [Z.to_int NilZero.string_of_int].
    destruct (pos_to_uint_head p) as [Hnil H0].
    rewrite string_of_some_uint by done.
    exists (uint_chars (Pos.to_uint p)). unfold uint_chars at 1. rewrite text_chars.
    split; [done|]. split.
    { destruct (uint_chars_head _ Hnil H0) as (c & r & -> & _). done. }
    split.
    + pose proof (uint_chars_span (Pos.to_uint p) [] I) as Hs.
      rewrite app_nil_r in Hs. clear -Hs.
      revert Hs. generalize (uint_chars (Pos.to_uint p)). intros l.
      induction l as [|c l IH]; cbn; [done|].
      destruct (Chars.is_digit c); [|done].
      destruct (Chars.span Chars.is_digit l) as [a b]. intros [= -> ->].
      by rewrite IH.
    + by rewrite uint_chars_value, DecimalPos.Unsigned.of_to.
Qed.

(** The decimal text of an id that a create gave is equal, loosely, to the
    id: the post is found under the id that the answer of the create
    shows. *)
Theorem loose_eq_own_text n :
  0 <= n < 2 ^ 53 -> JsNumber.loose_eq n (Number_toString n) = true.
Proof.
  intros Hn. destruct (number_toString_digits n) as (l & -> & Hne & Hd & Hv); [lia|].
  rewrite <- Hv at 1. apply loose_eq_digits; [done..|]. by rewrite Hv.
Qed.

(** A post is the one [GET], [PUT] and [DELETE /api/posts/:id] select under
    the decimal text of its id. *)
Corollary post_matches_own_id p :
  0 <= id p < 2 ^ 53 -> matches (Number_toString (id p)) p.
Proof. intros H. unfold matches, id_matches. by apply loose_eq_own_text. Qed.

(** Under the decimal text of a number below 2^53, [==] is equality. *)
Lemma loose_eq_decimal m n :
  0 <= n < 2 ^ 53 -> JsNumber.loose_eq m (Number_toString n) = true <-> m = n.
Proof.
  intros Hn. destruct (number_toString_digits n) as (l & -> & Hne & Hd & Hv); [lia|].
  rewrite <- Hv. apply loose_eq_digits_iff; [done..|]. by rewrite Hv.
Qed.

(** The first character of a printed integer is a digit or a minus sign. *)
Lemma number_toString_head n :
  exists c r, Chars.chars (Number_toString n) = c :: r
              /\ (Chars.is_digit c = true \/ Chars.code c = 45).
Proof.
  unfold Number_toString. destruct n as [|p|p]; cbn [Z.to_int].
  - eexists _, _. split; [reflexivity | by left].
  - destruct (pos_to_uint_head p) as [Hn H0].
    destruct (uint_chars_head _ Hn H0) as (c & r & E & Hc & _).
    exists c, r. split; [|by left]. rewrite <- E. cbn.
    unfold NilZero.string_of_uint, uint_chars. by destruct (Pos.to_uint p).
  - eexists _, _. split; [reflexivity | by right].
Qed.

Lemma value_number fuel n rest :
  (1 <= fuel)%nat -> ends_number rest ->
  JsonText.value fuel (Chars.chars (Number_toString n) ++ rest) = Some (JNum n, rest).
Proof.
  intros Hf Hr. destruct fuel as [|f]; [lia|].
  pose proof (number_toString n rest Hr) as N.
  destruct (number_toString_head n) as (c & r & E & Hc).
  rewrite E in *. cbn [List.app] in *. cbn [JsonText.value].
  assert (JsonText.is_ws c = false /\ (Chars.code c =? 34) = false
          /\ (Chars.code c =? 91) = false /\ (Chars.code c =? 123) = false
          /\ (Chars.code c =? 110) = false /\ (Chars.code c =? 116) = false
          /\ (Chars.code c =? 102) = false) as (W & T1 & T2 & T3 & T4 & T5 & T6).
  { unfold JsonText.is_ws, Chars.is_digit in *.
    repeat split; repeat (apply orb_false_intro); apply Z.eqb_neq; lia. }
  cbn [JsonText.skip_ws]. rewrite W. cbv zeta. rewrite T1, T2, T3, T4, T5, T6.
  rewrite N. reflexivity.
Qed.

(** ** The payload of a token is read back *)

Lemma stringify_admin_payload a b :
  JsonText.stringify_chars (admin_payload a b) = payload_chars a b [].
Proof.
  unfold payload_chars, num_chars.
  change (JsonText.stringify_chars (admin_payload a b))
    with ((payload_open ++ Chars.chars (Number_toString a) ++ payload_mid
             ++ Chars.chars (Number_toString b)) ++ ["}"%char]).
  by rewrite <- !app_assoc.
Qed.

(** The steps of the parser on an object, a string and a member. *)
Lemma value_object f l c r c1 r1 fs r2 :
  JsonText.skip_ws l = c :: r -> Chars.code c = 123 ->
  JsonText.skip_ws r = c1 :: r1 -> (Chars.code c1 =? 125) = false ->
  JsonText.members f r = Some (fs, r2) ->
  JsonText.value (S f) l = Some (JObj fs, r2).
Proof.
  intros H1 H2 H3 H4 H5. cbn [JsonText.value]. rewrite H1. cbv zeta.
  rewrite H2, H3, H4, H5. reflexivity.
Qed.

Lemma value_string f l c r s r1 :
  JsonText.skip_ws l = c :: r -> Chars.code c = 34 ->
  JsonText.string_body r = Some (s, r1) ->
  JsonText.value (S f) l = Some (JStr (Chars.text s), r1).
Proof.
  intros H1 H2 H3. cbn [JsonText.value]. rewrite H1. cbv zeta.
  rewrite H2, H3. reflexivity.
Qed.

Lemma members_more f l q r0 k r1 colon r2 x r3 c r4 fs r5 :
  JsonText.skip_ws l = q :: r0 -> Chars.code q = 34 ->
  JsonText.string_body r0 = Some (k, r1) ->
  JsonText.skip_ws r1 = colon :: r2 -> Chars.code colon = 58 ->
  JsonText.value f r2 = Some (x, r3) ->
  JsonText.skip_ws r3 = c :: r4 -> Chars.code c = 44 ->
  JsonText.members f r4 = Some (fs, r5) ->
  JsonText.members (S f) l = Some ((Chars.text k, x) :: fs, r5).
Proof.
  intros H1 H2 H3 H4 H5 H6 H7 H8 H9. cbn [JsonText.members].
  rewrite H1, H2. cbn -[JsonText.skip_ws].
  rewrite H3. cbn -[JsonText.skip_ws]. rewrite H4, H5. cbn -[JsonText.skip_ws].
  rewrite H6. cbn -[JsonText.skip_ws]. rewrite H7, H8. cbn -[JsonText.skip_ws].
  rewrite H9. reflexivity.
Qed.

Lemma members_last f l q r0 k r1 colon r2 x r3 c r4 :
  JsonText.skip_ws l = q :: r0 -> Chars.code q = 34 ->
  JsonText.string_body r0 = Some (k, r1) ->
  JsonText.skip_ws r1 = colon :: r2 -> Chars.code colon = 58 ->
  JsonText.value f r2 = Some (x, r3) ->
  JsonText.skip_ws r3 = c :: r4 -> Chars.code c = 125 ->
  JsonText.members (S f) l = Some ([(Chars.text k, x)], r4).
Proof.
  intros H1 H2 H3 H4 H5 H6 H7 H8. cbn [JsonText.members].
  rewrite H1, H2. cbn -[JsonText.skip_ws].
  rewrite H3. cbn -[JsonText.skip_ws]. rewrite H4, H5. cbn -[JsonText.skip_ws].
  rewrite H6. cbn -[JsonText.skip_ws]. rewrite H7, H8. reflexivity.
Qed.

Lemma value_admin_payload fuel a b rest :
  (5 <= fuel)%nat ->
  JsonText.value fuel (payload_chars a b rest) = Some (admin_payload a b, rest).
Proof.
  intros Hf.
  destruct fuel as [|[|[|[|f]]]]; [lia..|].
  set (tail_b := "}"%char :: rest).
  set (tail_a := payload_mid ++ num_chars b ++ tail_b).
  change (payload_chars a b rest) with (payload_open ++ num_chars a ++ tail_a).
  eapply (value_object _ _ _ _ _ _
            [("role", JStr "admin"); ("iat", JNum a); ("exp", JNum b)]);
    [reflexivity | reflexivity | reflexivity | reflexivity |].
  eapply (members_more _ _ _ _ (Chars.chars "role") _ _ _ (JStr "admin") _ _ _
            [("iat", JNum a); ("exp", JNum b)]);
    [reflexivity | reflexivity | reflexivity | reflexivity | reflexivity
    | eapply (value_string _ _ _ _ (Chars.chars "admin")); reflexivity
    | reflexivity | reflexivity |].
  eapply (members_more _ _ _ _ (Chars.chars "iat") _ _ (num_chars a ++ tail_a)
            (JNum a) tail_a _ _ [("exp", JNum b)]);
    [reflexivity | reflexivity | reflexivity | reflexivity | reflexivity
    | apply value_number; [lia | by vm_compute]
    | reflexivity | reflexivity |].
  eapply (members_last _ _ _ _ (Chars.chars "exp") _ _ (num_chars b ++ tail_b)
            (JNum b) tail_b);
    [reflexivity | reflexivity | reflexivity | reflexivity | reflexivity
    | apply value_number; [lia | by vm_compute]
    | reflexivity | reflexivity].
Qed.

Lemma length_text l : String.length (Chars.text l) = length l.
Proof. by rewrite <- length_chars, chars_text. Qed.

Lemma parse_admin_payload a b :
  JsonText.JSON_parse (JsonText.JSON_stringify (admin_payload a b))
  = Some (admin_payload a b).
Proof.
  unfold JsonText.JSON_parse, JsonText.JSON_stringify.
  rewrite chars_text, length_text, stringify_admin_payload.
  rewrite value_admin_payload; [done|].
  unfold payload_chars. rewrite length_app. cbn [payload_open length]. lia.
Qed.

Lemma parse_header :
  JsonText.JSON_parse (JsonText.JSON_stringify Jwt.header_HS256)
  = Some Jwt.header_HS256.
Proof. vm_compute. reflexivity. Qed.

(** ** The three segments of a token *)

Lemma split_dots_no_dot l : no_dot l -> Jwt.split_dots l = [l].
Proof.
  induction 1 as [|c l Hc _ IH]; cbn; [done|].
  rewrite IH. by destruct (Ascii.eqb_spec c ".").
Qed.

Lemma split_dots_app l r :
  no_dot l -> Jwt.split_dots (l ++ "."%char :: r) = l :: Jwt.split_dots r.
Proof.
  induction 1 as [|c l Hc _ IH]; cbn; [done|].
  rewrite IH. by destruct (Ascii.eqb_spec c ".").
Qed.

Lemma segment_no_dot l : Jwt.segment l = true -> no_dot l.
Proof.
  unfold Jwt.segment. rewrite forallb_forall. intros H. apply Forall_forall.
  intros c Hc%list_elem_of_In%H ->. by vm_compute in Hc.
Qed.


(** ** The digest has the length of its algorithm *)

Section HashLength.
Variable P : Sha2.params.

Lemma length_round st kw : length (Sha2.round P st kw) = length st.
Proof.
  unfold Sha2.round.
  by destruct st as [|a [|b [|c [|d [|e [|f [|g [|h [|i st]]]]]]]]].
Qed.

Lemma length_rounds kws st : length (fold_left (Sha2.round P) kws st) = length st.
Proof.
  revert st. induction kws as [|kw kws IH]; intros st; cbn; [done|].
  by rewrite IH, length_round.
Qed.

Lemma length_compress h block : length (Sha2.compress P h block) = length h.
Proof.
  unfold Sha2.compress. rewrite length_map, length_combine, length_rounds. lia.
Qed.

Lemma length_compress_all blocks h :
  length (fold_left (Sha2.compress P) blocks h) = length h.
Proof.
  revert h. induction blocks as [|b blocks IH]; intros h; cbn; [done|].
  by rewrite IH, length_compress.
Qed.

Lemma length_be_bytes n x : length (Sha2.be_bytes n x) = n.
Proof.
  revert x. induction n as [|n IH]; intros x; cbn; [done|].
  rewrite length_app, IH. cbn. lia.
Qed.

Lemma length_concat_be n (l : list Z) :
  length (concat (map (Sha2.be_bytes n) l)) = (n * length l)%nat.
Proof.
  induction l as [|x l IH]; cbn; [lia|].
  rewrite length_app, length_be_bytes, IH. lia.
Qed.

Lemma length_hash msg :
  length (Sha2.hash P msg)
  = Nat.min (Sha2.digest_len P) (Sha2.word_bytes P * length (Sha2.H0 P)).
Proof.
  unfold Sha2.hash. by rewrite length_firstn, length_concat_be, length_compress_all.
Qed.
End HashLength.

Lemma signature_HS256_nonempty key input :
  Chars.chars (Jwt.signature Jwt.HS256 key input) <> [].
Proof.
  unfold Jwt.signature. apply base64url_encode_nonempty.
  unfold Jwt.mac. intros E. apply (f_equal String.length) in E.
  rewrite length_text, length_map in E. unfold Sha2.hmac in E.
  rewrite length_hash in E. by vm_compute in E.
Qed.

Lemma nonempty_true l : l <> [] -> Jwt.nonempty l = true.
Proof. by destruct l. Qed.

(** ** A token that [sign] issues verifies until it expires *)

Lemma chars_token h p sg :
  Chars.chars ((h +:+ "." +:+ p) +:+ "." +:+ sg)
  = Chars.chars h ++ "."%char :: Chars.chars p ++ "."%char :: Chars.chars sg.
Proof. rewrite !chars_app. cbn. by rewrite <- app_assoc. Qed.

Lemma compact_verifies header payload key clock0 :
  JsonText.JSON_parse (JsonText.JSON_stringify header) = Some header ->
  truthy (Some header) = true ->
  get_prop header "typ" = Some (JStr "JWT") ->
  get_prop header "alg" = Some (JStr "HS256") ->
  JsonText.JSON_stringify header <> EmptyString ->
  JsonText.JSON_stringify payload <> EmptyString ->
  (forall s, payload <> JStr s) ->
  JsonText.JSON_parse (JsonText.JSON_stringify payload) = Some payload ->
  Jwt.verify clock0 (Jwt.compact header payload key) key
  = Jwt.claims_ok (clock0 / 1000) (Jwt.PJson payload).
Proof.
  intros Hh Ht Htyp Halg Hne1 Hne2 Hstr Hp. unfold Jwt.verify, Jwt.compact.
  set (h := Base64url.encode (JsonText.JSON_stringify header)).
  set (p := Base64url.encode (JsonText.JSON_stringify payload)).
  set (sg := Jwt.signature Jwt.HS256 key (h +:+ "." +:+ p)).
  rewrite chars_token.
  assert (Jwt.segment (Chars.chars h) = true) as Sh by apply base64url_encode_alphabet.
  assert (Jwt.segment (Chars.chars p) = true) as Sp by apply base64url_encode_alphabet.
  assert (Jwt.segment (Chars.chars sg) = true) as Ss by apply base64url_encode_alphabet.
  rewrite split_dots_app by by apply segment_no_dot.
  rewrite split_dots_app by by apply segment_no_dot.
  rewrite split_dots_no_dot by by apply segment_no_dot.
  rewrite Sh, Sp, Ss.
  rewrite (nonempty_true (Chars.chars h)) by by apply base64url_encode_nonempty.
  rewrite (nonempty_true (Chars.chars p)) by by apply base64url_encode_nonempty.
  rewrite (nonempty_true (Chars.chars sg)) by apply signature_HS256_nonempty.
  cbn [andb]. rewrite !text_chars. subst h p.
  rewrite !base64url_decode_encode, Hh, Ht.
  unfold Jwt.decode_payload. rewrite Htyp. cbn [strict_eq_string].
  rewrite String.eqb_refl, Hp.
  assert (match payload with
          | JStr s => Some (Jwt.reparse s)
          | _ => Some (Jwt.PJson payload)
          end = Some (Jwt.PJson payload)) as ->.
  { destruct payload; try done. by destruct (Hstr s). }
  rewrite Halg. cbn [Jwt.alg_of_name]. rewrite String.eqb_refl.
  fold sg. by rewrite String.eqb_refl.
Qed.

Lemma stringify_nonempty v : JsonText.JSON_stringify v <> EmptyString.
Proof.
  unfold JsonText.JSON_stringify. intros E. apply (f_equal Chars.chars) in E.
  rewrite chars_text in E. destruct v as [|[]| n | s | xs | fs]; try done.
  cbn [JsonText.stringify_chars] in E.
  destruct (number_toString_head n) as (c & r & Hn & _). by rewrite Hn in E.
Qed.

(** [verify] accepts the token of [sign] exactly until the expiry. *)
Theorem verify_sign_admin now later key expiresIn :
  Jwt.verify later (Jwt.sign now [("role", JStr "admin")] key expiresIn) key
  = (later / 1000 <? now / 1000 + expiresIn).
Proof.
  unfold Jwt.sign.
  change ([("role", JStr "admin")] ++ [("iat", JNum (now / 1000));
                                       ("exp", JNum (now / 1000 + expiresIn))])
    with [("role", JStr "admin"); ("iat", JNum (now / 1000));
          ("exp", JNum (now / 1000 + expiresIn))].
  change (JObj _) with (admin_payload (now / 1000) (now / 1000 + expiresIn)).
  rewrite compact_verifies;
    [reflexivity | apply parse_header | reflexivity | reflexivity | reflexivity
    | apply stringify_nonempty | apply stringify_nonempty | done
    | apply parse_admin_payload].
Qed.


Lemma verify_empty now key : Jwt.verify now EmptyString key = false.
Proof. reflexivity. Qed.

(** ** [replace]: the first occurrence, and only it *)

Lemma strip_prefix_Some pat s r :
  string_strip_prefix pat s = Some r <-> s = pat +:+ r.
Proof.
  revert s. induction pat as [|a pat IH]; intros s; cbn.
  - split; [by intros [= ->] | by intros ->].
  - destruct s as [|b s]; [by split|].
    destruct (Ascii.eqb_spec a b) as [->|Hab].
    + rewrite IH. split; [by intros -> | by intros [= ->]].
    + split; [done | intros [= -> _]; done].
Qed.


Lemma replace_prefix pat rep s : replace pat rep (pat +:+ s) = rep +:+ s.
Proof.
  assert (string_strip_prefix pat (pat +:+ s) = Some s) as E
    by by apply strip_prefix_Some.
  destruct (pat +:+ s); cbn [replace]; by rewrite E.
Qed.


Lemma sign_admin_compact now key :
  Jwt.sign now [("role", JStr "admin")] key 86400
  = Jwt.compact Jwt.header_HS256
      (JObj [("role", JStr "admin"); ("iat", JNum (now / 1000));
             ("exp", JNum (now / 1000 + 24 * 60 * 60))]) key.
Proof. reflexivity. Qed.

Lemma compact_segments header payload key :
  exists sg,
    Jwt.compact header payload key
    = (Base64url.encode (JsonText.JSON_stringify header) +:+ "."
         +:+ Base64url.encode (JsonText.JSON_stringify payload)) +:+ "." +:+ sg.
Proof. by eexists. Qed.

Lemma compact_nonempty header payload key :
  Jwt.compact header payload key <> EmptyString.
Proof.
  destruct (compact_segments header payload key) as [sg ->].
  intros E%(f_equal Chars.chars). rewrite chars_token in E.
  by destruct (Chars.chars (Base64url.encode _)) in E.
Qed.
(** ** The signature of an accepted token *)

Lemma split_dots_nonempty l : Jwt.split_dots l <> [].
Proof.
  destruct l as [|c r]; [done|]. cbn.
  destruct (Ascii.eqb c "."); [done|]. by destruct (Jwt.split_dots r).
Qed.

Lemma dotted_split l : dotted (Jwt.split_dots l) = l.
Proof.
  induction l as [|c r IH]; [done|]. cbn [Jwt.split_dots].
  pose proof (split_dots_nonempty r) as Hne.
  destruct (Ascii.eqb_spec c ".") as [->|Hc].
  - destruct (Jwt.split_dots r) as [|p ps]; [done|]. cbn [dotted List.app] in *.
    by rewrite IH.
  - destruct (Jwt.split_dots r) as [|p ps]; [done|]. rewrite <- IH.
    by destruct ps.
Qed.

(** A token that [jwt.verify] accepts is [h.p.s] where [s] is the HMAC of
    [h.p] under the key, with one of the three hash functions. *)
Lemma verify_signed now token key :
  Jwt.verify now token key = true ->
  exists h p a,
    token = (h +:+ "." +:+ p) +:+ "." +:+ Jwt.signature a key (h +:+ "." +:+ p).
Proof.
  unfold Jwt.verify. pose proof (dotted_split (Chars.chars token)) as Hj.
  destruct (Jwt.split_dots (Chars.chars token)) as [|h [|p [|sg [|x ps]]]];
    try discriminate.
  cbn [dotted] in Hj.
  repeat match goal with
         | |- context [match ?x with _ => _ end] => destruct x eqn:?; try discriminate
         end.
  intros [Heq _]%andb_prop. apply String.eqb_eq in Heq.
  exists (Chars.text h), (Chars.text p). eexists. rewrite <- Heq.
  apply chars_inj. by rewrite chars_token, !chars_text.
Qed.

#[local] Opaque Jwt.verify Jwt.sign Jwt.compact Jwt.signature.

(** ** The monad and the middleware *)

Lemma bind_run {A B} (m : M A) (f : A -> M B) (w : World) :
  (m ≫= f) w = f (m w).1 (m w).2.
Proof. unfold mbind, M_bind. destruct (m w); reflexivity. Qed.

(** Unfolding of the monadic operations of a handler. *)
Ltac run_M :=
  unfold jwt_verify, jwt_sign, readPosts, savePosts, write_upload,
    remove_upload, get_world, Date_now, Math_random;
  unfold mbind, M_bind, mret, M_ret; cbn.

(** A request that passes the gate runs its handler after one read of the
    clock. *)
Lemma authMiddleware_pass req next w :
  auth_passes req w = true -> authMiddleware req next w = next (tick w).
Proof.
  unfold auth_passes, authMiddleware, bearer_token.
  destruct (replace _ _ <$> authorization req) as [[|c r]|]; try discriminate.
  intros Hv. run_M. rewrite Hv. reflexivity.
Qed.

(** A request that does not pass is answered 401 with a message, and the
    files are left alone. *)
Lemma authMiddleware_fail req next w :
  auth_passes req w = false ->
  exists s w', authMiddleware req next w = (res_json 401 (msg s), w')
               /\ (w' = w \/ w' = tick w).
Proof.
  unfold auth_passes, authMiddleware, bearer_token.
  destruct (replace _ _ <$> authorization req) as [[|c r]|]; intros Hv; run_M.
  - eexists _, _; split; [reflexivity | by left].
  - rewrite Hv. eexists _, _; split; [reflexivity | by right].
  - eexists _, _; split; [reflexivity | by left].
Qed.

Lemma serve_static_other req w :
  method req <> GET -> serve_static req w = (None, w).
Proof. unfold serve_static. destruct (method req); by cbn. Qed.

(** The four protected routes. *)
Lemma app_create req w :
  method req = POST -> route_of (path req) = RPosts -> auth_passes req w = true ->
  app req w = post_posts req (tick w).
Proof.
  intros Hm Hr Ha. unfold app. rewrite bind_run, serve_static_other by (by rewrite Hm).
  cbn [fst snd]. rewrite Hm, Hr. by apply authMiddleware_pass.
Qed.

Lemma app_update req w rid :
  method req = PUT -> route_of (path req) = RPost rid -> auth_passes req w = true ->
  app req w = put_post rid req (tick w).
Proof.
  intros Hm Hr Ha. unfold app. rewrite bind_run, serve_static_other by (by rewrite Hm).
  cbn [fst snd]. rewrite Hm, Hr. by apply authMiddleware_pass.
Qed.

Lemma app_delete req w rid :
  method req = DELETE -> route_of (path req) = RPost rid -> auth_passes req w = true ->
  app req w = delete_post rid req (tick w).
Proof.
  intros Hm Hr Ha. unfold app. rewrite bind_run, serve_static_other by (by rewrite Hm).
  cbn [fst snd]. rewrite Hm, Hr. by apply authMiddleware_pass.
Qed.

Lemma app_upload req w :
  method req = POST -> route_of (path req) = RUpload -> auth_passes req w = true ->
  app req w = post_upload req (tick w).
Proof.
  intros Hm Hr Ha. unfold app. rewrite bind_run, serve_static_other by (by rewrite Hm).
  cbn [fst snd]. rewrite Hm, Hr. by apply authMiddleware_pass.
Qed.

(** ** The post store *)

Lemma findIndex_None {A} (f : A -> bool) l :
  findIndex f l = None <-> Forall (fun x => f x = false) l.
Proof.
  induction l as [|x l IH]; cbn.
  - split; [constructor | done].
  - destruct (f x) eqn:Hx.
    + split; [done | intros HF; inversion HF; congruence].
    + destruct (findIndex f l); cbn.
      * split; [done | intros HF; inversion HF as [|? ? _ HF']; by apply IH in HF'].
      * split; [intros _; constructor; [done | by apply IH] | done].
Qed.

Lemma findIndex_Some {A} (f : A -> bool) l i :
  findIndex f l = Some i ->
  exists x, l !! i = Some x /\ f x = true
            /\ forall j y, (j < i)%nat -> l !! j = Some y -> f y = false.
Proof.
  revert i. induction l as [|x l IH]; intros i; cbn; [done|].
  destruct (f x) eqn:Hx.
  - intros [= <-]. exists x. repeat split; [done | intros j y Hj; lia].
  - destruct (findIndex f l) as [k|]; cbn; [|done].
    intros [= <-]. destruct (IH k eq_refl) as (z & Hz & Hfz & Hlt).
    exists z. repeat split; [done..|].
    intros [|j] y Hj; cbn; [congruence | intros Hy; apply (Hlt j y); [lia | done]].
Qed.

Lemma findIndex_exists {A} (f : A -> bool) l x :
  x ∈ l -> f x = true -> exists i, findIndex f l = Some i.
Proof.
  intros Hin Hx. destruct (findIndex f l) as [i|] eqn:E; [by exists i|].
  apply findIndex_None in E. rewrite Forall_forall in E.
  specialize (E x Hin). congruence.
Qed.

Lemma post_posts_refused req w :
  truthy (body_prop (body req) "title") = false ->
  post_posts req w = (res_json 400 (msg "缺少标题"), w).
Proof. unfold post_posts. intros ->. reflexivity. Qed.

Lemma put_post_unknown rid req w :
  Forall (fun p => ~ matches rid p) (posts_file w) ->
  put_post rid req w = (res_end 404, log_event ReadPosts w).
Proof.
  intros HF. unfold put_post. run_M.
  assert (findIndex (id_matches rid) (posts_file w) = None) as ->; [|done].
  apply findIndex_None. eapply Forall_impl; [exact HF|].
  unfold matches. intros p Hp. by destruct (id_matches rid p).
Qed.

Lemma delete_post_run rid req w :
  let kept := List.filter (fun p => negb (id_matches rid p)) (posts_file w) in
  (delete_post rid req w).1 = res_json 200 (JObj [("ok", JBool true)])
  /\ posts_file (delete_post rid req w).2 = kept
  /\ fs_log (delete_post rid req w).2 = WritePosts kept :: ReadPosts :: fs_log w
  /\ uploads_dir (delete_post rid req w).2 = uploads_dir w
  /\ clock (delete_post rid req w).2 = clock w
  /\ ticks (delete_post rid req w).2 = ticks w.
Proof. by unfold delete_post; run_M. Qed.

Lemma filter_unmatched rid (l : list Post) :
  Forall (fun p => ~ matches rid p) l ->
  List.filter (fun p => negb (id_matches rid p)) l = l.
Proof.
  induction 1 as [|p l Hp _ IH]; cbn; [done|].
  unfold matches in Hp. destruct (id_matches rid p); [done|]. cbn. by rewrite IH.
Qed.

Lemma filter_removes rid (l : list Post) :
  Forall (fun p => ~ matches rid p) (List.filter (fun p => negb (id_matches rid p)) l).
Proof.
  apply Forall_forall. intros p Hp.
  apply list_elem_of_In, filter_In in Hp as [_ Hp].
  unfold matches. by destruct (id_matches rid p).
Qed.

(** C5.  A create whose title is missing or empty is answered 400 before
    the store is read: the handler returns the world it was given, and on
    the route the collection and the log of file operations are the ones
    before the request. *)
Theorem create_without_title_is_refused req w :
  body_prop (body req) "title" = None
  \/ body_prop (body req) "title" = Some (JStr EmptyString) ->
  method req = POST -> route_of (path req) = RPosts -> auth_passes req w = true ->
  post_posts req w = (res_json 400 (msg "缺少标题"), w)
  /\ status (app req w).1 = 400
  /\ posts_file (app req w).2 = posts_file w
  /\ fs_log (app req w).2 = fs_log w.
Proof.
  intros Ht Hm Hr Ha.
  assert (truthy (body_prop (body req) "title") = false) as Hf
    by (destruct Ht as [-> | ->]; reflexivity).
  rewrite (app_create _ _ Hm Hr Ha), !post_posts_refused by done.
  by repeat split.
Qed.

Lemma create_without_title_is_refused_witness :
  let req := authorized POST ["api"; "posts"] (BodyObject [("content", JStr "text")]) None in
  (body_prop (body req) "title" = None
   \/ body_prop (body req) "title" = Some (JStr EmptyString))
  /\ method req = POST /\ route_of (path req) = RPosts
  /\ auth_passes req world2 = true
  /\ post_posts req world2 = (res_json 400 (msg "缺少标题"), world2)
  /\ status (app req world2).1 = 400
  /\ posts_file (app req world2).2 = posts_file world2
  /\ fs_log (app req world2).2 = fs_log world2.
Proof.
  intros req.
  assert (body_prop (body req) "title" = None
          \/ body_prop (body req) "title" = Some (JStr EmptyString)) as H1
    by (left; reflexivity).
  assert (method req = POST) as H2 by reflexivity.
  assert (route_of (path req) = RPosts) as H3 by reflexivity.
  assert (auth_passes req world2 = true) as H4 by (vm_compute; reflexivity).
  exact (conj H1 (conj H2 (conj H3 (conj H4
           (create_without_title_is_refused req world2 H1 H2 H3 H4))))).
Defined.

(** C6.  An update whose id matches no stored post is answered 404; the
    store is read, nothing is written, and the collection is the one
    before the request. *)
Theorem update_of_unknown_id_is_404 rid req w :
  Forall (fun p => ~ matches rid p) (posts_file w) ->
  method req = PUT -> route_of (path req) = RPost rid -> auth_passes req w = true ->
  status (app req w).1 = 404
  /\ posts_file (app req w).2 = posts_file w
  /\ fs_log (app req w).2 = ReadPosts :: fs_log w.
Proof.
  intros HF Hm Hr Ha. rewrite (app_update _ _ _ Hm Hr Ha), put_post_unknown by done.
  by repeat split.
Qed.

Lemma update_of_unknown_id_is_404_witness :
  let req := authorized PUT ["api"; "posts"; "42"]
               (BodyObject [("title", JStr "New")]) None in
  Forall (fun p => ~ matches "42" p) (posts_file world2)
  /\ method req = PUT /\ route_of (path req) = RPost "42"
  /\ auth_passes req world2 = true
  /\ status (app req world2).1 = 404
  /\ posts_file (app req world2).2 = posts_file world2
  /\ fs_log (app req world2).2 = ReadPosts :: fs_log world2.
Proof.
  intros req.
  assert (Forall (fun p => ~ matches "42" p) (posts_file world2)) as H1
    by (repeat constructor; vm_compute; discriminate).
  assert (method req = PUT) as H2 by reflexivity.
  assert (route_of (path req) = RPost "42") as H3 by reflexivity.
  assert (auth_passes req world2 = true) as H4 by (vm_compute; reflexivity).
  exact (conj H1 (conj H2 (conj H3 (conj H4
           (update_of_unknown_id_is_404 "42" req world2 H1 H2 H3 H4))))).
Defined.

(** C7.  A delete is always answered [{ok: true}]; the collection it
    leaves is the one before without the posts whose id matches, which is
    the same collection when no post matches; and a second delete of the
    same id leaves the collection of the first and gives its answer. *)
Theorem delete_is_idempotent rid req1 req2 w :
  method req1 = DELETE -> route_of (path req1) = RPost rid ->
  method req2 = DELETE -> route_of (path req2) = RPost rid ->
  auth_passes req1 w = true ->
  auth_passes req2 (app req1 w).2 = true ->
  let w1 := (app req1 w).2 in
  let w2 := (app req2 w1).2 in
  (app req1 w).1 = res_json 200 (JObj [("ok", JBool true)])
  /\ posts_file w1 = List.filter (fun p => negb (id_matches rid p)) (posts_file w)
  /\ Forall (fun p => ~ matches rid p) (posts_file w1)
  /\ (Forall (fun p => ~ matches rid p) (posts_file w) -> posts_file w1 = posts_file w)
  /\ (app req2 w1).1 = (app req1 w).1
  /\ posts_file w2 = posts_file w1.
Proof.
  intros Hm1 Hr1 Hm2 Hr2 Ha1 Ha2 w1 w2. subst w1 w2.
  rewrite (app_delete _ _ _ Hm2 Hr2 Ha2).
  rewrite (app_delete _ _ _ Hm1 Hr1 Ha1).
  set (w1 := (delete_post rid req1 (tick w)).2).
  destruct (delete_post_run rid req1 (tick w)) as (Hr & Hp & _).
  destruct (delete_post_run rid req2 (tick w1)) as (Hr' & Hp' & _).
  cbn zeta in Hp, Hp'. fold w1 in Hp.
  change (posts_file (tick w)) with (posts_file w) in Hp.
  change (posts_file (tick w1)) with (posts_file w1) in Hp'.
  rewrite Hr, Hr', Hp', Hp. repeat split.
  - apply filter_removes.
  - intros HF. by apply filter_unmatched.
  - apply filter_unmatched, filter_removes.
Qed.

Lemma delete_is_idempotent_witness :
  let rid := "1699999990000" in
  let req := authorized DELETE ["api"; "posts"; rid] (BodyObject []) None in
  let w1 := (app req world2).2 in
  let w2 := (app req w1).2 in
  method req = DELETE /\ route_of (path req) = RPost rid
  /\ auth_passes req world2 = true /\ auth_passes req w1 = true
  /\ (app req world2).1 = res_json 200 (JObj [("ok", JBool true)])
  /\ posts_file w1 = List.filter (fun p => negb (id_matches rid p)) (posts_file world2)
  /\ Forall (fun p => ~ matches rid p) (posts_file w1)
  /\ (Forall (fun p => ~ matches rid p) (posts_file world2) ->
      posts_file w1 = posts_file world2)
  /\ (app req w1).1 = (app req world2).1
  /\ posts_file w2 = posts_file w1.
Proof.
  intros rid req w1 w2.
  assert (method req = DELETE) as H1 by reflexivity.
  assert (route_of (path req) = RPost rid) as H2 by reflexivity.
  assert (auth_passes req world2 = true) as H3 by (vm_compute; reflexivity).
  assert (auth_passes req w1 = true) as H4 by (vm_compute; reflexivity).
  exact (conj H1 (conj H2 (conj H3 (conj H4
           (delete_is_idempotent rid req req world2 H1 H2 H1 H2 H3 H4))))).
Defined.

(** The run of an update that finds its post at [i]. *)
Lemma put_post_found rid req w i :
  findIndex (id_matches rid) (posts_file w) = Some i ->
  let f := set_fields (body_prop (body req) "title") (body_prop (body req) "content")
             (JsDate.toISOString (clock w (ticks w))) in
  let posts := alter f i (posts_file w) in
  exists old,
    posts_file w !! i = Some old /\ matches rid old
    /\ (put_post rid req w).1 = res_json 200 (json_of_post (f old))
    /\ posts_file (put_post rid req w).2 = posts
    /\ posts !! i = Some (f old)
    /\ fs_log (put_post rid req w).2 = WritePosts posts :: ReadPosts :: fs_log w.
Proof.
  intros Hi f posts.
  destruct (findIndex_Some _ _ _ Hi) as (old & Hold & Hm & _).
  exists old. unfold put_post. run_M. rewrite Hi. cbn.
  assert (posts !! i = Some (f old)) as Hnew
    by (subst posts; by rewrite list_lookup_alter_eq, Hold).
  fold f. fold posts. rewrite Hnew. by repeat split.
Qed.

(** C4.  An update whose id matches a stored post rewrites the first such
    post: its title and content become those of the body and its
    [updatedAt] the time of the update; its id and [createdAt], and every
    other post, stay; the new collection is written and the updated post
    is the answer. *)
Theorem update_changes_only_the_matched_post rid req w p :
  p ∈ posts_file w -> matches rid p ->
  method req = PUT -> route_of (path req) = RPost rid -> auth_passes req w = true ->
  exists i old new,
    findIndex (id_matches rid) (posts_file w) = Some i
    /\ posts_file w !! i = Some old /\ matches rid old
    /\ new = {| id := id old;
                title := body_prop (body req) "title";
                content := body_prop (body req) "content";
                createdAt := createdAt old;
                updatedAt := Some (JsDate.toISOString (clock w (S (ticks w)))) |}
    /\ (app req w).1 = res_json 200 (json_of_post new)
    /\ posts_file (app req w).2 !! i = Some new
    /\ (forall j, j <> i -> posts_file (app req w).2 !! j = posts_file w !! j)
    /\ length (posts_file (app req w).2) = length (posts_file w)
    /\ fs_log (app req w).2
       = WritePosts (posts_file (app req w).2) :: ReadPosts :: fs_log w.
Proof.
  intros Hin Hp Hm Hr Ha.
  destruct (findIndex_exists (id_matches rid) _ p Hin Hp) as [i Hi].
  rewrite (app_update _ _ _ Hm Hr Ha).
  destruct (put_post_found rid req (tick w) i Hi)
    as (old & Hold & Hmo & Hres & Hposts & Hnew & Hlog).
  cbn zeta in *. exists i, old. eexists. split; [exact Hi|].
  split; [exact Hold|]. split; [exact Hmo|]. split; [reflexivity|].
  rewrite Hres, Hposts, Hlog. repeat split.
  - exact Hnew.
  - intros j Hj. apply list_lookup_alter_ne. congruence.
  - apply length_alter.
Qed.

Lemma update_changes_only_the_matched_post_witness :
  let rid := "1699999980000" in
  let req := authorized PUT ["api"; "posts"; rid]
               (BodyObject [("title", JStr "Edited"); ("content", JStr "more")]) None in
  post2 ∈ posts_file world2 /\ matches rid post2
  /\ method req = PUT /\ route_of (path req) = RPost rid
  /\ auth_passes req world2 = true
  /\ exists i old new,
       findIndex (id_matches rid) (posts_file world2) = Some i
       /\ posts_file world2 !! i = Some old /\ matches rid old
       /\ new = {| id := id old;
                   title := body_prop (body req) "title";
                   content := body_prop (body req) "content";
                   createdAt := createdAt old;
                   updatedAt :=
                     Some (JsDate.toISOString (clock world2 (S (ticks world2)))) |}
       /\ (app req world2).1 = res_json 200 (json_of_post new)
       /\ posts_file (app req world2).2 !! i = Some new
       /\ (forall j, j <> i ->
                     posts_file (app req world2).2 !! j = posts_file world2 !! j)
       /\ length (posts_file (app req world2).2) = length (posts_file world2)
       /\ fs_log (app req world2).2
          = WritePosts (posts_file (app req world2).2) :: ReadPosts :: fs_log world2.
Proof.
  intros rid req.
  assert (post2 ∈ posts_file world2) as H1
    by (apply list_elem_of_In; right; left; reflexivity).
  assert (matches rid post2) as H2 by (vm_compute; reflexivity).
  assert (method req = PUT) as H3 by reflexivity.
  assert (route_of (path req) = RPost rid) as H4 by reflexivity.
  assert (auth_passes req world2 = true) as H5 by (vm_compute; reflexivity).
  exact (conj H1 (conj H2 (conj H3 (conj H4 (conj H5
           (update_changes_only_the_matched_post rid req world2 post2
              H1 H2 H3 H4 H5)))))).
Defined.

Lemma json_of_post_no_title p :
  title p = None -> get_prop (json_of_post p) "title" = None.
Proof.
  intros Ht. unfold json_of_post. rewrite Ht.
  destruct (content p), (updatedAt p); reflexivity.
Qed.

Lemma json_of_post_no_content p :
  content p = None -> get_prop (json_of_post p) "content" = None.
Proof.
  intros Ht. unfold json_of_post. rewrite Ht.
  destruct (title p), (updatedAt p); reflexivity.
Qed.

(** C10.  An update takes the title and the content from the body whatever
    they are: the stored post has the title and the content of the body, so
    that a member the body omits is no longer in the stored post nor in the
    answer, and an empty title is stored as it is; the collection with
    that post is the one written. *)
Theorem update_overwrites_without_validation rid req w p :
  p ∈ posts_file w -> matches rid p ->
  method req = PUT -> route_of (path req) = RPost rid -> auth_passes req w = true ->
  exists i old new,
    posts_file w !! i = Some old /\ matches rid old
    /\ posts_file (app req w).2 !! i = Some new
    /\ (app req w).1 = res_json 200 (json_of_post new)
    /\ title new = body_prop (body req) "title"
    /\ content new = body_prop (body req) "content"
    /\ (body_prop (body req) "title" = None ->
        title new = None /\ get_prop (json_of_post new) "title" = None)
    /\ (body_prop (body req) "content" = None ->
        content new = None /\ get_prop (json_of_post new) "content" = None)
    /\ (body_prop (body req) "title" = Some (JStr EmptyString) ->
        title new = Some (JStr EmptyString))
    /\ head (fs_log (app req w).2) = Some (WritePosts (posts_file (app req w).2)).
Proof.
  intros Hin Hp Hm Hr Ha.
  destruct (findIndex_exists (id_matches rid) _ p Hin Hp) as [i Hi].
  rewrite (app_update _ _ _ Hm Hr Ha).
  destruct (put_post_found rid req (tick w) i Hi)
    as (old & Hold & Hmo & Hres & Hposts & Hnew & Hlog).
  cbn zeta in *. exists i, old. eexists.
  rewrite Hres, Hposts, Hlog. repeat split; try done.
  - by apply json_of_post_no_title.
  - by apply json_of_post_no_content.
Qed.

Lemma update_overwrites_without_validation_witness :
  let rid := "1699999990000" in
  let req := authorized PUT ["api"; "posts"; rid] (BodyObject []) None in
  post1 ∈ posts_file world2 /\ matches rid post1
  /\ method req = PUT /\ route_of (path req) = RPost rid
  /\ auth_passes req world2 = true
  /\ exists i old new,
       posts_file world2 !! i = Some old /\ matches rid old
       /\ posts_file (app req world2).2 !! i = Some new
       /\ (app req world2).1 = res_json 200 (json_of_post new)
       /\ title new = body_prop (body req) "title"
       /\ content new = body_prop (body req) "content"
       /\ (body_prop (body req) "title" = None ->
           title new = None /\ get_prop (json_of_post new) "title" = None)
       /\ (body_prop (body req) "content" = None ->
           content new = None /\ get_prop (json_of_post new) "content" = None)
       /\ (body_prop (body req) "title" = Some (JStr EmptyString) ->
           title new = Some (JStr EmptyString))
       /\ head (fs_log (app req world2).2)
          = Some (WritePosts (posts_file (app req world2).2)).
Proof.
  intros rid req.
  assert (post1 ∈ posts_file world2) as H1
    by (apply list_elem_of_In; left; reflexivity).
  assert (matches rid post1) as H2 by (vm_compute; reflexivity).
  assert (method req = PUT) as H3 by reflexivity.
  assert (route_of (path req) = RPost rid) as H4 by reflexivity.
  assert (auth_passes req world2 = true) as H5 by (vm_compute; reflexivity).
  exact (conj H1 (conj H2 (conj H3 (conj H4 (conj H5
           (update_overwrites_without_validation rid req world2 post1
              H1 H2 H3 H4 H5)))))).
Defined.

(** *** Sorting, and the list of posts *)

Section Sort.
Context {A : Type} (cmp : A -> A -> Z).

Lemma sort_insert_perm x l : sort_insert cmp x l ≡ₚ x :: l.
Proof.
  induction l as [|y l IH]; cbn; [reflexivity|].
  destruct (cmp x y <=? 0); [reflexivity|]. rewrite IH. apply Permutation_swap.
Qed.

Lemma sort_perm l : sort cmp l ≡ₚ l.
Proof.
  induction l as [|x l IH]; cbn; [reflexivity|].
  rewrite sort_insert_perm, IH. reflexivity.
Qed.

Lemma sort_Forall (P : A -> Prop) l : Forall P l -> Forall P (sort cmp l).
Proof. intros HF. by rewrite sort_perm. Qed.

(** An element that the comparator puts before or level with all the
    others stays first when it is first: the sort is stable. *)
Lemma sort_first x l :
  Forall (fun y => cmp x y <= 0) l -> sort cmp (x :: l) = x :: sort cmp l.
Proof.
  intros HF. apply (sort_Forall _ _) in HF.
  change (sort cmp (x :: l)) with (sort_insert cmp x (sort cmp l)).
  destruct HF as [|y r Hy _]; cbn; [done|].
  by destruct (Z.leb_spec (cmp x y) 0); [|lia].
Qed.
End Sort.

Lemma sort_insert_sorted x l :
  Sorted (fun a b => id b <= id a) l ->
  Sorted (fun a b => id b <= id a) (sort_insert newest_first x l).
Proof.
  induction 1 as [|y l Hl IH Hhd]; cbn.
  - repeat constructor.
  - unfold newest_first at 1. destruct (Z.leb_spec (id y - id x) 0).
    + constructor; [by constructor | constructor; lia].
    + constructor; [exact IH|].
      destruct Hhd as [|z r Hz]; cbn.
      * constructor; lia.
      * unfold newest_first. destruct (Z.leb_spec (id z - id x) 0); constructor; lia.
Qed.

(** The list operation sorts by id, newest first. *)
Lemma sort_newest_first_sorted l :
  Sorted (fun a b => id b <= id a) (sort newest_first l).
Proof.
  induction l as [|x l IH]; cbn; [constructor | by apply sort_insert_sorted].
Qed.

Lemma get_posts_run req w :
  get_posts req w
  = (res_json 200 (JArr (map json_of_post (sort newest_first (posts_file w)))),
     log_event ReadPosts w).
Proof. reflexivity. Qed.

Lemma post_posts_run req w :
  truthy (body_prop (body req) "title") = true ->
  let post := {| id := clock w (ticks w);
                 title := body_prop (body req) "title";
                 content := body_prop (body req) "content";
                 createdAt := JsDate.toISOString (clock w (S (ticks w)));
                 updatedAt := None |} in
  (post_posts req w).1 = res_json 200 (json_of_post post)
  /\ posts_file (post_posts req w).2 = post :: posts_file w
  /\ fs_log (post_posts req w).2
     = WritePosts (post :: posts_file w) :: ReadPosts :: fs_log w.
Proof. intros Ht. unfold post_posts. rewrite Ht. by run_M. Qed.

(** C1.  A create with a title that is not empty makes the post
    [{id, title, content, createdAt}] with the time of the request as id
    and no [updatedAt], puts it at the front of the collection, writes the
    whole collection and answers with the post; and when no stored id is
    above that time, a list that follows has the post first. *)
Theorem create_prepends_and_lists_first req w :
  truthy (body_prop (body req) "title") = true ->
  method req = POST -> route_of (path req) = RPosts -> auth_passes req w = true ->
  let post := {| id := clock w (S (ticks w));
                 title := body_prop (body req) "title";
                 content := body_prop (body req) "content";
                 createdAt := JsDate.toISOString (clock w (S (S (ticks w))));
                 updatedAt := None |} in
  (app req w).1 = res_json 200 (json_of_post post)
  /\ get_prop (json_of_post post) "updatedAt" = None
  /\ posts_file (app req w).2 = post :: posts_file w
  /\ fs_log (app req w).2 = WritePosts (post :: posts_file w) :: ReadPosts :: fs_log w
  /\ (Forall (fun p => id p <= id post) (posts_file w) ->
      forall req', exists rest,
        (get_posts req' (app req w).2).1
        = res_json 200 (JArr (json_of_post post :: rest))).
Proof.
  intros Ht Hm Hr Ha post. rewrite (app_create _ _ Hm Hr Ha).
  destruct (post_posts_run req (tick w) Ht) as (Hres & Hposts & Hlog).
  cbn zeta in *. fold post in Hres, Hposts, Hlog.
  rewrite Hres, Hposts, Hlog. repeat split.
  - unfold json_of_post. cbn [updatedAt post].
    destruct (title post), (content post); reflexivity.
  - intros HF req'. rewrite get_posts_run. cbn [fst]. rewrite Hposts.
    rewrite sort_first.
    + eexists. reflexivity.
    + eapply Forall_impl; [exact HF|]. intros p Hp.
      unfold newest_first, post in *. cbn [id] in *.
      change (clock (tick w) (ticks (tick w))) with (clock w (S (ticks w))). lia.
Qed.

Lemma create_prepends_and_lists_first_witness :
  let req := authorized POST ["api"; "posts"] (BodyObject [("title", JStr "Hello")]) None in
  let post := {| id := clock world2 (S (ticks world2));
                 title := body_prop (body req) "title";
                 content := body_prop (body req) "content";
                 createdAt := JsDate.toISOString (clock world2 (S (S (ticks world2))));
                 updatedAt := None |} in
  truthy (body_prop (body req) "title") = true
  /\ method req = POST /\ route_of (path req) = RPosts
  /\ auth_passes req world2 = true
  /\ (app req world2).1 = res_json 200 (json_of_post post)
  /\ get_prop (json_of_post post) "updatedAt" = None
  /\ posts_file (app req world2).2 = post :: posts_file world2
  /\ fs_log (app req world2).2
     = WritePosts (post :: posts_file world2) :: ReadPosts :: fs_log world2
  /\ (Forall (fun p => id p <= id post) (posts_file world2) ->
      forall req', exists rest,
        (get_posts req' (app req world2).2).1
        = res_json 200 (JArr (json_of_post post :: rest))).
Proof.
  intros req post.
  assert (truthy (body_prop (body req) "title") = true) as H1 by reflexivity.
  assert (method req = POST) as H2 by reflexivity.
  assert (route_of (path req) = RPosts) as H3 by reflexivity.
  assert (auth_passes req world2 = true) as H4 by (vm_compute; reflexivity).
  exact (conj H1 (conj H2 (conj H3 (conj H4
           (create_prepends_and_lists_first req world2 H1 H2 H3 H4))))).
Defined.

(** ** The gate *)








Lemma append_nil r : EmptyString +:+ r = r.
Proof. reflexivity. Qed.



(** A valid token after the prefix [Bearer ] passes. *)
Lemma bearer_token_passes req w token :
  authorization req = Some ("Bearer " +:+ token) ->
  Jwt.verify (clock w (ticks w)) token JWT_SECRET = true ->
  auth_passes req w = true.
Proof.
  intros Hh Hv. unfold auth_passes, bearer_token. rewrite Hh.
  cbn [fmap option_fmap option_map]. rewrite replace_prefix.
  change (EmptyString +:+ token) with token.
  destruct token; [by rewrite verify_empty in Hv | done].
Qed.

(** What the gate does with a header. *)
Lemma authMiddleware_header req next w header :
  authorization req = Some header ->
  let token := replace "Bearer " EmptyString header in
  authMiddleware req next w
  = if String.eqb token EmptyString then (res_json 401 (msg "未登录"), w)
    else if Jwt.verify (clock w (ticks w)) token JWT_SECRET then next (tick w)
         else (res_json 401 (msg "登录失效"), tick w).
Proof.
  intros Hh token. unfold authMiddleware. rewrite Hh.
  cbn [fmap option_fmap option_map]. fold token.
  destruct token as [|c t]; [reflexivity|]. run_M.
  by destruct (Jwt.verify _ _ _).
Qed.




(** ** Login *)

(** C3.  A login is answered with a token exactly when the password is the
    string of the administrator: the token is signed over the claims
    [role: "admin"], the time of issue and an expiry 24 hours later, and a
    request that carries it passes the gate as long as the clock is before
    the expiry; any other password is answered 401 with a message and no
    token, without a read of the clock. *)
Theorem login_issues_token_iff_password req w :
  let password := body_prop (body req) "password" in
  let iat := clock w (ticks w) / 1000 in
  let claims := JObj [("role", JStr "admin"); ("iat", JNum iat);
                      ("exp", JNum (iat + 24 * 60 * 60))] in
  let token := Jwt.compact Jwt.header_HS256 claims JWT_SECRET in
  (password = Some (JStr ADMIN_PASSWORD) ->
   post_login req w = (res_json 200 (JObj [("token", JStr token)]), tick w))
  /\ (password <> Some (JStr ADMIN_PASSWORD) ->
      post_login req w = (res_json 401 (msg "密码错误"), w)
      /\ get_prop (msg "密码错误") "token" = None)
  /\ (exists h p sg,
        token = (h +:+ "." +:+ p) +:+ "." +:+ sg
        /\ Base64url.decode p ≫= JsonText.JSON_parse = Some claims)
  /\ (forall req' w',
        authorization req' = Some ("Bearer " +:+ token) ->
        clock w' (ticks w') / 1000 < iat + 24 * 60 * 60 ->
        auth_passes req' w' = true
        /\ forall next, authMiddleware req' next w' = next (tick w'))
  /\ (forall req' w' next,
        authorization req' = Some ("Bearer " +:+ token) ->
        iat + 24 * 60 * 60 <= clock w' (ticks w') / 1000 ->
        authMiddleware req' next w' = (res_json 401 (msg "登录失效"), tick w')).
Proof.
  intros password iat claims token.
  assert (token = Jwt.sign (clock w (ticks w)) [("role", JStr "admin")] JWT_SECRET 86400)
    as Hsign by (subst token claims iat; by rewrite sign_admin_compact).
  assert (replace "Bearer " EmptyString ("Bearer " +:+ token) = token)
    as Hrep by apply replace_prefix.
  assert (token <> EmptyString) as Hne by apply compact_nonempty.
  split; [|split; [|split; [|split]]].
  - intros Hp. unfold post_login. fold password. rewrite Hp.
    cbn [strict_eq_string]. rewrite String.eqb_refl. cbn [negb].
    run_M. by rewrite <- Hsign.
  - intros Hp. split; [|reflexivity]. unfold post_login. fold password.
    assert (strict_eq_string password ADMIN_PASSWORD = false) as ->; [|done].
    destruct password as [[| | |s| |]|]; try done. cbn.
    destruct (String.eqb_spec s ADMIN_PASSWORD) as [->|]; [by destruct Hp | done].
  - destruct (compact_segments Jwt.header_HS256 claims JWT_SECRET) as [sg Hsg].
    eexists _, _, sg. split; [exact Hsg|].
    rewrite base64url_decode_encode. cbn [mbind option_bind].
    apply parse_admin_payload.
  - intros req' w' Hh Hlt.
    assert (auth_passes req' w' = true) as Hpass.
    { apply (bearer_token_passes _ _ token Hh).
      rewrite Hsign, verify_sign_admin. apply Z.ltb_lt. fold iat. lia. }
    split; [done|]. intros next. by apply authMiddleware_pass.
  - intros req' w' next Hh Hge.
    rewrite (authMiddleware_header _ _ _ _ Hh), Hrep.
    destruct (String.eqb_spec token EmptyString) as [E|_]; [by destruct Hne|].
    rewrite Hsign, verify_sign_admin.
    assert ((clock w' (ticks w') / 1000 <? clock w (ticks w) / 1000 + 86400) = false)
      as ->; [|done].
    apply Z.ltb_ge. fold iat. lia.
Qed.

Lemma login_issues_token_iff_password_witness :
  let password := body_prop (body login_request) "password" in
  let iat := clock world0 (ticks world0) / 1000 in
  let claims := JObj [("role", JStr "admin"); ("iat", JNum iat);
                      ("exp", JNum (iat + 24 * 60 * 60))] in
  let token := Jwt.compact Jwt.header_HS256 claims JWT_SECRET in
  (password = Some (JStr ADMIN_PASSWORD) ->
   post_login login_request world0
   = (res_json 200 (JObj [("token", JStr token)]), tick world0))
  /\ (password <> Some (JStr ADMIN_PASSWORD) ->
      post_login login_request world0 = (res_json 401 (msg "密码错误"), world0)
      /\ get_prop (msg "密码错误") "token" = None)
  /\ (exists h p sg,
        token = (h +:+ "." +:+ p) +:+ "." +:+ sg
        /\ Base64url.decode p ≫= JsonText.JSON_parse = Some claims)
  /\ (forall req' w',
        authorization req' = Some ("Bearer " +:+ token) ->
        clock w' (ticks w') / 1000 < iat + 24 * 60 * 60 ->
        auth_passes req' w' = true
        /\ forall next, authMiddleware req' next w' = next (tick w'))
  /\ (forall req' w' next,
        authorization req' = Some ("Bearer " +:+ token) ->
        iat + 24 * 60 * 60 <= clock w' (ticks w') / 1000 ->
        authMiddleware req' next w' = (res_json 401 (msg "登录失效"), tick w')).
Proof. exact (login_issues_token_iff_password login_request world0). Defined.

(** ** Error responses *)

Lemma signed_has_dot token : signed token -> In "."%char (Chars.chars token).
Proof.
  intros (h & p & a & ->). rewrite chars_token. apply in_or_app. right. by left.
Qed.

(** The three answers of the gate: it lets a request through only with a
    signed token. *)
Lemma authMiddleware_answers req next w :
  authMiddleware req next w = (res_json 401 (msg "未登录"), w)
  \/ authMiddleware req next w = (res_json 401 (msg "登录失效"), tick w)
  \/ (carries_signed_token (Readable req) /\ authMiddleware req next w = next (tick w)).
Proof.
  unfold authMiddleware.
  destruct (replace _ _ <$> authorization req) as [[|c r]|] eqn:E; try by left.
  cbn [string_truthy negb default]. run_M.
  destruct (Jwt.verify _ _ _) eqn:Hv; [|by right; left].
  right. right. split; [|done]. exists req, (String c r).
  split_and!; [done | exact E | by apply verify_signed in Hv].
Qed.






Lemma serve_static_cases req w :
  serve_static req w = (None, w)
  \/ exists data, method req = GET
                  /\ serve_static req w = (Some {| status := 200; sent := Raw data |}, w).
Proof.
  unfold serve_static. run_M. destruct (method req); try by left.
  destruct (public_dir w !! _) as [d|]; [right; by eexists|].
  destruct (path req) as [|mount [|name rest]]; try by left.
  destruct (String.eqb mount "uploads"); [|by left].
  destruct (uploads_dir w !! _) as [d|]; [right; by eexists | by left].
Qed.





(** ** Uploads *)

Lemma fraction_digits_hex fuel num :
  0 <= num < 2 ^ 53 ->
  (length (fraction_digits fuel num) <= fuel)%nat
  /\ Forall is_hex_digit (fraction_digits fuel num).
Proof.
  revert num. induction fuel as [|f IH]; intros num Hn; cbn -[Z.pow Z.mul Z.div];
    [split; [lia | constructor]|].
  destruct (num =? 0); [split; [cbn; lia | constructor]|].
  destruct (IH (16 * num mod 2 ^ 53)) as [Hl Hh]; [apply Z.mod_pos_bound; lia|].
  split; [cbn; lia|]. constructor; [|done].
  exists (16 * num / 2 ^ 53). split; [|done].
  split; [apply Z.div_pos; lia | apply Z.div_lt_upper_bound; lia].
Qed.

(** The fraction of a number of the unit interval ends within fourteen
    hexadecimal digits: the fuel of [unit_toString16] is enough. *)
Lemma pow2_divide a b : 0 <= a <= b -> (2 ^ a | 2 ^ b).
Proof.
  intros H. exists (2 ^ (b - a)). rewrite <- Z.pow_add_r by lia. f_equal. lia.
Qed.

Lemma fraction_digits_stable fuel n k :
  0 <= k -> 0 <= n < 2 ^ 53 -> (2 ^ k | n) -> 53 <= k + 4 * Z.of_nat fuel ->
  fraction_digits (S fuel) n = fraction_digits fuel n.
Proof.
  revert n k. induction fuel as [|f IH]; intros n k Hk Hn Hd Hfuel.
  - assert (n = 0) as ->; [|done].
    destruct (Z.eq_dec n 0) as [|Hnz]; [done|].
    apply Z.divide_pos_le in Hd; [|lia].
    assert (2 ^ 53 <= 2 ^ k) by (apply Z.pow_le_mono_r; lia). lia.
  - cbn [fraction_digits]. destruct (n =? 0); [done|]. f_equal.
    apply (IH _ (Z.min (k + 4) 53)); [lia | apply Z.mod_pos_bound; lia | | lia].
    rewrite Z.mod_eq by lia. apply Z.divide_sub_r.
    + apply Z.divide_trans with (2 ^ (k + 4)); [apply pow2_divide; lia|].
      rewrite Z.pow_add_r by lia. change (2 ^ 4) with 16.
      rewrite (Z.mul_comm _ 16). by apply Z.mul_divide_mono_l.
    + apply Z.divide_mul_l. apply pow2_divide. lia.
Qed.

(** The fraction of a number of the unit interval ends within fourteen
    hexadecimal digits: the fuel of [unit_toString16] is enough. *)
Lemma fraction_digits_complete fuel num :
  0 <= num < 2 ^ 53 -> (14 <= fuel)%nat ->
  fraction_digits fuel num = fraction_digits 14 num.
Proof.
  intros Hn. induction 1 as [|m Hm IH]; [done|].
  rewrite <- IH. apply (fraction_digits_stable m num 0); [lia | done | | lia].
  apply Z.divide_1_l.
Qed.

Lemma slice_unit_toString16 k :
  slice_from 2 (unit_toString16 k)
  = if k =? 0 then EmptyString else Chars.text (fraction_digits 14 k).
Proof. unfold unit_toString16. by destruct (k =? 0). Qed.

Lemma random_part_hex k :
  0 <= k < 2 ^ 53 ->
  (String.length (slice_from 2 (unit_toString16 k)) <= 14)%nat
  /\ Forall is_hex_digit (Chars.chars (slice_from 2 (unit_toString16 k))).
Proof.
  intros Hk. rewrite slice_unit_toString16.
  destruct (k =? 0); [split; [cbn; lia | constructor]|].
  rewrite length_text, chars_text. by apply fraction_digits_hex.
Qed.

Lemma post_upload_run req w part :
  file_part req = Some part ->
  originalname part <> EmptyString -> fieldname part = "file" ->
  Z.of_nat (String.length (bytes part)) <= UPLOAD_LIMIT ->
  let name := Number_toString (clock w (ticks w)) +:+ "-"
                +:+ slice_from 2 (unit_toString16 (random w (draws w) mod 2 ^ 53))
                +:+ Path.extname (originalname part) in
  exists w',
    post_upload req w
    = (res_json 200 (JObj [("url", JStr ("/uploads/" +:+ name));
                           ("filename", JStr (originalname part))]), w')
    /\ uploads_dir w' = <[name := bytes part]> (uploads_dir w)
    /\ fs_log w' = WriteUpload name :: fs_log w
    /\ posts_file w' = posts_file w.
Proof.
  intros Hp Hn Hf Hs name. unfold post_upload, upload_single, storage_filename.
  rewrite Hp, Hf. destruct (String.eqb_spec (originalname part) EmptyString); [done|].
  change (negb (String.eqb "file" "file")) with false. cbv iota.
  unfold write_upload, Date_now, Math_random, mbind, M_bind, mret, M_ret.
  cbn [clock ticks random draws].
  destruct (Z.ltb_spec UPLOAD_LIMIT (Z.of_nat (String.length (bytes part)))); [lia|].
  eexists. split; [reflexivity|]. by repeat split.
Qed.

(** C8, as the code has it.  An upload of one file in the field [file],
    with a name and under the limit, is stored in the upload directory
    under the time in milliseconds, a dash, the hexadecimal digits of the
    fraction of the random number (at most fourteen, none for 0) and the
    extension of the original name; the answer is [{url, filename}] with
    the stored name after [/uploads/] and the original name. *)
Theorem upload_stores_under_a_fresh_name req w part :
  file_part req = Some part ->
  originalname part <> EmptyString -> fieldname part = "file" ->
  Z.of_nat (String.length (bytes part)) < UPLOAD_LIMIT ->
  method req = POST -> route_of (path req) = RUpload -> auth_passes req w = true ->
  let random_part := slice_from 2 (unit_toString16 (random w (draws w) mod 2 ^ 53)) in
  let name := Number_toString (clock w (S (ticks w))) +:+ "-" +:+ random_part
                +:+ Path.extname (originalname part) in
  (app req w).1
  = res_json 200 (JObj [("url", JStr ("/uploads/" +:+ name));
                        ("filename", JStr (originalname part))])
  /\ uploads_dir (app req w).2 = <[name := bytes part]> (uploads_dir w)
  /\ uploads_dir (app req w).2 !! name = Some (bytes part)
  /\ fs_log (app req w).2 = WriteUpload name :: fs_log w
  /\ (String.length random_part <= 14)%nat
  /\ Forall is_hex_digit (Chars.chars random_part).
Proof.
  intros Hp Hn Hf Hs Hm Hr Ha random_part name.
  rewrite (app_upload _ _ Hm Hr Ha).
  destruct (post_upload_run req (tick w) part Hp Hn Hf (Z.lt_le_incl _ _ Hs))
    as (w' & Hrun & Hdir & Hlog & _).
  cbn zeta in *. rewrite Hrun. cbn [fst snd]. rewrite Hdir, Hlog.
  assert (0 <= random w (draws w) mod 2 ^ 53 < 2 ^ 53) as Hk
    by (apply Z.mod_pos_bound; lia).
  destruct (random_part_hex _ Hk) as [Hlen Hhex].
  repeat split; try done. apply lookup_insert_eq.
Qed.

Lemma upload_stores_under_a_fresh_name_witness :
  let random_part :=
    slice_from 2 (unit_toString16 (random world0 (draws world0) mod 2 ^ 53)) in
  let name := Number_toString (clock world0 (S (ticks world0))) +:+ "-" +:+ random_part
                +:+ Path.extname (originalname photo) in
  file_part upload_photo = Some photo
  /\ originalname photo <> EmptyString /\ fieldname photo = "file"
  /\ Z.of_nat (String.length (bytes photo)) < UPLOAD_LIMIT
  /\ method upload_photo = POST /\ route_of (path upload_photo) = RUpload
  /\ auth_passes upload_photo world0 = true
  /\ (app upload_photo world0).1
     = res_json 200 (JObj [("url", JStr ("/uploads/" +:+ name));
                           ("filename", JStr (originalname photo))])
  /\ uploads_dir (app upload_photo world0).2 = <[name := bytes photo]> (uploads_dir world0)
  /\ uploads_dir (app upload_photo world0).2 !! name = Some (bytes photo)
  /\ fs_log (app upload_photo world0).2 = WriteUpload name :: fs_log world0
  /\ (String.length random_part <= 14)%nat
  /\ Forall is_hex_digit (Chars.chars random_part).
Proof.
  intros random_part name.
  assert (file_part upload_photo = Some photo) as H1 by reflexivity.
  assert (originalname photo <> EmptyString) as H2 by discriminate.
  assert (fieldname photo = "file") as H3 by reflexivity.
  assert (Z.of_nat (String.length (bytes photo)) < UPLOAD_LIMIT) as H4
    by (vm_compute; reflexivity).
  assert (method upload_photo = POST) as H5 by reflexivity.
  assert (route_of (path upload_photo) = RUpload) as H6 by reflexivity.
  assert (auth_passes upload_photo world0 = true) as H7 by (vm_compute; reflexivity).
  exact (conj H1 (conj H2 (conj H3 (conj H4 (conj H5 (conj H6 (conj H7
           (upload_stores_under_a_fresh_name upload_photo world0 photo
              H1 H2 H3 H4 H5 H6 H7)))))))).
Defined.

(** C8, as it is stated, fails: the answer of an upload has the members
    [url] and [filename], not [originalFilename], and the random part of
    the stored name is the one digit of 1/2 here, never the sixteen digits
    of a 64-bit number. *)
Lemma upload_answer_has_filename_member :
  (app upload_photo world0).1
  = res_json 200 (JObj [("url", JStr "/uploads/1700000001000-8.png");
                        ("filename", JStr "photo.png")])
  /\ (forall v, sent (app upload_photo world0).1 = Json v ->
                get_prop v "originalFilename" = None)
  /\ ~ (exists url original,
          sent (app upload_photo world0).1
          = Json (JObj [("url", JStr url); ("originalFilename", JStr original)]))
  /\ ~ (exists random_part,
          String.length random_part = 16%nat
          /\ uploads_dir (app upload_photo world0).2
               !! ("1700000001000-" +:+ random_part +:+ ".png") <> None).
Proof.
  assert ((app upload_photo world0).1
          = res_json 200 (JObj [("url", JStr "/uploads/1700000001000-8.png");
                                ("filename", JStr "photo.png")])) as E
    by (vm_compute; reflexivity).
  assert (uploads_dir (app upload_photo world0).2
          = {[ "1700000001000-8.png" := "PNG bytes" ]}) as D.
  { rewrite (app_upload upload_photo world0) by (vm_compute; reflexivity).
    destruct (post_upload_run upload_photo (tick world0) photo)
      as (w' & -> & Hd & _); [reflexivity | discriminate | reflexivity
                             | vm_compute; discriminate |].
    cbn [snd]. rewrite Hd. reflexivity. }
  split; [exact E|]. rewrite E, D. repeat split.
  - intros v [= <-]. reflexivity.
  - intros (u & o & [=]).
  - intros (rp & Hlen & Hin). apply Hin. apply lookup_singleton_ne.
    intros Heq. apply (f_equal (fun x => length (Chars.chars x))) in Heq.
    rewrite !chars_app, !length_app, !length_chars in Heq. cbn in Heq. lia.
Qed.

(** * Further properties of the handlers *)

(** ** The routes behind the static middlewares *)

Lemma api_is_not_uploads a :
  eqb_nocase a "api" = true -> String.eqb a "uploads" = false.
Proof.
  intros H. destruct (String.eqb_spec a "uploads") as [->|]; [by vm_compute in H | done].
Qed.

(** A request for a route of the API goes through the static middlewares
    when [public/] has no file at its path. *)
Lemma serve_static_api req w :
  public_dir w !! join_path (path req) = None ->
  route_of (path req) <> ROther ->
  serve_static req w = (None, w).
Proof.
  intros Hpub Hr. unfold serve_static. rewrite bind_run. cbn [get_world fst snd].
  destruct (method req); try reflexivity. rewrite Hpub.
  destruct (path req) as [|a [|b rest]]; try reflexivity.
  destruct (String.eqb a "uploads") eqn:Ha; [|reflexivity].
  exfalso. apply Hr. cbn.
  destruct (eqb_nocase a "api") eqn:Hapi.
  - apply api_is_not_uploads in Hapi. congruence.
  - by destruct rest as [|c [|d r]].
Qed.

Lemma app_list req w :
  method req = GET -> route_of (path req) = RPosts ->
  public_dir w !! join_path (path req) = None ->
  app req w = get_posts req w.
Proof.
  intros Hm Hr Hpub. unfold app.
  rewrite bind_run, serve_static_api by (done || by rewrite Hr).
  cbn [fst snd]. by rewrite Hm, Hr.
Qed.

Lemma app_get req w rid :
  method req = GET -> route_of (path req) = RPost rid ->
  public_dir w !! join_path (path req) = None ->
  app req w = get_post rid req w.
Proof.
  intros Hm Hr Hpub. unfold app.
  rewrite bind_run, serve_static_api by (done || by rewrite Hr).
  cbn [fst snd]. by rewrite Hm, Hr.
Qed.

(** ** The list *)

(** The sort is stable: the posts of one id keep the order of the file. *)
Lemma sort_insert_stable n x l :
  List.filter (fun p => id p =? n) (sort_insert newest_first x l)
  = List.filter (fun p => id p =? n) (x :: l).
Proof.
  induction l as [|y l IH]; [done|].
  cbn [sort_insert]. unfold newest_first at 1.
  destruct (Z.leb_spec (id y - id x) 0) as [Hle|Hgt]; [done|].
  cbn [List.filter] in *. rewrite IH.
  destruct (Z.eqb_spec (id y) n) as [Hy|Hy], (Z.eqb_spec (id x) n) as [Hx|Hx];
    try done; lia.
Qed.

Lemma sort_stable n l :
  List.filter (fun p => id p =? n) (sort newest_first l)
  = List.filter (fun p => id p =? n) l.
Proof.
  induction l as [|x l IH]; [done|].
  change (sort newest_first (x :: l)) with (sort_insert newest_first x (sort newest_first l)).
  rewrite sort_insert_stable. cbn [List.filter]. by rewrite IH.
Qed.

(** X1.  [GET /api/posts] answers with the posts of the file, each once, by
    descending id, the posts of one id in the order of the file; it reads
    the file and writes nothing. *)
Theorem list_is_sorted_and_stable req w :
  method req = GET -> route_of (path req) = RPosts ->
  public_dir w !! join_path (path req) = None ->
  exists posts,
    (app req w).1 = res_json 200 (JArr (map json_of_post posts))
    /\ posts ≡ₚ posts_file w
    /\ Sorted (fun a b => id b <= id a) posts
    /\ (forall n, List.filter (fun p => id p =? n) posts
                  = List.filter (fun p => id p =? n) (posts_file w))
    /\ posts_file (app req w).2 = posts_file w
    /\ uploads_dir (app req w).2 = uploads_dir w
    /\ fs_log (app req w).2 = ReadPosts :: fs_log w.
Proof.
  intros Hm Hr Hpub. rewrite (app_list _ _ Hm Hr Hpub), get_posts_run.
  exists (sort newest_first (posts_file w)). cbn [fst snd].
  split; [done|]. split; [apply sort_perm|].
  split; [apply sort_newest_first_sorted|].
  split; [intros n; apply sort_stable|]. done.
Qed.

Lemma list_is_sorted_and_stable_witness :
  let req := {| method := GET; path := ["api"; "posts"]; authorization := None;
                body := BodyObject []; file_part := None |} in
  method req = GET /\ route_of (path req) = RPosts
  /\ public_dir world2 !! join_path (path req) = None
  /\ exists posts,
       (app req world2).1 = res_json 200 (JArr (map json_of_post posts))
       /\ posts ≡ₚ posts_file world2
       /\ Sorted (fun a b => id b <= id a) posts
       /\ (forall n, List.filter (fun p => id p =? n) posts
                     = List.filter (fun p => id p =? n) (posts_file world2))
       /\ posts_file (app req world2).2 = posts_file world2
       /\ uploads_dir (app req world2).2 = uploads_dir world2
       /\ fs_log (app req world2).2 = ReadPosts :: fs_log world2.
Proof.
  intros req.
  assert (method req = GET) as H1 by reflexivity.
  assert (route_of (path req) = RPosts) as H2 by reflexivity.
  assert (public_dir world2 !! join_path (path req) = None) as H3 by reflexivity.
  exact (conj H1 (conj H2 (conj H3 (list_is_sorted_and_stable req world2 H1 H2 H3)))).
Defined.

(** ** One post *)

Lemma get_post_run rid req w :
  get_post rid req w
  = (match find (id_matches rid) (posts_file w) with
     | Some post => res_json 200 (json_of_post post)
     | None => res_end 404
     end, log_event ReadPosts w).
Proof. unfold get_post. run_M. by destruct (find _ _). Qed.

Lemma find_ext {A} (f g : A -> bool) l :
  (forall x, f x = g x) -> find f l = find g l.
Proof. intros E. induction l as [|x l IH]; cbn; [done|]. by rewrite E, IH. Qed.

Lemma findIndex_ext {A} (f g : A -> bool) l :
  (forall x, f x = g x) -> findIndex f l = findIndex g l.
Proof. intros E. induction l as [|x l IH]; cbn; [done|]. by rewrite E, IH. Qed.

Lemma id_matches_decimal n p :
  0 <= n < 2 ^ 53 -> id_matches (Number_toString n) p = (id p =? n).
Proof.
  intros Hn. unfold id_matches.
  pose proof (loose_eq_decimal (id p) n Hn) as H.
  destruct (Z.eqb_spec (id p) n) as [E|E]; [by apply H|].
  destruct (JsNumber.loose_eq _ _); [|done]. by destruct E; apply H.
Qed.

(** X2.  Under the decimal text of a number below 2^53 the three routes of
    [/api/posts/:id] select by equality of ids: [GET] answers the first
    post of the file with that id, [PUT] looks for the same post, and
    [DELETE] keeps the posts of every other id. *)
Theorem decimal_id_selects_by_equality n req w :
  0 <= n < 2 ^ 53 ->
  let rid := Number_toString n in
  (get_post rid req w).1
  = match find (fun p => id p =? n) (posts_file w) with
    | Some post => res_json 200 (json_of_post post)
    | None => res_end 404
    end
  /\ findIndex (id_matches rid) (posts_file w)
     = findIndex (fun p => id p =? n) (posts_file w)
  /\ posts_file (delete_post rid req w).2
     = List.filter (fun p => negb (id p =? n)) (posts_file w).
Proof.
  intros Hn rid. rewrite get_post_run. cbn [fst].
  rewrite (find_ext (id_matches rid) (fun p => id p =? n))
    by (intros p; by apply id_matches_decimal).
  split; [done|].
  split; [apply findIndex_ext; intros p; by apply id_matches_decimal|].
  destruct (delete_post_run rid req w) as (_ & -> & _).
  apply filter_ext. intros p. f_equal. by apply id_matches_decimal.
Qed.

Lemma decimal_id_selects_by_equality_witness :
  let req := get_unknown in
  let n := 1699999980000 in
  let rid := Number_toString n in
  0 <= n < 2 ^ 53
  /\ (get_post rid req world2).1
     = match find (fun p => id p =? n) (posts_file world2) with
       | Some post => res_json 200 (json_of_post post)
       | None => res_end 404
       end
  /\ findIndex (id_matches rid) (posts_file world2)
     = findIndex (fun p => id p =? n) (posts_file world2)
  /\ posts_file (delete_post rid req world2).2
     = List.filter (fun p => negb (id p =? n)) (posts_file world2).
Proof.
  intros req n rid.
  assert (0 <= n < 2 ^ 53) as H1 by (vm_compute; split; [discriminate | reflexivity]).
  exact (conj H1 (decimal_id_selects_by_equality n req world2 H1)).
Defined.

(** ** What a request does to the world *)

Lemma effect_refl w : request_effect w w.
Proof. repeat split; [lia | by left]. Qed.

Lemma effect_read w : request_effect w (log_event ReadPosts w).
Proof. repeat split; [cbn; lia | by left]. Qed.

Lemma effect_tick w w' : request_effect (tick w) w' -> request_effect w w'.
Proof.
  intros [(Hc & Hr & Hp & Ht) Hs]. cbn in *. split; [repeat split; try done; lia|].
  destruct Hs as [Hs | [(post & n & Hs & Hid & Hn) | [Hs | Hs]]].
  - by left.
  - right; left. exists post, n. cbn in *. repeat split; [done..|lia|lia].
  - right; right; left. done.
  - right; right; right. done.
Qed.

Lemma authMiddleware_effect req next w :
  request_effect (tick w) (next (tick w)).2 ->
  request_effect w (authMiddleware req next w).2.
Proof.
  intros Hn. destruct (auth_passes req w) eqn:E.
  - rewrite authMiddleware_pass by done. by apply effect_tick.
  - destruct (authMiddleware_fail req next w E) as (s & w' & -> & [-> | ->]).
    + apply effect_refl.
    + apply effect_tick, effect_refl.
Qed.

Lemma post_login_effect req w : request_effect w (post_login req w).2.
Proof.
  unfold post_login. destruct (negb _); [apply effect_refl|].
  run_M. apply effect_tick, effect_refl.
Qed.

Lemma post_posts_effect req w : request_effect w (post_posts req w).2.
Proof.
  destruct (truthy (body_prop (body req) "title")) eqn:Ht.
  - destruct (post_posts_run req w Ht) as (_ & Hs & _).
    unfold post_posts in *. rewrite Ht in *. revert Hs. run_M. intros _.
    split; [repeat split; cbn; lia|].
    right; left. eexists _, (ticks w). cbn. repeat split; lia.
  - rewrite post_posts_refused by done. apply effect_refl.
Qed.

Lemma put_post_effect rid req w : request_effect w (put_post rid req w).2.
Proof.
  unfold put_post. run_M. destruct (findIndex _ _) as [i|]; cbn.
  - split; [repeat split; cbn; lia|].
    right; right; left. by eexists _, i.
  - apply effect_read.
Qed.

Lemma delete_post_effect rid req w : request_effect w (delete_post rid req w).2.
Proof.
  unfold delete_post. run_M. split; [repeat split; cbn; lia|].
  right; right; right. by eexists.
Qed.

Lemma post_upload_effect req w :
  request_effect w (post_upload req w).2
  /\ posts_file (post_upload req w).2 = posts_file w.
Proof.
  unfold post_upload, upload_single, storage_filename.
  destruct (file_part req) as [part|]; [|split; [apply effect_refl | done]].
  destruct (String.eqb _ EmptyString); [split; [apply effect_refl | done]|].
  destruct (negb _); [split; [apply effect_refl | done]|].
  unfold write_upload, remove_upload, Date_now, Math_random, mbind, M_bind, mret, M_ret.
  cbn [clock ticks random draws].
  destruct (UPLOAD_LIMIT <? _); cbn;
    (split; [split; [repeat split; cbn; lia | by left] | done]).
Qed.

(** Every request leaves the environment as it is, and changes the
    collection in one of the four ways of [store_change]. *)
Lemma app_effect req w : request_effect w (app req w).2.
Proof.
  unfold app. rewrite bind_run.
  destruct (serve_static_cases req w) as [-> | (data & _ & ->)]; cbn [fst snd];
    [|apply effect_refl].
  destruct (method req), (route_of (path req)) as [| |rid| |];
    try apply effect_refl; try apply authMiddleware_effect;
    try apply post_login_effect; try apply effect_read;
    try apply post_posts_effect; try apply put_post_effect;
    try apply delete_post_effect; try apply post_upload_effect.
  rewrite get_post_run. apply effect_read.
Qed.

(** ** The order of the collection *)

Lemma strictly_alter f i l :
  (forall p, id (f p) = id p) ->
  newest_first_strictly l -> newest_first_strictly (alter f i l).
Proof.
  intros Hf Hl. revert i. induction Hl as [|a l Hl IH Ha]; intros i; [constructor|].
  destruct i as [|i]; cbn.
  - constructor; [done|]. eapply Forall_impl; [exact Ha|]. cbn. intros p. by rewrite Hf.
  - constructor; [apply IH|]. apply Forall_alter; [done|].
    intros p _. by rewrite Hf.
Qed.

Lemma strictly_filter g l :
  newest_first_strictly l -> newest_first_strictly (List.filter g l).
Proof.
  induction 1 as [|a l Hl IH Ha]; cbn; [constructor|].
  destruct (g a); [|done]. constructor; [done|].
  rewrite List.Forall_forall in *. intros p [Hp _]%filter_In. by apply Ha.
Qed.

Lemma strictly_NoDup l : newest_first_strictly l -> NoDup (map id l).
Proof.
  induction 1 as [|a l Hl IH Ha]; cbn; constructor; [|done].
  intros (p & E & Hp)%list_elem_of_fmap.
  rewrite Forall_forall in Ha. specialize (Ha p Hp). cbn in Ha. lia.
Qed.

Lemma strictly_sorted l : newest_first_strictly l -> sort newest_first l = l.
Proof.
  induction 1 as [|a l Hl IH Ha]; [done|].
  rewrite sort_first, IH; [done|].
  eapply Forall_impl; [exact Ha|]. unfold newest_first. cbn. lia.
Qed.

Lemma ids_alter (P : Z -> Prop) f i l :
  (forall p, id (f p) = id p) ->
  Forall (fun p => P (id p)) l -> Forall (fun p => P (id p)) (alter f i l).
Proof.
  intros Hf Hl. apply Forall_alter; [done|]. intros p _. by rewrite Hf.
Qed.

Lemma ids_filter (P : Z -> Prop) g l :
  Forall (fun p => P (id p)) l -> Forall (fun p => P (id p)) (List.filter g l).
Proof.
  rewrite !List.Forall_forall. intros Hl p [Hp _]%filter_In. by apply Hl.
Qed.

(** One request keeps the order. *)
Lemma app_keeps_order req w :
  increasing (clock w) ->
  newest_first_strictly (posts_file w) /\ ids_are_past w ->
  newest_first_strictly (posts_file (app req w).2) /\ ids_are_past (app req w).2.
Proof.
  intros Hinc [Hs Hp].
  destruct (app_effect req w) as [(Hc & _ & _ & Ht) Hch].
  unfold ids_are_past in *. rewrite Hc.
  assert (Forall (fun p => forall n, (ticks (app req w).2 <= n)%nat -> id p < clock w n)
            (posts_file w)) as Hp'.
  { eapply Forall_impl; [exact Hp|]. cbn. intros p H n Hn. apply H. lia. }
  destruct Hch as [-> | [(post & n & -> & Hid & Hn) | [(f & i & -> & Hf) | (g & ->)]]].
  - done.
  - split.
    + constructor; [done|]. eapply Forall_impl; [exact Hp|]. cbn.
      intros p H. rewrite Hid. apply H. lia.
    + constructor; [|done]. intros m Hm. rewrite Hid. apply Hinc. lia.
  - split; [by apply strictly_alter|].
    by apply (ids_alter (fun x => forall n, (ticks (app req w).2 <= n)%nat -> x < clock w n)).
  - split; [by apply strictly_filter|].
    by apply (ids_filter (fun x => forall n, (ticks (app req w).2 <= n)%nat -> x < clock w n)).
Qed.

Lemma serve_clock reqs w : clock (serve reqs w) = clock w.
Proof.
  revert w. induction reqs as [|req reqs IH]; intros w; [done|].
  cbn. rewrite IH. by destruct (app_effect req w) as [(-> & _) _].
Qed.

(** X6.  With a clock that advances between any two reads, and a collection
    that is empty at first, whatever requests the server answers, the ids
    of the stored posts decrease strictly from the front: no two posts
    share an id, and the list is the file as it is. *)
Theorem ids_stay_distinct_and_ordered reqs w :
  increasing (clock w) -> posts_file w = [] ->
  let w' := serve reqs w in
  newest_first_strictly (posts_file w')
  /\ NoDup (map id (posts_file w'))
  /\ forall req, (get_posts req w').1 = res_json 200 (JArr (map json_of_post (posts_file w'))).
Proof.
  intros Hinc Hempty w'.
  assert (newest_first_strictly (posts_file w') /\ ids_are_past w') as [Hs _].
  { subst w'.
    assert (newest_first_strictly (posts_file w) /\ ids_are_past w) as Hw
      by (unfold ids_are_past; rewrite Hempty; split; constructor).
    clear Hempty. revert w Hinc Hw.
    induction reqs as [|req reqs IH]; intros w Hinc Hw; [done|].
    cbn. apply IH; [|by apply app_keeps_order].
    by destruct (app_effect req w) as [(-> & _) _]. }
  split; [done|]. split; [by apply strictly_NoDup|].
  intros req. by rewrite get_posts_run, strictly_sorted.
Qed.

Lemma ids_stay_distinct_and_ordered_witness :
  let create := authorized POST ["api"; "posts"] (BodyObject [("title", JStr "Hello")]) None in
  let remove := authorized DELETE ["api"; "posts"; "1700000003000"] (BodyObject []) None in
  let reqs := [login_request; create; create; remove; create] in
  let w' := serve reqs world0 in
  increasing (clock world0) /\ posts_file world0 = []
  /\ newest_first_strictly (posts_file w')
  /\ NoDup (map id (posts_file w'))
  /\ forall req, (get_posts req w').1
                 = res_json 200 (JArr (map json_of_post (posts_file w'))).
Proof.
  intros create remove reqs w'.
  assert (increasing (clock world0)) as H1
    by (intros i j Hij; cbn; unfold clock0; lia).
  assert (posts_file world0 = []) as H2 by reflexivity.
  exact (conj H1 (conj H2 (ids_stay_distinct_and_ordered reqs world0 H1 H2))).
Defined.

(** ** A post after a create, an update and a delete *)

Lemma find_alter {A} (g : A -> bool) (f : A -> A) l i :
  (forall x, g (f x) = g x) ->
  findIndex g l = Some i -> find g (alter f i l) = f <$> l !! i.
Proof.
  intros Hg. revert i. induction l as [|x l IH]; intros i; cbn; [done|].
  destruct (g x) eqn:Hx.
  - intros [= <-]. cbn. by rewrite Hg, Hx.
  - destruct (findIndex g l) as [k|]; cbn; [|done].
    intros [= <-]. cbn. rewrite Hx. by apply IH.
Qed.

Lemma find_none {A} (g : A -> bool) l :
  Forall (fun x => g x = false) l -> find g l = None.
Proof. induction 1 as [|x l Hx _ IH]; cbn; [done|]. by rewrite Hx. Qed.

Lemma json_of_post_id p : get_prop (json_of_post p) "id" = Some (JNum (id p)).
Proof. by destruct p as [n [t|] [c|] ca [u|]]. Qed.

(** X3.  The post a create answers with is the one [GET /api/posts/:id]
    answers with under the id of that answer, written in decimal digits:
    the new post is in front of any older post of the same id. *)
Theorem created_post_is_found req req' w :
  truthy (body_prop (body req) "title") = true ->
  method req = POST -> route_of (path req) = RPosts -> auth_passes req w = true ->
  0 <= clock w (S (ticks w)) < 2 ^ 53 ->
  method req' = GET ->
  route_of (path req') = RPost (Number_toString (clock w (S (ticks w)))) ->
  public_dir w !! join_path (path req') = None ->
  (exists v, (app req w).1 = res_json 200 v
             /\ get_prop v "id" = Some (JNum (clock w (S (ticks w)))))
  /\ (app req' (app req w).2).1 = (app req w).1.
Proof.
  intros Ht Hm Hr Ha Hid Hm' Hr' Hpub.
  destruct (app_effect req w) as [(_ & _ & Hp & _) _].
  rewrite (app_get req' _ _ Hm' Hr') by (by rewrite Hp).
  rewrite (app_create _ _ Hm Hr Ha).
  destruct (post_posts_run req (tick w) Ht) as (E1 & E2 & _).
  rewrite get_post_run, E2, E1. cbn [fst find].
  change (clock (tick w) (ticks (tick w))) with (clock w (S (ticks w))).
  split; [eexists; split; [reflexivity | by rewrite json_of_post_id]|].
  rewrite id_matches_decimal by done. cbn [id]. by rewrite Z.eqb_refl.
Qed.

Lemma created_post_is_found_witness :
  let req := authorized POST ["api"; "posts"] (BodyObject [("title", JStr "Hello")]) None in
  let req' := {| method := GET; path := ["api"; "posts"; "1700000001000"];
                 authorization := None; body := BodyObject []; file_part := None |} in
  truthy (body_prop (body req) "title") = true
  /\ method req = POST /\ route_of (path req) = RPosts
  /\ auth_passes req world2 = true
  /\ 0 <= clock world2 (S (ticks world2)) < 2 ^ 53
  /\ method req' = GET
  /\ route_of (path req') = RPost (Number_toString (clock world2 (S (ticks world2))))
  /\ public_dir world2 !! join_path (path req') = None
  /\ (exists v, (app req world2).1 = res_json 200 v
                /\ get_prop v "id" = Some (JNum (clock world2 (S (ticks world2)))))
  /\ (app req' (app req world2).2).1 = (app req world2).1.
Proof.
  intros req req'.
  assert (truthy (body_prop (body req) "title") = true) as H1 by reflexivity.
  assert (method req = POST) as H2 by reflexivity.
  assert (route_of (path req) = RPosts) as H3 by reflexivity.
  assert (auth_passes req world2 = true) as H4 by (vm_compute; reflexivity).
  assert (0 <= clock world2 (S (ticks world2)) < 2 ^ 53) as H5
    by (vm_compute; split; [discriminate | reflexivity]).
  assert (method req' = GET) as H6 by reflexivity.
  assert (route_of (path req')
          = RPost (Number_toString (clock world2 (S (ticks world2))))) as H7
    by (vm_compute; reflexivity).
  assert (public_dir world2 !! join_path (path req') = None) as H8 by reflexivity.
  exact (conj H1 (conj H2 (conj H3 (conj H4 (conj H5 (conj H6 (conj H7 (conj H8
           (created_post_is_found req req' world2 H1 H2 H3 H4 H5 H6 H7 H8))))))))).
Defined.

(** X4.  After an update, [GET /api/posts/:id] under the same id text answers
    with the updated post, the one the update answered with. *)
Theorem updated_post_is_found rid req req' w p :
  p ∈ posts_file w -> matches rid p ->
  method req = PUT -> route_of (path req) = RPost rid -> auth_passes req w = true ->
  method req' = GET -> route_of (path req') = RPost rid ->
  public_dir w !! join_path (path req') = None ->
  status (app req w).1 = 200
  /\ (app req' (app req w).2).1 = (app req w).1.
Proof.
  intros Hin Hp Hm Hr Ha Hm' Hr' Hpub.
  destruct (app_effect req w) as [(_ & _ & Hpd & _) _].
  rewrite (app_get req' _ _ Hm' Hr') by (by rewrite Hpd).
  rewrite (app_update _ _ _ Hm Hr Ha).
  destruct (findIndex_exists (id_matches rid) (posts_file w) p Hin Hp) as [i Hi].
  change (posts_file w) with (posts_file (tick w)) in Hi.
  destruct (put_post_found rid req (tick w) i Hi) as (old & Hold & _ & E1 & E2 & _ & _).
  rewrite get_post_run, E2, E1. cbn [fst status res_json].
  split; [done|].
  rewrite (find_alter _ _ _ i) by done. by rewrite Hold.
Qed.

Lemma updated_post_is_found_witness :
  let rid := "1699999980000" in
  let req := authorized PUT ["api"; "posts"; rid]
               (BodyObject [("title", JStr "Edited")]) None in
  let req' := {| method := GET; path := ["api"; "posts"; rid];
                 authorization := None; body := BodyObject []; file_part := None |} in
  post2 ∈ posts_file world2 /\ matches rid post2
  /\ method req = PUT /\ route_of (path req) = RPost rid
  /\ auth_passes req world2 = true
  /\ method req' = GET /\ route_of (path req') = RPost rid
  /\ public_dir world2 !! join_path (path req') = None
  /\ status (app req world2).1 = 200
  /\ (app req' (app req world2).2).1 = (app req world2).1.
Proof.
  intros rid req req'.
  assert (post2 ∈ posts_file world2) as H1 by (cbn; set_solver).
  assert (matches rid post2) as H2 by (vm_compute; reflexivity).
  assert (method req = PUT) as H3 by reflexivity.
  assert (route_of (path req) = RPost rid) as H4 by reflexivity.
  assert (auth_passes req world2 = true) as H5 by (vm_compute; reflexivity).
  assert (method req' = GET) as H6 by reflexivity.
  assert (route_of (path req') = RPost rid) as H7 by reflexivity.
  assert (public_dir world2 !! join_path (path req') = None) as H8 by reflexivity.
  exact (conj H1 (conj H2 (conj H3 (conj H4 (conj H5 (conj H6 (conj H7 (conj H8
           (updated_post_is_found rid req req' world2 post2
              H1 H2 H3 H4 H5 H6 H7 H8))))))))).
Defined.

(** X5.  After a delete, the same id text finds nothing: [GET] and [PUT
    /api/posts/:id] answer 404, and the posts that are left are the posts
    that the text did not match. *)
Theorem deleted_post_is_gone rid req req' w :
  method req = DELETE -> route_of (path req) = RPost rid -> auth_passes req w = true ->
  route_of (path req') = RPost rid ->
  public_dir w !! join_path (path req') = None ->
  let w1 := (app req w).2 in
  (method req' = GET -> (app req' w1).1 = res_end 404)
  /\ (method req' = PUT -> auth_passes req' w1 = true ->
      (app req' w1).1 = res_end 404 /\ posts_file (app req' w1).2 = posts_file w1)
  /\ (forall p, In p (posts_file w1) <-> In p (posts_file w) /\ ~ matches rid p).
Proof.
  intros Hm Hr Ha Hr' Hpub w1.
  destruct (app_effect req w) as [(_ & _ & Hpd & _) _]. fold w1 in Hpd.
  assert (posts_file w1 = List.filter (fun p => negb (id_matches rid p)) (posts_file w))
    as Hw1.
  { subst w1. rewrite (app_delete _ _ _ Hm Hr Ha).
    by destruct (delete_post_run rid req (tick w)) as (_ & -> & _). }
  assert (Forall (fun p => ~ matches rid p) (posts_file w1)) as Hgone
    by (rewrite Hw1; apply filter_removes).
  split; [|split].
  - intros Hm'. rewrite (app_get req' _ _ Hm' Hr') by (by rewrite Hpd).
    rewrite get_post_run. cbn [fst]. rewrite find_none; [done|].
    eapply Forall_impl; [exact Hgone|]. unfold matches. cbn. intros p.
    by destruct (id_matches rid p).
  - intros Hm' Ha'. rewrite (app_update _ _ _ Hm' Hr' Ha').
    rewrite put_post_unknown by done. done.
  - intros p. rewrite Hw1, filter_In. unfold matches.
    by destruct (id_matches rid p); intuition.
Qed.

Lemma deleted_post_is_gone_witness :
  let rid := "1699999990000" in
  let req := authorized DELETE ["api"; "posts"; rid] (BodyObject []) None in
  let req' := {| method := GET; path := ["api"; "posts"; rid];
                 authorization := None; body := BodyObject []; file_part := None |} in
  let w1 := (app req world2).2 in
  method req = DELETE /\ route_of (path req) = RPost rid
  /\ auth_passes req world2 = true
  /\ route_of (path req') = RPost rid
  /\ public_dir world2 !! join_path (path req') = None
  /\ (method req' = GET -> (app req' w1).1 = res_end 404)
  /\ (method req' = PUT -> auth_passes req' w1 = true ->
      (app req' w1).1 = res_end 404 /\ posts_file (app req' w1).2 = posts_file w1)
  /\ (forall p, In p (posts_file w1) <-> In p (posts_file world2) /\ ~ matches rid p).
Proof.
  intros rid req req' w1.
  assert (method req = DELETE) as H1 by reflexivity.
  assert (route_of (path req) = RPost rid) as H2 by reflexivity.
  assert (auth_passes req world2 = true) as H3 by (vm_compute; reflexivity).
  assert (route_of (path req') = RPost rid) as H4 by reflexivity.
  assert (public_dir world2 !! join_path (path req') = None) as H5 by reflexivity.
  exact (conj H1 (conj H2 (conj H3 (conj H4 (conj H5
           (deleted_post_is_gone rid req req' world2 H1 H2 H3 H4 H5)))))).
Defined.

(** ** Requests without a signed token *)

Lemma unsigned_gate req next w :
  ~ carries_signed_token (Readable req) ->
  authMiddleware req next w = (res_json 401 (msg "未登录"), w)
  \/ authMiddleware req next w = (res_json 401 (msg "登录失效"), tick w).
Proof.
  intros Hn. destruct (authMiddleware_answers req next w) as [E | [E | [Hs _]]];
    [by left | by right | by destruct Hn].
Qed.

(** X7.  A request that carries no token signed with the secret of the
    server changes no file: the collection and [uploads/] are the ones
    before it, and the collection is read at most; on a protected route
    it is answered 401 with one of the two messages of the gate and no
    file is touched.  So is a request the framework refuses. *)
Theorem requests_without_signed_token_write_nothing inc w :
  ~ carries_signed_token inc ->
  posts_file (server inc w).2 = posts_file w
  /\ uploads_dir (server inc w).2 = uploads_dir w
  /\ (fs_log (server inc w).2 = fs_log w
      \/ fs_log (server inc w).2 = ReadPosts :: fs_log w)
  /\ (forall req, inc = Readable req ->
        protected_route (method req) (route_of (path req)) = true ->
        ((server inc w).1 = res_json 401 (msg "未登录")
         \/ (server inc w).1 = res_json 401 (msg "登录失效"))
        /\ fs_log (server inc w).2 = fs_log w).
Proof.
  intros Hn. destruct inc as [req|rf]; cbn [server];
    [|split_and!; [done | done | by left | by intros req [=]]].
  assert (forall next, let r := authMiddleware req next w in
            posts_file r.2 = posts_file w /\ uploads_dir r.2 = uploads_dir w
            /\ fs_log r.2 = fs_log w
            /\ (r.1 = res_json 401 (msg "未登录") \/ r.1 = res_json 401 (msg "登录失效")))
    as Hgate.
  { intros next. cbv zeta. destruct (unsigned_gate req next w Hn) as [-> | ->];
      [split_and!; try done; by left | split_and!; try done; by right]. }
  unfold app. rewrite bind_run.
  destruct (serve_static_cases req w) as [-> | (data & Hg & ->)]; cbn [fst snd].
  - destruct (method req) eqn:Hm, (route_of (path req)) as [| |rid| |] eqn:Hr;
      try (split_and!; [done | done | by left
                       | intros ? [= <-]; rewrite Hm, Hr; by cbn]);
      try (match goal with
           | |- context [authMiddleware req ?next w] =>
               destruct (Hgate next) as (E1 & E2 & E3 & E4)
           end; split_and!; [done | done | by left | by intros ? [= <-] _]).
    + rewrite get_posts_run. split_and!; [done | done | by right
                                         | intros ? [= <-]; rewrite Hm, Hr; by cbn].
    + rewrite get_post_run. split_and!; [done | done | by right
                                        | intros ? [= <-]; rewrite Hm, Hr; by cbn].
    + unfold post_login.
      destruct (negb _); run_M;
        (split_and!; [done | done | by left
                     | intros ? [= <-]; rewrite Hm, Hr; by cbn]).
  - split_and!; [done | done | by left | intros ? [= <-]; rewrite Hg; by cbn].
Qed.

Lemma requests_without_signed_token_write_nothing_witness :
  let req := {| method := DELETE; path := ["api"; "posts"; "1699999990000"];
                authorization := Some "Bearer forged"; body := BodyObject [];
                file_part := None |} in
  let inc := Readable req in
  ~ carries_signed_token inc
  /\ posts_file (server inc world2).2 = posts_file world2
  /\ uploads_dir (server inc world2).2 = uploads_dir world2
  /\ (fs_log (server inc world2).2 = fs_log world2
      \/ fs_log (server inc world2).2 = ReadPosts :: fs_log world2)
  /\ (forall req0, inc = Readable req0 ->
        protected_route (method req0) (route_of (path req0)) = true ->
        ((server inc world2).1 = res_json 401 (msg "未登录")
         \/ (server inc world2).1 = res_json 401 (msg "登录失效"))
        /\ fs_log (server inc world2).2 = fs_log world2).
Proof.
  intros req inc.
  assert (~ carries_signed_token inc) as H1.
  { intros (req0 & token & [= <-] & [= <-] & Hs%signed_has_dot).
    vm_compute in Hs. repeat (destruct Hs as [Hs | Hs]; [discriminate|]). destruct Hs. }
  exact (conj H1 (requests_without_signed_token_write_nothing inc world2 H1)).
Defined.

(** ** The extension of a file name *)

Lemma scan_of_cons k c l :
  scan_of k (c :: l) = Path.scan_step (scan_of (S k) l) (Z.of_nat k, c).
Proof. unfold scan_of. cbn. by rewrite fold_left_app. Qed.

Lemma code_is c n : 0 <= n < 256 -> (Chars.code c =? n) = Ascii.eqb c (Chars.of_code n).
Proof.
  intros Hn. destruct (Z.eqb_spec (Chars.code c) n) as [E|E].
  - by rewrite <- E, of_code_code, Ascii.eqb_refl.
  - destruct (Ascii.eqb_spec c (Chars.of_code n)) as [->|]; [|done].
    by rewrite code_of_code in E.
Qed.

Lemma scan_of_scanned k l : scanned k l (scan_of k l).
Proof.
  revert k. induction l as [|c l IH]; intros k; [by left|].
  rewrite scan_of_cons. specialize (IH (S k)).
  remember (scan_of (S k) l) as st eqn:Hst. clear Hst.
  unfold Path.scan_step.
  destruct IH as [[Hall ->]
                 | (pre & body & slashes & -> & Hne & Hns & Hsl & He & Hgo & Hstopped & Hdot)].
  - (* only slashes so far *)
    cbn [Path.stopped scan_start]. rewrite (code_is c 47) by lia.
    change (Chars.of_code 47) with "/"%char.
    destruct (Ascii.eqb_spec c "/") as [->|Hc].
    + left. split; [by constructor | done].
    + right. exists [], [c], l. cbn [Path.end_ Path.matchedSlash Path.startDot scan_start].
      change (-1 =? -1) with true. cbv iota.
      rewrite (code_is c 46) by lia. change (Chars.of_code 46) with "."%char.
      assert (~ In "/"%char [c]) as Hn by (intros [E|[]]; by apply Hc).
      destruct (Ascii.eqb_spec c ".") as [->|Hd]; cbn;
        (split_and!; [done | done | done | done | lia | done | done |]).
      * right. exists [], []. split_and!; [done | by intros [] | cbn; lia | done].
      * left. split_and!; [done | | done]. intros [E|[]]. by apply Hd.
  - (* a part has been seen *)
    right. destruct (Path.stopped st) eqn:Hstop.
    + destruct (Hstopped eq_refl) as [Hin Hsp].
      exists (c :: pre), body, slashes. cbn [length].
      split_and!; [done | done | done | done | rewrite He; lia | by rewrite Hstop | |].
      * intros _. split; [by right | rewrite Hsp; lia].
      * destruct Hdot as [Hd | (b1 & b2 & -> & Hb2 & Hd & Hpre)]; [by left|].
        right. exists b1, b2. split_and!; [done | done | rewrite Hd; lia | done].
    + destruct (Hgo eq_refl) as (-> & Hms & Hsp). cbn [List.app length] in *.
      rewrite (code_is c 47) by lia. change (Chars.of_code 47) with "/"%char.
      destruct (Ascii.eqb_spec c "/") as [->|Hc].
      * rewrite Hms. cbn [negb]. exists ["/"%char], body, slashes.
        cbn [Path.end_ Path.stopped Path.startDot Path.startPart Path.preDotState length].
        split_and!; [done | done | done | done | rewrite He; lia | done | |].
        -- intros _. split; [by left | lia].
        -- destruct Hdot as [Hd | (b1 & b2 & -> & Hb2 & Hd & Hpre)]; [by left|].
           right. exists b1, b2. split_and!; [done | done | rewrite Hd; lia | done].
      * assert ((Path.end_ st =? -1) = false) as -> by (apply Z.eqb_neq; lia).
        rewrite (code_is c 46) by lia. change (Chars.of_code 46) with "."%char.
        assert (~ In "/"%char (c :: body)) as Hn
          by (intros [E|E]; [by apply Hc | by apply Hns]).
        exists [], (c :: body), slashes.
        destruct (Ascii.eqb_spec c ".") as [->|Hd].
        -- destruct Hdot as [(Hsd & Hnd & Hpre) | (b1 & b2 & -> & Hb2 & Hsd & Hpre)].
           ++ rewrite Hsd. change (-1 =? -1) with true. cbn.
              split_and!; [done | done | done | done | rewrite He; lia | done | done |].
              right. exists [], body. split_and!; [done | done | cbn; lia | done].
           ++ assert ((Path.startDot st =? -1) = false) as -> by (apply Z.eqb_neq; lia).
              cbn. split_and!; [done | done | done | done | rewrite He; lia | done | done |].
              right. exists ("."%char :: b1), b2.
              split_and!; [done | done | rewrite Hsd; cbn; lia |].
              cbn. by destruct (Path.preDotState st =? 1) eqn:E; [apply Z.eqb_eq in E|].
        -- cbn. split_and!; [done | done | done | done | rewrite He; lia | done | done |].
           destruct Hdot as [(Hsd & Hnd & Hpre) | (b1 & b2 & -> & Hb2 & Hsd & Hpre)].
           ++ left. rewrite Hsd. cbn. split_and!; [done | | done].
              intros [E|E]; [by apply Hd | by apply Hnd].
           ++ right. exists (c :: b1), b2.
              assert ((Path.startDot st =? -1) = false) as -> by (apply Z.eqb_neq; lia).
              split_and!; [done | done | rewrite Hsd; cbn; lia |].
              cbn. by destruct (Ascii.eqb_spec c ".").
Qed.

(** [path.extname] gives nothing, or a dot and the characters after it up
    to the end of the last part of the path: these hold no dot and no
    slash, and only slashes come after them in the path. *)
Lemma extname_shape p :
  Path.extname p = EmptyString
  \/ exists pre e post,
       Chars.chars p = pre ++ "."%char :: e ++ post
       /\ Path.extname p = Chars.text ("."%char :: e)
       /\ ~ In "."%char e /\ ~ In "/"%char e /\ Forall (eq "/"%char) post.
Proof.
  unfold Path.extname. cbv zeta. fold scan_start.
  change (fold_left Path.scan_step (rev (Path.indexed (Chars.chars p))) scan_start)
    with (scan_of 0 (Chars.chars p)).
  destruct (scan_of_scanned 0 (Chars.chars p))
    as [[_ ->] | (pre & body & slashes & El & Hne & Hns & Hsl & He & _ & _ & Hdot)];
    [by left|].
  destruct Hdot as [[Hd _] | (b1 & b2 & -> & Hb2 & Hd & _)]; [left; by rewrite Hd|].
  destruct (_ || _); [by left|]. right.
  exists (pre ++ b1), b2, slashes. rewrite He, Hd, El.
  split; [by rewrite <- !app_assoc|].
  split; [|split_and!; [done | | done]].
  - f_equal. unfold Path.slice.
    replace (Z.to_nat (Z.of_nat (0 + length pre + length b1)))
      with (length (pre ++ b1)) by (rewrite length_app; lia).
    replace (pre ++ (b1 ++ "."%char :: b2) ++ slashes)
      with ((pre ++ b1) ++ ("."%char :: b2) ++ slashes) by (by rewrite <- !app_assoc).
    rewrite drop_app_length.
    replace (Z.to_nat _) with (length ("."%char :: b2))
      by (rewrite length_app; cbn; lia).
    by rewrite take_app_length.
  - intros Hin. apply Hns. apply in_or_app. right. by right.
Qed.

Lemma last_dot_unique (b1 b2 s e : list ascii) :
  b1 ++ "."%char :: b2 = s ++ "."%char :: e ->
  ~ In "."%char b2 -> ~ In "."%char e -> b1 = s /\ b2 = e.
Proof.
  revert s. induction b1 as [|x b1 IH]; intros [|y s]; cbn; intros E Hb He.
  - by injection E as ->.
  - injection E as <- ->. destruct Hb. apply in_or_app. right. by left.
  - injection E as -> <-. destruct He. apply in_or_app. right. by left.
  - injection E as -> E. by destruct (IH s E Hb He) as [-> ->].
Qed.

(** X12.  The extension of a file name without a slash, [stem.e] where [e] has
    no dot: it is [.e], unless the name starts with its last dot or is
    [..]; and a name without a dot has no extension. *)
Theorem extname_of_file_name stem e :
  ~ In "/"%char (Chars.chars stem) -> ~ In "/"%char (Chars.chars e) ->
  ~ In "."%char (Chars.chars e) ->
  Path.extname (stem +:+ "." +:+ e)
  = (if String.eqb stem EmptyString || (String.eqb stem "." && String.eqb e EmptyString)
     then EmptyString else "." +:+ e)
  /\ Path.extname e = EmptyString.
Proof.
  intros Hs He Hd. split.
  - unfold Path.extname. cbv zeta. fold scan_start.
    change (fold_left Path.scan_step (rev (Path.indexed ?l)) scan_start)
      with (scan_of 0 l).
    assert (Chars.chars (stem +:+ "." +:+ e)
            = Chars.chars stem ++ "."%char :: Chars.chars e) as El
      by (by rewrite !chars_app).
    assert (~ In "/"%char (Chars.chars (stem +:+ "." +:+ e))) as Hns.
    { rewrite El. intros [H|[H|H]]%in_app_or; [by apply Hs | done | by apply He]. }
    destruct (scan_of_scanned 0 (Chars.chars (stem +:+ "." +:+ e)))
      as [[Hall _] | (pre & body & slashes & E & Hne & _ & Hsl & Hend & Hgo & Hstopped & Hdot)].
    { rewrite El, List.Forall_forall in Hall.
      specialize (Hall "."%char). discriminate Hall. apply in_or_app. right. by left. }
    destruct (Path.stopped _) eqn:Hstop.
    { destruct (Hstopped eq_refl) as [Hin _]. destruct Hns. rewrite E.
      apply in_or_app. by left. }
    destruct (Hgo eq_refl) as (-> & _ & Hsp). clear Hgo Hstopped.
    assert (slashes = []) as ->.
    { destruct slashes as [|x sl]; [done|]. inversion Hsl as [|? ? <- _]. destruct Hns.
      rewrite E. apply in_or_app. right. apply in_or_app. right. by left. }
    rewrite app_nil_r, app_nil_l in E. cbn [length] in *.
    destruct Hdot as [(_ & Hnd & _) | (b1 & b2 & -> & Hb2 & Hsd & Hpre)].
    { destruct Hnd. rewrite <- E, El. apply in_or_app. right. by left. }
    rewrite El in E. symmetry in E.
    destruct (last_dot_unique _ _ _ _ E Hb2 Hd) as [-> ->].
    rewrite Hend, Hsd, Hsp, Hpre. clear Hend Hsd Hsp Hpre.
    rewrite El. rewrite length_app. cbn [length].
    destruct (Chars.chars stem) as [|c r] eqn:ES.
    + apply (f_equal Chars.text) in ES. rewrite text_chars in ES. subst stem. done.
    + assert (String.eqb stem EmptyString = false) as ->.
      { apply String.eqb_neq. by intros ->. }
      cbn [orb length]. rewrite !Nat.add_0_l.
      set (a := S (length r)). set (b := (a + S (length (Chars.chars e)))%nat).
      replace (Z.of_nat a =? -1) with false by (symmetry; apply Z.eqb_neq; lia).
      replace (Z.of_nat b =? -1) with false by (symmetry; apply Z.eqb_neq; lia).
      cbn [orb].
      assert (Chars.text (Path.slice (Z.of_nat a) (Z.of_nat b)
                ((c :: r) ++ "."%char :: Chars.chars e)) = "." +:+ e) as ->.
      { unfold Path.slice.
        replace (Z.to_nat (Z.of_nat a)) with (length (c :: r)) by (cbn; lia).
        rewrite drop_app_length.
        replace (Z.to_nat _) with (length ("."%char :: Chars.chars e))
          by (subst a b; cbn; lia).
        rewrite firstn_all. cbn. by rewrite text_chars. }
      destruct (Ascii.eqb_spec c ".") as [->|Hc].
      * change (1 =? 0) with false. change (1 =? 1) with true. cbn [orb andb].
        destruct r as [|c' r].
        -- apply (f_equal Chars.text) in ES. rewrite text_chars in ES. subst stem.
           destruct e as [|x e]; [done|].
           replace (Z.of_nat a =? Z.of_nat b - 1) with false; [done|].
           symmetry. apply Z.eqb_neq. subst a b. cbn. lia.
        -- assert (String.eqb stem "." = false) as ->.
           { apply String.eqb_neq. intros ->. done. }
           cbn [andb].
           replace (Z.of_nat a =? 0 + 1) with false; [by rewrite andb_false_r|].
           symmetry. apply Z.eqb_neq. subst a. cbn [length]. lia.
      * change (-1 =? 0) with false. change (-1 =? 1) with false. cbn [orb andb].
        assert (String.eqb stem "." = false) as ->.
        { apply String.eqb_neq. intros ->. by injection ES as <- <-. }
        done.
  - unfold Path.extname. cbv zeta. fold scan_start.
    change (fold_left Path.scan_step (rev (Path.indexed ?l)) scan_start)
      with (scan_of 0 l).
    destruct (scan_of_scanned 0 (Chars.chars e))
      as [[_ ->] | (pre & body & slashes & E & _ & _ & _ & _ & _ & _ & Hdot)]; [done|].
    destruct Hdot as [(-> & _) | (b1 & b2 & -> & _)]; [done|].
    destruct Hd. rewrite E. apply in_or_app. right. apply in_or_app. left.
    apply in_or_app. right. by left.
Qed.

Lemma extname_of_file_name_witness :
  ~ In "/"%char (Chars.chars "photo.2024") /\ ~ In "/"%char (Chars.chars "png")
  /\ ~ In "."%char (Chars.chars "png")
  /\ Path.extname ("photo.2024" +:+ "." +:+ "png")
     = (if String.eqb "photo.2024" EmptyString
           || (String.eqb "photo.2024" "." && String.eqb "png" EmptyString)
        then EmptyString else "." +:+ "png")
  /\ Path.extname "png" = EmptyString.
Proof.
  assert (~ In "/"%char (Chars.chars "photo.2024")) as H1 by (cbn; intuition discriminate).
  assert (~ In "/"%char (Chars.chars "png")) as H2 by (cbn; intuition discriminate).
  assert (~ In "."%char (Chars.chars "png")) as H3 by (cbn; intuition discriminate).
  exact (conj H1 (conj H2 (conj H3 (extname_of_file_name "photo.2024" "png" H1 H2 H3)))).
Defined.

(** ** The stored file *)

Lemma digit_not_separator c : Chars.is_digit c = true -> c <> "/"%char.
Proof. intros H ->. by vm_compute in H. Qed.

Lemma hex_digit_not_separator c : is_hex_digit c -> c <> "/"%char.
Proof.
  intros (d & Hd & ->) E. apply (f_equal Chars.code) in E. revert E.
  unfold Chars.hex_digit. destruct (d <? 10); rewrite code_of_code by lia;
    vm_compute (Chars.code "/"); lia.
Qed.

Lemma storage_filename_run part w :
  storage_filename part w
  = (Number_toString (clock w (ticks w)) +:+ "-"
       +:+ slice_from 2 (unit_toString16 (random w (draws w) mod 2 ^ 53))
       +:+ Path.extname (originalname part),
     snd (Math_random (tick w))).
Proof. reflexivity. Qed.

(** X13.  The name under which the disk storage keeps a file holds no slash: it
    is one segment of a path, below [uploads/].  It starts with the digits
    of the time, so it is no dot file, and it ends with the extension of
    the original name. *)
Theorem stored_name_is_one_segment part w :
  0 <= clock w (ticks w) ->
  let name := (storage_filename part w).1 in
  ~ In "/"%char (Chars.chars name)
  /\ (exists c r, Chars.chars name = c :: r /\ Chars.is_digit c = true)
  /\ exists stem,
       name = stem +:+ Path.extname (originalname part)
       /\ Forall (fun c => Chars.is_digit c = true \/ c = "-"%char \/ is_hex_digit c)
            (Chars.chars stem).
Proof.
  intros Hnow name. subst name. rewrite storage_filename_run. cbn [fst].
  destruct (number_toString_digits _ Hnow) as (ds & -> & Hne & Hds & _).
  assert (0 <= random w (draws w) mod 2 ^ 53 < 2 ^ 53) as Hk
    by (apply Z.mod_pos_bound; lia).
  destruct (random_part_hex _ Hk) as [_ Hhex].
  set (hex := slice_from 2 (unit_toString16 (random w (draws w) mod 2 ^ 53))) in *.
  rewrite forallb_forall in Hds.
  assert (Forall (fun c => Chars.is_digit c = true \/ c = "-"%char \/ is_hex_digit c)
            (ds ++ "-"%char :: Chars.chars hex)) as Hstem.
  { apply Forall_app. split; [|constructor].
    - apply List.Forall_forall. intros c Hc. left. by apply Hds.
    - by right; left.
    - eapply Forall_impl; [exact Hhex|]. cbn. by right; right. }
  split; [|split].
  - rewrite !chars_app, chars_text.
    change (Chars.chars "-") with ["-"%char].
    rewrite !app_assoc, <- (app_assoc ds). cbn [List.app].
    intros [Hin|Hin]%in_app_or.
    + rewrite List.Forall_forall in Hstem.
      destruct (Hstem _ Hin) as [H | [H | H]];
        [by apply digit_not_separator in H | done | by apply hex_digit_not_separator in H].
    + destruct (extname_shape (originalname part))
        as [E | (pre & e & post & _ & E & _ & He & _)]; rewrite E in Hin.
      * done.
      * rewrite chars_text in Hin. destruct Hin as [Hin|Hin]; [done | by apply He].
  - destruct ds as [|c r]; [done|]. exists c. eexists.
    rewrite !chars_app, chars_text. split; [reflexivity|]. apply Hds. by left.
  - exists (Chars.text ds +:+ "-" +:+ hex).
    split; [apply chars_inj; rewrite !chars_app; by rewrite <- !app_assoc|].
    by rewrite !chars_app, chars_text.
Qed.

Lemma stored_name_is_one_segment_witness :
  let name := (storage_filename photo world0).1 in
  0 <= clock world0 (ticks world0)
  /\ ~ In "/"%char (Chars.chars name)
  /\ (exists c r, Chars.chars name = c :: r /\ Chars.is_digit c = true)
  /\ exists stem,
       name = stem +:+ Path.extname (originalname photo)
       /\ Forall (fun c => Chars.is_digit c = true \/ c = "-"%char \/ is_hex_digit c)
            (Chars.chars stem).
Proof.
  intros name.
  assert (0 <= clock world0 (ticks world0)) as H1 by (vm_compute; discriminate).
  exact (conj H1 (stored_name_is_one_segment photo world0 H1)).
Defined.

(** X14.  The file of an upload is the one that a [GET] whose path is
    [/uploads/] and the stored name gets, byte for byte, unless [public/]
    holds a file at that path: the static middleware of [public/] comes
    first.  The url of the answer is that path.  Before the upload, when
    there is no file of that name, the same [GET] falls through to the
    last middleware and is answered 404 with its message. *)
Theorem uploaded_file_is_served req req' w part :
  file_part req = Some part ->
  originalname part <> EmptyString -> fieldname part = "file" ->
  Z.of_nat (String.length (bytes part)) < UPLOAD_LIMIT ->
  method req = POST -> route_of (path req) = RUpload -> auth_passes req w = true ->
  let name := (storage_filename part (tick w)).1 in
  method req' = GET -> path req' = ["uploads"; name] ->
  public_dir w !! ("uploads/" +:+ name) = None ->
  (exists v, (app req w).1 = res_json 200 v
             /\ get_prop v "url" = Some (JStr ("/uploads/" +:+ name)))
  /\ app req' (app req w).2
     = ({| status := 200; sent := Raw (bytes part) |}, (app req w).2)
  /\ (uploads_dir w !! name = None ->
      app req' w = (res_json 404 (msg "API Not Found"), w)).
Proof.
  intros Hp Hn Hf Hs Hm Hr Ha name Hm' Hpath Hpub.
  assert (uploads_dir w !! name = None ->
          app req' w = (res_json 404 (msg "API Not Found"), w)) as Hbefore.
  { intros Hnone. unfold app. rewrite bind_run. unfold serve_static. rewrite bind_run.
    cbn [get_world fst snd]. rewrite Hm', Hpath.
    change (join_path ["uploads"; name]) with ("uploads/" +:+ name). rewrite Hpub.
    change (String.eqb "uploads" "uploads") with true. cbv iota.
    change (join_path [name]) with name. by rewrite Hnone. }
  destruct (app_effect req w) as [(_ & _ & Hpd & _) _].
  revert Hpd. rewrite (app_upload _ _ Hm Hr Ha).
  destruct (post_upload_run req (tick w) part Hp Hn Hf (Z.lt_le_incl _ _ Hs))
    as (w' & Hrun & Hdir & _). cbn zeta in *.
  rewrite Hrun. cbn [fst snd]. intros Hpd.
  split; [by eexists|]. split; [|exact Hbefore].
  unfold app. rewrite bind_run. unfold serve_static. rewrite bind_run.
  cbn [get_world fst snd]. rewrite Hm', Hpath, Hpd.
  change (join_path ["uploads"; name]) with ("uploads/" +:+ name). rewrite Hpub.
  change (String.eqb "uploads" "uploads") with true. cbv iota.
  change (join_path [name]) with name. rewrite Hdir.
  change name with (Number_toString (clock (tick w) (ticks (tick w))) +:+ "-"
       +:+ slice_from 2 (unit_toString16 (random (tick w) (draws (tick w)) mod 2 ^ 53))
       +:+ Path.extname (originalname part)).
  by rewrite lookup_insert_eq.
Qed.

Lemma uploaded_file_is_served_witness :
  let name := (storage_filename photo (tick world0)).1 in
  let req' := {| method := GET; path := ["uploads"; name]; authorization := None;
                 body := BodyObject []; file_part := None |} in
  file_part upload_photo = Some photo
  /\ originalname photo <> EmptyString /\ fieldname photo = "file"
  /\ Z.of_nat (String.length (bytes photo)) < UPLOAD_LIMIT
  /\ method upload_photo = POST /\ route_of (path upload_photo) = RUpload
  /\ auth_passes upload_photo world0 = true
  /\ method req' = GET /\ path req' = ["uploads"; name]
  /\ public_dir world0 !! ("uploads/" +:+ name) = None
  /\ (exists v, (app upload_photo world0).1 = res_json 200 v
                /\ get_prop v "url" = Some (JStr ("/uploads/" +:+ name)))
  /\ app req' (app upload_photo world0).2
     = ({| status := 200; sent := Raw (bytes photo) |}, (app upload_photo world0).2)
  /\ (uploads_dir world0 !! name = None ->
      app req' world0 = (res_json 404 (msg "API Not Found"), world0)).
Proof.
  intros name req'.
  assert (file_part upload_photo = Some photo) as H1 by reflexivity.
  assert (originalname photo <> EmptyString) as H2 by discriminate.
  assert (fieldname photo = "file") as H3 by reflexivity.
  assert (Z.of_nat (String.length (bytes photo)) < UPLOAD_LIMIT) as H4
    by (vm_compute; reflexivity).
  assert (method upload_photo = POST) as H5 by reflexivity.
  assert (route_of (path upload_photo) = RUpload) as H6 by reflexivity.
  assert (auth_passes upload_photo world0 = true) as H7 by (vm_compute; reflexivity).
  assert (method req' = GET) as H8 by reflexivity.
  assert (path req' = ["uploads"; name]) as H9 by reflexivity.
  assert (public_dir world0 !! ("uploads/" +:+ name) = None) as H10 by reflexivity.
  exact (conj H1 (conj H2 (conj H3 (conj H4 (conj H5 (conj H6 (conj H7 (conj H8
           (conj H9 (conj H10
              (uploaded_file_is_served upload_photo req' world0 photo
                 H1 H2 H3 H4 H5 H6 H7 H8 H9 H10))))))))))).
Defined.

(** X16.  An upload over the limit is answered 500 by the error handler of the
    framework; the file that was being written is removed, so that no
    file is left under its name, and the collection is not touched. *)
Theorem oversized_upload_is_refused req w part :
  file_part req = Some part ->
  originalname part <> EmptyString -> fieldname part = "file" ->
  UPLOAD_LIMIT < Z.of_nat (String.length (bytes part)) ->
  method req = POST -> route_of (path req) = RUpload -> auth_passes req w = true ->
  let name := (storage_filename part (tick w)).1 in
  (app req w).1 = {| status := 500; sent := ErrorPage |}
  /\ uploads_dir (app req w).2 = delete name (uploads_dir w)
  /\ uploads_dir (app req w).2 !! name = None
  /\ posts_file (app req w).2 = posts_file w
  /\ fs_log (app req w).2 = RemoveUpload name :: WriteUpload name :: fs_log w.
Proof.
  intros Hp Hn Hf Hs Hm Hr Ha name.
  rewrite (app_upload _ _ Hm Hr Ha).
  unfold post_upload, upload_single. rewrite Hp, Hf.
  destruct (String.eqb_spec (originalname part) EmptyString); [done|].
  change (negb (String.eqb "file" "file")) with false. cbv iota.
  rewrite !bind_run, storage_filename_run. cbn [fst snd].
  fold name. unfold Math_random. cbn [snd].
  destruct (Z.ltb_spec UPLOAD_LIMIT (Z.of_nat (String.length (bytes part)))); [|lia].
  unfold write_upload, remove_upload, mbind, M_bind, mret, M_ret.
  cbn [fst snd uploads_dir posts_file fs_log log_event tick Date_now].
  rewrite delete_insert_eq. split_and!; try done. apply lookup_delete_eq.
Qed.

Lemma auth_passes_header req req' w :
  authorization req = authorization req' -> auth_passes req w = auth_passes req' w.
Proof. unfold auth_passes, bearer_token. by intros ->. Qed.

Lemma oversized_upload_is_refused_witness :
  let req := authorized POST ["api"; "upload"] (BodyObject []) (Some big_file) in
  let name := (storage_filename big_file (tick world0)).1 in
  file_part req = Some big_file
  /\ originalname big_file <> EmptyString /\ fieldname big_file = "file"
  /\ UPLOAD_LIMIT < Z.of_nat (String.length (bytes big_file))
  /\ method req = POST /\ route_of (path req) = RUpload
  /\ auth_passes req world0 = true
  /\ (app req world0).1 = {| status := 500; sent := ErrorPage |}
  /\ uploads_dir (app req world0).2 = delete name (uploads_dir world0)
  /\ uploads_dir (app req world0).2 !! name = None
  /\ posts_file (app req world0).2 = posts_file world0
  /\ fs_log (app req world0).2 = RemoveUpload name :: WriteUpload name :: fs_log world0.
Proof.
  intros req name.
  assert (file_part req = Some big_file) as H1 by reflexivity.
  assert (originalname big_file <> EmptyString) as H2 by discriminate.
  assert (fieldname big_file = "file") as H3 by reflexivity.
  assert (UPLOAD_LIMIT < Z.of_nat (String.length (bytes big_file))) as H4.
  { unfold big_file. cbn [bytes]. rewrite length_text, repeat_length, Z2Nat.id.
    - lia.
    - by vm_compute. }
  assert (method req = POST) as H5 by reflexivity.
  assert (route_of (path req) = RUpload) as H6 by reflexivity.
  assert (auth_passes req world0 = true) as H7.
  { rewrite (auth_passes_header req upload_photo) by reflexivity.
    vm_compute. reflexivity. }
  exact (conj H1 (conj H2 (conj H3 (conj H4 (conj H5 (conj H6 (conj H7
           (oversized_upload_is_refused req world0 big_file
              H1 H2 H3 H4 H5 H6 H7)))))))).
Defined.

(** ** Which requests write which file *)

Lemma handlers_keep_uploads req w rid :
  uploads_dir (post_posts req w).2 = uploads_dir w
  /\ uploads_dir (put_post rid req w).2 = uploads_dir w
  /\ uploads_dir (delete_post rid req w).2 = uploads_dir w.
Proof.
  split_and!.
  - unfold post_posts. destruct (negb _); [done|]. by run_M.
  - unfold put_post. run_M. by destruct (findIndex _ _).
  - unfold delete_post. by run_M.
Qed.

(** A request leaves the collection and [uploads/] as they are, or it has
    passed the gate on one of the routes that write. *)
Lemma app_writes req w :
  (posts_file (app req w).2 = posts_file w /\ uploads_dir (app req w).2 = uploads_dir w)
  \/ (auth_passes req w = true
      /\ ((method req <> GET
           /\ (route_of (path req) = RPosts \/ exists rid, route_of (path req) = RPost rid)
           /\ uploads_dir (app req w).2 = uploads_dir w)
          \/ (method req = POST /\ route_of (path req) = RUpload
              /\ posts_file (app req w).2 = posts_file w
              /\ app req w = post_upload req (tick w)))).
Proof.
  destruct (auth_passes req w) eqn:Ha.
  - unfold app. rewrite bind_run.
    destruct (serve_static_cases req w) as [-> | (data & _ & ->)]; cbn [fst snd];
      [|by left].
    destruct (method req) eqn:Hm, (route_of (path req)) as [| |rid| |] eqn:Hr;
      try (by left);
      try (rewrite get_post_run; by left);
      try (left; unfold post_login; destruct (negb _); [done|]; by run_M);
      rewrite ?authMiddleware_pass by done;
      try (right; split; [done|]; left;
           split_and!; [done | by left
                       | apply (handlers_keep_uploads req (tick w) EmptyString)]);
      try (right; split; [done|]; left;
           split_and!; [done | right; by eexists
                       | apply (handlers_keep_uploads req (tick w) rid)]).
    right. split; [done|]. right. split_and!; [done | done | | done].
    apply (proj2 (post_upload_effect req (tick w))).
  - left. unfold app. rewrite bind_run.
    destruct (serve_static_cases req w) as [-> | (data & _ & ->)]; cbn [fst snd];
      [|done].
    destruct (method req), (route_of (path req)) as [| |rid| |]; try done;
      try (rewrite get_post_run; done);
      try (unfold post_login; destruct (negb _); [done|]; by run_M);
      match goal with
      | |- context [authMiddleware req ?next w] =>
          by destruct (authMiddleware_fail req next w Ha) as (s & w' & -> & [-> | ->])
      end.
Qed.

(** A request leaves the collection and [uploads/] as they are, or it was
    read and carries a signed token on one of the routes that write. *)
Lemma server_writes inc w :
  (posts_file (server inc w).2 = posts_file w
   /\ uploads_dir (server inc w).2 = uploads_dir w)
  \/ exists req,
       inc = Readable req /\ carries_signed_token inc
       /\ ((method req <> GET
            /\ (route_of (path req) = RPosts \/ exists rid, route_of (path req) = RPost rid)
            /\ uploads_dir (server inc w).2 = uploads_dir w)
           \/ (method req = POST /\ route_of (path req) = RUpload
               /\ posts_file (server inc w).2 = posts_file w)).
Proof.
  destruct inc as [req|rf]; cbn [server]; [|by left].
  destruct (app_writes req w) as [H | [Ha H]]; [by left|].
  right. exists req. split; [done|]. split.
  - revert Ha. unfold auth_passes.
    destruct (bearer_token req) as [[|c r]|] eqn:E; try discriminate.
    intros Hs%verify_signed. by exists req, (String c r).
  - destruct H as [H | (Hm & Hr & Hp & _)]; [by left | by right].
Qed.

(** X8.  The collection changes only by a request with a signed token on a
    route of posts, with another method than [GET]; [uploads/] changes
    only by a [POST /api/upload] with a signed token.  No other request
    writes: a [GET] changes nothing, a delete of a post removes no file of
    [uploads/], and a request the framework refuses changes nothing. *)
Theorem changes_come_from_their_routes inc w :
  (posts_file (server inc w).2 <> posts_file w ->
   exists req,
     inc = Readable req /\ carries_signed_token inc /\ method req <> GET
     /\ (route_of (path req) = RPosts \/ exists rid, route_of (path req) = RPost rid))
  /\ (uploads_dir (server inc w).2 <> uploads_dir w ->
      exists req,
        inc = Readable req /\ carries_signed_token inc
        /\ method req = POST /\ route_of (path req) = RUpload).
Proof.
  destruct (server_writes inc w)
    as [[Hp Hu] | (req & Hi & Hs & [(Hm & Hr & Hu) | (Hm & Hr & Hp)])];
    split; intros H; try done; by exists req.
Qed.

(** ** Names of other times *)

Lemma span_digits_stop ds c r :
  forallb Chars.is_digit ds = true -> Chars.is_digit c = false ->
  Chars.span Chars.is_digit (ds ++ c :: r) = (ds, c :: r).
Proof.
  intros Hds Hc. induction ds as [|d ds IH]; cbn; [by rewrite Hc|].
  cbn in Hds. apply andb_prop in Hds as [-> Hds]. by rewrite IH.
Qed.

Lemma number_toString_inj n m : Number_toString n = Number_toString m -> n = m.
Proof.
  intros E. pose proof (number_toString n [] I) as Hn.
  pose proof (number_toString m [] I) as Hm. rewrite E, Hm in Hn. by injection Hn.
Qed.

(** The names of two times differ, whatever follows the times. *)
Lemma stamped_names_differ n m h e h' e' :
  0 <= n -> 0 <= m -> n <> m ->
  Number_toString n +:+ "-" +:+ h +:+ e <> Number_toString m +:+ "-" +:+ h' +:+ e'.
Proof.
  intros Hn Hm Hne E. apply Hne, number_toString_inj.
  destruct (number_toString_digits n Hn) as (l & En & _ & Hl & _).
  destruct (number_toString_digits m Hm) as (l' & Em & _ & Hl' & _).
  rewrite En, Em in *. apply (f_equal Chars.chars) in E.
  rewrite !chars_app, !chars_text in E. cbn [Chars.chars list_ascii_of_string List.app] in E.
  apply (f_equal (Chars.span Chars.is_digit)) in E.
  rewrite !span_digits_stop in E by done. by injection E as ->.
Qed.

(** A request leaves every file of [uploads/] whose name starts with
    another time than the one it reads for a name. *)
Lemma other_times_are_kept req w n h e :
  0 <= n -> 0 <= clock w (S (ticks w)) -> n <> clock w (S (ticks w)) ->
  let other := Number_toString n +:+ "-" +:+ h +:+ e in
  uploads_dir (app req w).2 !! other = uploads_dir w !! other.
Proof.
  intros Hn Hc Hne other.
  destruct (app_writes req w)
    as [[_ ->] | [_ [(_ & _ & ->) | (_ & _ & _ & ->)]]]; [done..|].
  unfold post_upload, upload_single.
  destruct (file_part req) as [part|]; [|done].
  destruct (String.eqb _ EmptyString); [done|].
  destruct (negb _); [done|].
  rewrite !bind_run, storage_filename_run. cbn [fst snd].
  set (name := Number_toString (clock (tick w) (ticks (tick w))) +:+ _).
  assert (name <> other) as Hname.
  { subst name other. intros E. symmetry in E. revert E.
    by apply stamped_names_differ. }
  unfold Math_random. cbn [snd].
  destruct (UPLOAD_LIMIT <? _);
    unfold write_upload, remove_upload, mbind, M_bind, mret, M_ret;
    cbn [fst snd uploads_dir log_event tick Date_now].
  - by rewrite lookup_delete_ne, lookup_insert_ne.
  - by rewrite lookup_insert_ne.
Qed.

Lemma increasing_nonneg clock n : increasing clock -> 0 <= clock O -> 0 <= clock n.
Proof.
  intros Hinc H0. destruct n as [|n]; [done|].
  pose proof (Hinc O (S n) ltac:(lia)). lia.
Qed.

(** X15.  Under a clock that advances between any two reads, the file of an
    upload stays in [uploads/] whatever requests follow: a later upload
    takes a name of a later time, and nothing else removes a file. *)
Theorem uploaded_file_stays req w part reqs :
  increasing (clock w) -> 0 <= clock w O ->
  file_part req = Some part ->
  originalname part <> EmptyString -> fieldname part = "file" ->
  Z.of_nat (String.length (bytes part)) < UPLOAD_LIMIT ->
  method req = POST -> route_of (path req) = RUpload -> auth_passes req w = true ->
  let name := (storage_filename part (tick w)).1 in
  uploads_dir (serve reqs (app req w).2) !! name = Some (bytes part).
Proof.
  intros Hinc H0 Hp Hn Hf Hs Hm Hr Ha name.
  assert (clock (app req w).2 = clock w /\ (ticks w < ticks (app req w).2)%nat
          /\ uploads_dir (app req w).2 !! name = Some (bytes part)) as Hw.
  { rewrite (app_upload _ _ Hm Hr Ha).
    unfold post_upload, upload_single. rewrite Hp, Hf.
    destruct (String.eqb_spec (originalname part) EmptyString); [done|].
    change (negb (String.eqb "file" "file")) with false. cbv iota.
    rewrite !bind_run, storage_filename_run. cbn [fst snd]. fold name.
    unfold Math_random. cbn [snd].
    destruct (Z.ltb_spec UPLOAD_LIMIT (Z.of_nat (String.length (bytes part)))); [lia|].
    unfold write_upload, mbind, M_bind, mret, M_ret.
    cbn [fst snd uploads_dir clock ticks log_event tick Date_now].
    split_and!; [done | lia | apply lookup_insert_eq]. }
  revert Hw. generalize (app req w).2. intros w1 Hw. revert w1 Hw.
  induction reqs as [|r reqs IH]; intros w1 (Hc & Ht & Hl); [done|].
  cbn [serve fold_left]. apply IH.
  destruct (app_effect r w1) as [(Hc1 & _ & _ & Ht1) _].
  split_and!; [by rewrite Hc1 | lia|].
  subst name. rewrite storage_filename_run in *. cbn [fst] in *.
  rewrite other_times_are_kept; [done | | |].
  - by apply increasing_nonneg.
  - rewrite Hc. by apply increasing_nonneg.
  - rewrite Hc. cbn [tick Date_now snd clock ticks].
    pose proof (Hinc (S (ticks w)) (S (ticks w1)) ltac:(lia)). lia.
Qed.

Lemma uploaded_file_stays_witness :
  let name := (storage_filename photo (tick world0)).1 in
  let create := authorized POST ["api"; "posts"] (BodyObject [("title", JStr "Hello")]) None in
  let reqs := [upload_photo; create; upload_photo] in
  increasing (clock world0) /\ 0 <= clock world0 O
  /\ file_part upload_photo = Some photo
  /\ originalname photo <> EmptyString /\ fieldname photo = "file"
  /\ Z.of_nat (String.length (bytes photo)) < UPLOAD_LIMIT
  /\ method upload_photo = POST /\ route_of (path upload_photo) = RUpload
  /\ auth_passes upload_photo world0 = true
  /\ uploads_dir (serve reqs (app upload_photo world0).2) !! name = Some (bytes photo).
Proof.
  intros name create reqs.
  assert (increasing (clock world0)) as H1
    by (intros i j Hij; cbn; unfold clock0; lia).
  assert (0 <= clock world0 O) as H2 by (vm_compute; discriminate).
  assert (file_part upload_photo = Some photo) as H3 by reflexivity.
  assert (originalname photo <> EmptyString) as H4 by discriminate.
  assert (fieldname photo = "file") as H5 by reflexivity.
  assert (Z.of_nat (String.length (bytes photo)) < UPLOAD_LIMIT) as H6
    by (vm_compute; reflexivity).
  assert (method upload_photo = POST) as H7 by reflexivity.
  assert (route_of (path upload_photo) = RUpload) as H8 by reflexivity.
  assert (auth_passes upload_photo world0 = true) as H9 by (vm_compute; reflexivity).
  exact (conj H1 (conj H2 (conj H3 (conj H4 (conj H5 (conj H6 (conj H7 (conj H8
           (conj H9
              (uploaded_file_stays upload_photo world0 photo reqs
                 H1 H2 H3 H4 H5 H6 H7 H8 H9)))))))))).
Defined.

(** ** [JSON.parse] inverts [JSON.stringify] *)

Lemma json_induction (P : json -> Prop) :
  P JNull -> (forall b, P (JBool b)) -> (forall n, P (JNum n)) -> (forall s, P (JStr s)) ->
  (forall xs, Forall P xs -> P (JArr xs)) ->
  (forall fs, Forall (fun kv => P kv.2) fs -> P (JObj fs)) ->
  forall v, P v.
Proof.
  intros Hnull Hbool Hnum Hstr Harr Hobj.
  fix IH 1. intros [| b | n | s | xs | fs].
  - exact Hnull.
  - apply Hbool.
  - apply Hnum.
  - apply Hstr.
  - apply Harr. induction xs as [|x xs IHxs]; constructor; [apply IH | exact IHxs].
  - apply Hobj. induction fs as [|[k x] fs IHfs]; constructor; [apply IH | exact IHfs].
Qed.

(** *** Strings *)

Lemma string_body_escape c r :
  JsonText.string_body (JsonText.escape_char c ++ r)
  = JsonText.prepend [c] (JsonText.string_body r).
Proof. destruct c as [[] [] [] [] [] [] [] []]; reflexivity. Qed.

Lemma string_body_closes r :
  JsonText.string_body (JsonText.dquote :: r) = Some ([], r).
Proof. reflexivity. Qed.

Lemma string_body_quoted cs rest :
  JsonText.string_body
    (concat (map JsonText.escape_char cs) ++ JsonText.dquote :: rest)
  = Some (cs, rest).
Proof.
  induction cs as [|c cs IH]; [apply string_body_closes|].
  cbn [map concat]. rewrite <- app_assoc, string_body_escape, IH. reflexivity.
Qed.

Lemma quote_unfold s rest :
  JsonText.quote s ++ rest
  = JsonText.dquote
      :: concat (map JsonText.escape_char (Chars.chars s)) ++ JsonText.dquote :: rest.
Proof. unfold JsonText.quote. cbn. by rewrite <- app_assoc. Qed.

(** *** White space *)

Lemma skip_ws_blank lead l : blank lead -> JsonText.skip_ws (lead ++ l) = JsonText.skip_ws l.
Proof. induction 1 as [|c lead Hc _ IH]; [done|]. cbn. by rewrite Hc. Qed.

Lemma skip_ws_head c r : JsonText.is_ws c = false -> JsonText.skip_ws (c :: r) = c :: r.
Proof. intros H. cbn. by rewrite H. Qed.

Lemma value_blank fuel lead l :
  blank lead -> JsonText.value fuel (lead ++ l) = JsonText.value fuel l.
Proof.
  intros Hl. destruct fuel as [|f]; [done|].
  cbn [JsonText.value]. by rewrite skip_ws_blank.
Qed.

Lemma elements_blank fuel lead l :
  blank lead -> JsonText.elements fuel (lead ++ l) = JsonText.elements fuel l.
Proof.
  intros Hl. destruct fuel as [|f]; [done|].
  cbn [JsonText.elements]. by rewrite value_blank.
Qed.

Lemma members_blank fuel lead l :
  blank lead -> JsonText.members fuel (lead ++ l) = JsonText.members fuel l.
Proof.
  intros Hl. destruct fuel as [|f]; [done|].
  cbn [JsonText.members]. by rewrite skip_ws_blank.
Qed.

Lemma blank_line_break gap indent : blank gap -> blank indent -> blank (line_break gap indent).
Proof.
  intros Hg Hi. unfold line_break. destruct gap; [constructor|]. by constructor.
Qed.

Lemma blank_app a b : blank a -> blank b -> blank (a ++ b).
Proof. intros. by apply Forall_app. Qed.

(** *** The steps of the parser *)

Lemma value_array_empty f l c r c1 r1 :
  JsonText.skip_ws l = c :: r -> Chars.code c = 91 ->
  JsonText.skip_ws r = c1 :: r1 -> Chars.code c1 = 93 ->
  JsonText.value (S f) l = Some (JArr [], r1).
Proof.
  intros H1 H2 H3 H4. cbn [JsonText.value]. rewrite H1. cbv zeta.
  rewrite H2, H3, H4. reflexivity.
Qed.

Lemma value_array f l c r c1 r1 xs r2 :
  JsonText.skip_ws l = c :: r -> Chars.code c = 91 ->
  JsonText.skip_ws r = c1 :: r1 -> Chars.code c1 <> 93 ->
  JsonText.elements f r = Some (xs, r2) ->
  JsonText.value (S f) l = Some (JArr xs, r2).
Proof.
  intros H1 H2 H3 H4 H5. cbn [JsonText.value]. rewrite H1. cbv zeta.
  rewrite H2, H3. apply Z.eqb_neq in H4. rewrite H4. cbn -[JsonText.elements].
  rewrite H5. reflexivity.
Qed.

Lemma value_object_empty f l c r c1 r1 :
  JsonText.skip_ws l = c :: r -> Chars.code c = 123 ->
  JsonText.skip_ws r = c1 :: r1 -> Chars.code c1 = 125 ->
  JsonText.value (S f) l = Some (JObj [], r1).
Proof.
  intros H1 H2 H3 H4. cbn [JsonText.value]. rewrite H1. cbv zeta.
  rewrite H2, H3, H4. reflexivity.
Qed.

Lemma elements_last f l x r c r1 :
  JsonText.value f l = Some (x, r) ->
  JsonText.skip_ws r = c :: r1 -> Chars.code c = 93 ->
  JsonText.elements (S f) l = Some ([x], r1).
Proof.
  intros H1 H2 H3. cbn [JsonText.elements]. rewrite H1. cbn -[JsonText.skip_ws].
  rewrite H2, H3. reflexivity.
Qed.

Lemma elements_more f l x r c r1 xs r2 :
  JsonText.value f l = Some (x, r) ->
  JsonText.skip_ws r = c :: r1 -> Chars.code c = 44 ->
  JsonText.elements f r1 = Some (xs, r2) ->
  JsonText.elements (S f) l = Some (x :: xs, r2).
Proof.
  intros H1 H2 H3 H4. cbn [JsonText.elements]. rewrite H1. cbn -[JsonText.skip_ws JsonText.elements].
  rewrite H2, H3. cbn -[JsonText.elements]. rewrite H4. reflexivity.
Qed.

Lemma value_string_of f l c r s r1 :
  JsonText.skip_ws l = c :: r -> Chars.code c = 34 ->
  JsonText.string_body r = Some (Chars.chars s, r1) ->
  JsonText.value (S f) l = Some (JStr s, r1).
Proof. intros. erewrite value_string by eassumption. by rewrite text_chars. Qed.

Lemma members_more_of f l q r0 k r1 colon r2 x r3 c r4 fs r5 :
  JsonText.skip_ws l = q :: r0 -> Chars.code q = 34 ->
  JsonText.string_body r0 = Some (Chars.chars k, r1) ->
  JsonText.skip_ws r1 = colon :: r2 -> Chars.code colon = 58 ->
  JsonText.value f r2 = Some (x, r3) ->
  JsonText.skip_ws r3 = c :: r4 -> Chars.code c = 44 ->
  JsonText.members f r4 = Some (fs, r5) ->
  JsonText.members (S f) l = Some ((k, x) :: fs, r5).
Proof. intros. erewrite members_more by eassumption. by rewrite text_chars. Qed.

Lemma members_last_of f l q r0 k r1 colon r2 x r3 c r4 :
  JsonText.skip_ws l = q :: r0 -> Chars.code q = 34 ->
  JsonText.string_body r0 = Some (Chars.chars k, r1) ->
  JsonText.skip_ws r1 = colon :: r2 -> Chars.code colon = 58 ->
  JsonText.value f r2 = Some (x, r3) ->
  JsonText.skip_ws r3 = c :: r4 -> Chars.code c = 125 ->
  JsonText.members (S f) l = Some ([(k, x)], r4).
Proof. intros. erewrite members_last by eassumption. by rewrite text_chars. Qed.

(** *** What follows a value *)

Lemma ends_number_after lead c r :
  blank lead -> Chars.code c = 44 \/ Chars.code c = 93 \/ Chars.code c = 125 ->
  ends_number (lead ++ c :: r).
Proof.
  intros Hl Hc. assert (forall x l, Chars.code x = 44 \/ Chars.code x = 93
                          \/ Chars.code x = 125 \/ JsonText.is_ws x = true ->
                          ends_number (x :: l)) as H.
  { intros x l Hx. cbn. unfold Chars.is_digit, JsonText.is_ws in *.
    rewrite !orb_true_iff, !Z.eqb_eq in Hx.
    split; [apply andb_false_iff; rewrite !Z.leb_gt; lia | lia]. }
  destruct Hl as [|x lead Hx _].
  - apply (H c r). destruct Hc as [?|[?|?]]; auto.
  - apply (H x (lead ++ c :: r)). auto.
Qed.

Lemma skip_ws_after lead c r :
  blank lead -> Chars.code c = 44 \/ Chars.code c = 93 \/ Chars.code c = 125 ->
  JsonText.skip_ws (lead ++ c :: r) = c :: r.
Proof.
  intros Hl Hc. rewrite skip_ws_blank by done. apply skip_ws_head.
  unfold JsonText.is_ws. rewrite !orb_false_iff, !Z.eqb_neq. lia.
Qed.

(** *** Values *)

Section ReadsBack.
Variable gap : list ascii.
Hypothesis gap_blank : blank gap.

Lemma serialize_opens indent v : opens (serialize gap indent v).
Proof.
  destruct v as [| [] | n | s | [|x xs] | [|kx fs]];
    try (eexists _, _; split; [reflexivity|]; by vm_compute).
  destruct (number_toString_head n) as (c & r & E & Hc).
  exists c, r. split; [exact E|].
  unfold JsonText.is_ws, Chars.is_digit in *.
  rewrite !orb_false_iff, !Z.eqb_neq.
  destruct Hc as [[H1 H2]%andb_prop | Hc]; [apply Z.leb_le in H1, H2|]; lia.
Qed.

Lemma opens_skip l rest :
  opens l -> exists c r, JsonText.skip_ws (l ++ rest) = c :: r ++ rest
                         /\ l = c :: r /\ Chars.code c <> 93 /\ Chars.code c <> 125.
Proof.
  intros (c & r & -> & Hw & H1 & H2). exists c, r. cbn [List.app].
  by rewrite skip_ws_head.
Qed.

Lemma joined_opens {A} (ser : A -> list ascii) sep x xs :
  opens (ser x) -> opens (joined ser sep (x :: xs)).
Proof.
  intros (c & r & E & H). destruct xs as [|y xs]; cbn [joined]; rewrite E.
  - by exists c, r.
  - by eexists c, _.
Qed.

Lemma elements_joined xs :
  xs <> [] -> Forall (reads_back gap) xs ->
  forall indent lead fuel rest,
    blank indent -> blank lead -> (list_cost cost xs <= fuel)%nat ->
    JsonText.elements fuel
      (joined (serialize gap indent) (","%char :: line_break gap indent) xs
         ++ lead ++ "]"%char :: rest)
    = Some (xs, rest).
Proof.
  intros Hne Hxs indent lead fuel rest Hi Hl. revert fuel.
  induction Hxs as [|x xs Hx Hxs IH]; [done|]. clear Hne.
  intros [|f] Hf; [cbn in Hf; lia|]. cbn [list_cost] in Hf.
  destruct xs as [|y xs].
  - cbn [joined]. eapply elements_last.
    + apply Hx; [done | lia | apply ends_number_after; [done | vm_compute; lia]].
    + apply skip_ws_after; [done | vm_compute; lia].
    + reflexivity.
  - change (joined (serialize gap indent) (","%char :: line_break gap indent) (x :: y :: xs))
      with (serialize gap indent x ++ (","%char :: line_break gap indent)
              ++ joined (serialize gap indent) (","%char :: line_break gap indent) (y :: xs)).
    rewrite <- !app_assoc. cbn [List.app]. eapply elements_more.
    + apply Hx; [done | lia | apply (ends_number_after []); [constructor | vm_compute; lia]].
    + apply (skip_ws_after []); [constructor | vm_compute; lia].
    + reflexivity.
    + rewrite elements_blank by (by apply blank_line_break).
      apply IH; [done | lia].
Qed.

Lemma members_joined fs :
  fs <> [] -> Forall (fun kx => reads_back gap kx.2) fs ->
  forall indent lead fuel rest,
    blank indent -> blank lead -> (list_cost (fun '(_, x) => cost x) fs <= fuel)%nat ->
    JsonText.members fuel
      (joined (fun '(k, x) => JsonText.quote k ++ colon gap ++ serialize gap indent x)
         (","%char :: line_break gap indent) fs
         ++ lead ++ "}"%char :: rest)
    = Some (fs, rest).
Proof.
  intros Hne Hfs indent lead fuel rest Hi Hl. revert fuel.
  induction Hfs as [|[k x] fs Hx Hfs IH]; [done|]. clear Hne. cbn [snd] in Hx.
  intros [|f] Hf; [cbn in Hf; lia|]. cbn [list_cost] in Hf.
  assert (forall tail, exists sp,
            blank sp /\ colon gap ++ tail = ":"%char :: sp ++ tail) as Hcolon.
  { intros tail. unfold colon. destruct gap.
    - by exists [].
    - exists [" "%char]. split; [by repeat constructor | done]. }
  destruct fs as [|ky fs].
  - cbn [joined]. rewrite <- !app_assoc, quote_unfold.
    destruct (Hcolon (serialize gap indent x ++ lead ++ "}"%char :: rest))
      as (sp & Hsp & ->).
    eapply members_last_of.
    + apply skip_ws_head. by vm_compute.
    + reflexivity.
    + apply string_body_quoted.
    + apply skip_ws_head. by vm_compute.
    + reflexivity.
    + rewrite value_blank by done.
      apply Hx; [done | lia | apply ends_number_after; [done | vm_compute; lia]].
    + apply skip_ws_after; [done | vm_compute; lia].
    + reflexivity.
  - change (joined ?ser ?sep ((k, x) :: ky :: fs))
      with ((JsonText.quote k ++ colon gap ++ serialize gap indent x)
              ++ sep ++ joined ser sep (ky :: fs)).
    rewrite <- !app_assoc, quote_unfold. cbn [List.app].
    destruct (Hcolon (serialize gap indent x ++ ","%char :: line_break gap indent
                ++ joined (fun '(k, x) => JsonText.quote k ++ colon gap
                                           ++ serialize gap indent x)
                     (","%char :: line_break gap indent) (ky :: fs)
                ++ lead ++ "}"%char :: rest))
      as (sp & Hsp & ->).
    eapply members_more_of.
    + apply skip_ws_head. by vm_compute.
    + reflexivity.
    + apply string_body_quoted.
    + apply skip_ws_head. by vm_compute.
    + reflexivity.
    + rewrite value_blank by done.
      apply Hx; [done | lia | apply (ends_number_after []); [constructor | vm_compute; lia]].
    + apply (skip_ws_after []); [constructor | vm_compute; lia].
    + reflexivity.
    + rewrite members_blank by (by apply blank_line_break).
      apply IH; [done | lia].
Qed.

Lemma serialize_reads_back v : reads_back gap v.
Proof.
  induction v as [| b | n | s | xs IH | fs IH] using json_induction;
    intros indent fuel rest Hi Hf Hr.
  - destruct fuel as [|f]; [cbn in Hf; lia | reflexivity].
  - destruct fuel as [|f]; [cbn in Hf; lia | by destruct b].
  - apply value_number; [cbn in Hf; lia | done].
  - destruct fuel as [|f]; [cbn in Hf; lia|]. cbn [serialize].
    rewrite quote_unfold. eapply value_string_of.
    + apply skip_ws_head. by vm_compute.
    + reflexivity.
    + apply string_body_quoted.
  - destruct fuel as [|f]; [cbn in Hf; lia|]. cbn [cost] in Hf.
    destruct xs as [|x xs].
    + eapply value_array_empty; reflexivity.
    + assert (blank (indent ++ gap)) as Hi' by (by apply blank_app).
      change (serialize gap indent (JArr (x :: xs)))
        with ("["%char :: line_break gap (indent ++ gap)
                ++ joined (serialize gap (indent ++ gap))
                     (","%char :: line_break gap (indent ++ gap)) (x :: xs)
                ++ line_break gap indent ++ ["]"%char]).
      cbn [List.app]. rewrite <- !app_assoc. cbn [List.app].
      destruct (opens_skip _ (line_break gap indent ++ "]"%char :: rest)
                  (joined_opens (serialize gap (indent ++ gap))
                     (","%char :: line_break gap (indent ++ gap)) x xs
                     (serialize_opens _ x)))
        as (c & r & Hskip & _ & H93 & _).
      eapply value_array.
      * apply skip_ws_head. by vm_compute.
      * reflexivity.
      * rewrite skip_ws_blank by (by apply blank_line_break). exact Hskip.
      * exact H93.
      * rewrite elements_blank by (by apply blank_line_break).
        apply elements_joined; [done | done | done | by apply blank_line_break | lia].
  - destruct fuel as [|f]; [cbn in Hf; lia|]. cbn [cost] in Hf.
    destruct fs as [|[k x] fs].
    + eapply value_object_empty; reflexivity.
    + assert (blank (indent ++ gap)) as Hi' by (by apply blank_app).
      change (serialize gap indent (JObj ((k, x) :: fs)))
        with ("{"%char :: line_break gap (indent ++ gap)
                ++ joined (fun '(k, x) => JsonText.quote k ++ colon gap
                                           ++ serialize gap (indent ++ gap) x)
                     (","%char :: line_break gap (indent ++ gap)) ((k, x) :: fs)
                ++ line_break gap indent ++ ["}"%char]).
      cbn [List.app]. rewrite <- !app_assoc. cbn [List.app].
      assert (opens (JsonText.quote k ++ colon gap ++ serialize gap (indent ++ gap) x))
        as Hopen by (eexists _, _; split; [reflexivity | by vm_compute]).
      destruct (opens_skip _ (line_break gap indent ++ "}"%char :: rest)
                  (joined_opens (fun '(k, x) => JsonText.quote k ++ colon gap
                                                 ++ serialize gap (indent ++ gap) x)
                     (","%char :: line_break gap (indent ++ gap)) (k, x) fs Hopen))
        as (c & r & Hskip & _ & _ & H125).
      eapply value_object.
      * apply skip_ws_head. by vm_compute.
      * reflexivity.
      * rewrite skip_ws_blank by (by apply blank_line_break). exact Hskip.
      * by apply Z.eqb_neq.
      * rewrite members_blank by (by apply blank_line_break).
        apply members_joined; [done | done | done | by apply blank_line_break | lia].
Qed.

End ReadsBack.

(** *** The fuel of [JSON.parse] is enough *)

Lemma joined_cost {A} (ser : A -> list ascii) sep (c : A -> nat) xs :
  Forall (fun x => (c x + 1 <= 2 * length (ser x))%nat) xs ->
  (list_cost c xs <= 2 * length (joined ser sep xs))%nat.
Proof.
  induction 1 as [|x xs Hx Hxs IH]; [done|].
  destruct xs as [|y xs].
  - cbn. lia.
  - change (joined ser sep (x :: y :: xs)) with (ser x ++ sep ++ joined ser sep (y :: xs)).
    change (list_cost c (x :: y :: xs)) with (S (c x + list_cost c (y :: xs))).
    rewrite !length_app. lia.
Qed.

Lemma cost_bound gap v indent :
  (cost v + 1 <= 2 * length (serialize gap indent v))%nat.
Proof.
  revert indent.
  induction v as [| b | n | s | xs IH | fs IH] using json_induction; intros indent.
  - cbn. lia.
  - destruct b; cbn; lia.
  - cbn [cost serialize]. destruct (number_toString_head n) as (c & r & -> & _). cbn. lia.
  - cbn [cost serialize]. unfold JsonText.quote. cbn [length]. lia.
  - destruct xs as [|x xs]; [cbn; lia|].
    change (serialize gap indent (JArr (x :: xs)))
      with ("["%char :: line_break gap (indent ++ gap)
              ++ joined (serialize gap (indent ++ gap))
                   (","%char :: line_break gap (indent ++ gap)) (x :: xs)
              ++ line_break gap indent ++ ["]"%char]).
    cbn [cost length]. rewrite !length_app. cbn [length].
    pose proof (joined_cost (serialize gap (indent ++ gap))
                  (","%char :: line_break gap (indent ++ gap)) cost (x :: xs)) as H.
    assert (list_cost cost (x :: xs)
            <= 2 * length (joined (serialize gap (indent ++ gap))
                             (","%char :: line_break gap (indent ++ gap)) (x :: xs)))%nat;
      [|lia].
    apply H. eapply Forall_impl; [exact IH|]. cbn. intros y Hy. apply Hy.
  - destruct fs as [|[k x] fs]; [cbn; lia|].
    change (serialize gap indent (JObj ((k, x) :: fs)))
      with ("{"%char :: line_break gap (indent ++ gap)
              ++ joined (fun '(k, x) => JsonText.quote k ++ colon gap
                                         ++ serialize gap (indent ++ gap) x)
                   (","%char :: line_break gap (indent ++ gap)) ((k, x) :: fs)
              ++ line_break gap indent ++ ["}"%char]).
    cbn [cost length]. rewrite !length_app. cbn [length].
    assert (list_cost (fun '(_, x) => cost x) ((k, x) :: fs)
            <= 2 * length (joined (fun '(k, x) => JsonText.quote k ++ colon gap
                                         ++ serialize gap (indent ++ gap) x)
                             (","%char :: line_break gap (indent ++ gap)) ((k, x) :: fs)))%nat;
      [|lia].
    apply joined_cost. eapply Forall_impl; [exact IH|].
    intros [k' y] Hy. cbn [snd] in Hy. specialize (Hy (indent ++ gap)).
    rewrite !length_app. lia.
Qed.

(** [JSON.parse] gives back the value that [JSON.stringify] was given,
    whatever the indentation. *)
Lemma parse_serialize gap v :
  blank gap -> JsonText.JSON_parse (Chars.text (serialize gap [] v)) = Some v.
Proof.
  intros Hgap. unfold JsonText.JSON_parse. rewrite chars_text, length_text.
  rewrite <- (app_nil_r (serialize gap [] v)) at 2.
  rewrite (serialize_reads_back gap Hgap v); [done | constructor | | done].
  pose proof (cost_bound gap v []). lia.
Qed.

Lemma blank_spaces n : blank (repeat " "%char n).
Proof. induction n; by constructor. Qed.

(** Without a gap the serialization is the one of [JSON.stringify (v)]. *)
Lemma joined_elements i xs :
  Forall (fun x => forall i, serialize [] i x = JsonText.stringify_chars x) xs ->
  joined (serialize [] i) [","%char] xs
  = (fix elems (l : list json) : list ascii :=
       match l with
       | [] => []
       | [x] => JsonText.stringify_chars x
       | x :: r => JsonText.stringify_chars x ++ ","%char :: elems r
       end) xs.
Proof.
  induction 1 as [|y ys Hy Hys IHys]; [done|].
  destruct ys as [|z ys]; [apply Hy|].
  change (joined (serialize [] i) [","%char] (y :: z :: ys))
    with (serialize [] i y ++ [","%char] ++ joined (serialize [] i) [","%char] (z :: ys)).
  rewrite Hy, IHys. reflexivity.
Qed.

Lemma joined_members i fs :
  Forall (fun kx => forall i, serialize [] i kx.2 = JsonText.stringify_chars kx.2) fs ->
  joined (fun '(k, x) => JsonText.quote k ++ colon [] ++ serialize [] i x) [","%char] fs
  = (fix members (l : list (string * json)) : list ascii :=
       match l with
       | [] => []
       | [(k, x)] => JsonText.quote k ++ ":"%char :: JsonText.stringify_chars x
       | (k, x) :: r => JsonText.quote k ++ ":"%char :: JsonText.stringify_chars x
                          ++ ","%char :: members r
       end) fs.
Proof.
  induction 1 as [|[k y] ys Hy Hys IHys]; [done|]. cbn [snd] in Hy.
  destruct ys as [|z ys]; [cbn; by rewrite Hy|].
  change (joined ?ser ?sep ((k, y) :: z :: ys))
    with ((JsonText.quote k ++ colon [] ++ serialize [] i y)
            ++ sep ++ joined ser sep (z :: ys)).
  rewrite Hy, IHys. cbn [colon List.app]. rewrite <- app_assoc. reflexivity.
Qed.

Lemma serialize_compact v indent :
  serialize [] indent v = JsonText.stringify_chars v.
Proof.
  revert indent.
  induction v as [| b | n | s | xs IH | fs IH] using json_induction; intros indent;
    try reflexivity.
  - destruct xs as [|x xs]; [reflexivity|].
    change (serialize [] indent (JArr (x :: xs)))
      with ("["%char :: joined (serialize [] (indent ++ [])) [","%char] (x :: xs)
              ++ ["]"%char]).
    by rewrite joined_elements.
  - destruct fs as [|[k x] fs]; [reflexivity|].
    change (serialize [] indent (JObj ((k, x) :: fs)))
      with ("{"%char
              :: joined (fun '(k, x) => JsonText.quote k ++ colon []
                                         ++ serialize [] (indent ++ []) x)
                   [","%char] ((k, x) :: fs)
              ++ ["}"%char]).
    by rewrite joined_members.
Qed.

Lemma parse_stringify v : JsonText.JSON_parse (JsonText.JSON_stringify v) = Some v.
Proof.
  unfold JsonText.JSON_stringify. rewrite <- (serialize_compact v []).
  apply parse_serialize. constructor.
Qed.

(** The members of a post as [res.json] and [savePosts] write it. *)
Lemma json_of_post_members p :
  get_prop (json_of_post p) "id" = Some (JNum (id p))
  /\ get_prop (json_of_post p) "title" = title p
  /\ get_prop (json_of_post p) "content" = content p
  /\ get_prop (json_of_post p) "createdAt" = Some (JStr (createdAt p))
  /\ get_prop (json_of_post p) "updatedAt" = JStr <$> updatedAt p.
Proof. by destruct p as [n [t|] [c|] ca [u|]]. Qed.

(** X11.  The collection that [savePosts] writes is the one that [readPosts]
    reads: the text of the file, two spaces of indentation a level, is
    parsed to the array of the posts, each an object whose members are the
    id, the title, the content and the two dates of the post, those of
    them it has; the text of the empty collection is the one the server
    writes at its first start. *)
Theorem saved_posts_are_read_back data :
  parse_posts (posts_text data) = Some (JArr (map json_of_post data))
  /\ Forall (fun p => get_prop (json_of_post p) "id" = Some (JNum (id p))
                      /\ get_prop (json_of_post p) "title" = title p
                      /\ get_prop (json_of_post p) "content" = content p
                      /\ get_prop (json_of_post p) "createdAt" = Some (JStr (createdAt p))
                      /\ get_prop (json_of_post p) "updatedAt" = JStr <$> updatedAt p)
       data
  /\ posts_text [] = "[]".
Proof.
  split; [apply parse_serialize, blank_spaces|]. split; [|reflexivity].
  apply List.Forall_forall. intros p _. apply json_of_post_members.
Qed.

(** ** Base64url *)

Lemma length_encode_bytes l :
  Z.of_nat (length (Base64url.encode_bytes l)) = (4 * Z.of_nat (length l) + 2) / 3.
Proof.
  induction l as [| a | a b | a b c r IH] using list_ind3; try reflexivity.
  cbn [Base64url.encode_bytes length]. rewrite !Nat2Z.inj_succ, IH.
  Z.div_mod_to_equations. lia.
Qed.

(** X18.  The segments of a token: Base64url decoding gives back the text that
    was encoded; the code has four characters for three bytes, without
    padding, all of the alphabet, so that it holds no dot. *)
Theorem base64url_round_trip s :
  Base64url.decode (Base64url.encode s) = Some s
  /\ Z.of_nat (String.length (Base64url.encode s))
     = (4 * Z.of_nat (String.length s) + 2) / 3
  /\ Forall (fun c => Base64url.in_alphabet c = true /\ c <> "."%char /\ c <> "="%char)
       (Chars.chars (Base64url.encode s)).
Proof.
  split; [apply base64url_decode_encode|]. split.
  - unfold Base64url.encode.
    by rewrite length_text, length_map, length_encode_bytes, length_map, length_chars.
  - pose proof (base64url_encode_alphabet s) as H. rewrite forallb_forall in H.
    apply List.Forall_forall. intros c Hc. specialize (H c Hc).
    split; [done|]. split; intros ->; by vm_compute in H.
Qed.

(** ** The file of the posts on a known collection *)

Example posts_text_value :
  posts_text [post1; post2]
  = double_quoted "[
  {
    'id': 1699999990000,
    'title': 'First',
    'content': 'text',
    'createdAt': '2023-11-14T22:13:10.000Z'
  },
  {
    'id': 1699999980000,
    'title': 'Second',
    'createdAt': '2023-11-14T22:13:00.000Z'
  }
]"
  /\ JSON_stringify_spaces
       (JObj [("a", JArr [JNum 1; JArr []; JObj []]); ("b", JObj [("c", JNull)])]) 2
     = double_quoted "{
  'a': [
    1,
    [],
    {}
  ],
  'b': {
    'c': null
  }
}".
Proof. vm_compute. by split. Qed.

(** ** What the gate looks at in a token *)

(** X10.  The gate accepts a token that is signed with the secret of the server
    whatever its payload says: of its members only [exp] and [nbf] are
    looked at, the role is not; a payload without them passes at any
    time. *)
Theorem gate_ignores_the_role fs req next w :
  let token := Jwt.compact Jwt.header_HS256 (JObj fs) JWT_SECRET in
  authorization req = Some ("Bearer " +:+ token) ->
  authMiddleware req next w
  = (if Jwt.claims_ok (clock w (ticks w) / 1000) (Jwt.PJson (JObj fs))
     then next (tick w)
     else (res_json 401 (msg "登录失效"), tick w))
  /\ (get_prop (JObj fs) "exp" = None -> get_prop (JObj fs) "nbf" = None ->
      authMiddleware req next w = next (tick w)).
Proof.
  intros token Hh.
  assert (Jwt.verify (clock w (ticks w)) token JWT_SECRET
          = Jwt.claims_ok (clock w (ticks w) / 1000) (Jwt.PJson (JObj fs))) as Hv.
  { apply compact_verifies;
      [apply parse_header | reflexivity | reflexivity | reflexivity
      | apply stringify_nonempty | apply stringify_nonempty | done
      | apply parse_stringify]. }
  assert (authMiddleware req next w
          = (if Jwt.claims_ok (clock w (ticks w) / 1000) (Jwt.PJson (JObj fs))
             then next (tick w)
             else (res_json 401 (msg "登录失效"), tick w))) as Hgate.
  { rewrite (authMiddleware_header req next w _ Hh). cbv zeta.
    rewrite replace_prefix. change (EmptyString +:+ token) with token.
    destruct (String.eqb_spec token EmptyString) as [E|_];
      [by apply compact_nonempty in E|].
    by rewrite Hv. }
  split; [exact Hgate|]. intros Hexp Hnbf. rewrite Hgate.
  unfold Jwt.claims_ok. by rewrite Hexp, Hnbf.
Qed.

Lemma gate_ignores_the_role_witness :
  let fs := [("role", JStr "guest")] in
  let token := Jwt.compact Jwt.header_HS256 (JObj fs) JWT_SECRET in
  let req := {| method := DELETE; path := ["api"; "posts"; "1699999990000"];
                authorization := Some ("Bearer " +:+ token);
                body := BodyObject []; file_part := None |} in
  let next := delete_post "1699999990000" req in
  authorization req = Some ("Bearer " +:+ token)
  /\ authMiddleware req next world2
     = (if Jwt.claims_ok (clock world2 (ticks world2) / 1000) (Jwt.PJson (JObj fs))
        then next (tick world2)
        else (res_json 401 (msg "登录失效"), tick world2))
  /\ (get_prop (JObj fs) "exp" = None -> get_prop (JObj fs) "nbf" = None ->
      authMiddleware req next world2 = next (tick world2)).
Proof.
  intros fs token req next.
  assert (authorization req = Some ("Bearer " +:+ token)) as H1 by reflexivity.
  exact (conj H1 (gate_ignores_the_role fs req next world2 H1)).
Defined.

(** X9.  A request passes the gate only with a token [h.p.s] whose third
    segment is the HMAC of the first two under the secret of the server:
    a token that is not signed, or is signed with another key, does not
    pass unless it has that very signature. *)
Theorem only_signed_tokens_pass req w :
  auth_passes req w = true ->
  exists h p a,
    bearer_token req
    = Some ((h +:+ "." +:+ p) +:+ "." +:+ Jwt.signature a JWT_SECRET (h +:+ "." +:+ p)).
Proof.
  unfold auth_passes. destruct (bearer_token req) as [[|c r]|]; try discriminate.
  intros (h & p & a & ->)%verify_signed. by exists h, p, a.
Qed.

Lemma only_signed_tokens_pass_witness :
  let req := authorized POST ["api"; "posts"] (BodyObject [("title", JStr "Hello")]) None in
  auth_passes req world0 = true
  /\ exists h p a,
       bearer_token req
       = Some ((h +:+ "." +:+ p) +:+ "." +:+ Jwt.signature a JWT_SECRET (h +:+ "." +:+ p)).
Proof.
  intros req.
  assert (auth_passes req world0 = true) as H1 by (vm_compute; reflexivity).
  exact (conj H1 (only_signed_tokens_pass req world0 H1)).
Defined.

(** ** The two refusals of the gate *)

Lemma replace_bearer_empty h :
  replace "Bearer " EmptyString h = EmptyString -> h = EmptyString \/ h = "Bearer ".
Proof.
  destruct h as [|c r]; [by left|]. cbn [replace].
  destruct (string_strip_prefix "Bearer " (String c r)) as [rest|] eqn:E; [|done].
  apply strip_prefix_Some in E. rewrite append_nil. intros ->. by right.
Qed.

(** X19.  The gate answers 401 with the message of a missing login, and
    without a call of the token library, for a request without an
    [Authorization] header, with an empty one, or with [Bearer ] alone;
    any other header is verified at one read of the clock, and the
    request is let through, and then its token is signed, or answered
    401 with the message of a failed login. *)
Theorem missing_login_and_failed_login req next w :
  (authorization req = None \/ authorization req = Some EmptyString
   \/ authorization req = Some "Bearer " ->
   authMiddleware req next w = (res_json 401 (msg "未登录"), w))
  /\ (forall h, authorization req = Some h -> h <> EmptyString -> h <> "Bearer " ->
      (carries_signed_token (Readable req)
       /\ authMiddleware req next w = next (tick w))
      \/ authMiddleware req next w = (res_json 401 (msg "登录失效"), tick w)).
Proof.
  split.
  - unfold authMiddleware. by intros [-> | [-> | ->]].
  - intros h Hh H1 H2.
    pose proof (authMiddleware_header req next w h Hh) as Hg. cbv zeta in Hg.
    destruct (String.eqb_spec (replace "Bearer " EmptyString h) EmptyString) as [E|_].
    { by destruct (replace_bearer_empty h E). }
    rewrite Hg. destruct (Jwt.verify _ _ _) eqn:Hv; [left | by right].
    split; [|done]. exists req, (replace "Bearer " EmptyString h).
    split_and!; [done | unfold bearer_token; by rewrite Hh | by apply verify_signed in Hv].
Qed.
